(** * Green Commerce: the group buying service

    A shallow embedding of [services/groupBuyingService.js] together with
    the three mongoose schemas it works on ([models/GroupBuy.js],
    [models/Product.js], [models/User.js]); and, further down, of the
    scores of [utils/sustainabilityScoring.js], of the methods of
    [models/User.js] that keep a user's carbon impact, and of the tags that
    [services/recommendationEngine.js] takes from a purchase history.

    - JavaScript numbers that carry carbon quantities and percentages are
      IEEE 754 binary64 values, modelled by Rocq's primitive [float].
    - Dates are integers (milliseconds since the epoch), object ids are
      natural numbers, [participants.length] is a natural number and the
      threshold is an integer.
    - Every [await] of the service is a database operation.  The service
      methods are written as programs over those operations ([Prog]); the
      programs are then interpreted either one call at a time ([run]) or
      interleaved at their [await]s ([schedule]).
    - A call is given the time [now] at which it is made and uses it
      wherever the source reads the clock with [new Date()]; a call of
      [createGroupBuy] is also given the time zone of the server, in whose
      local time [setDate] counts the days to the expiry date.
    - [save()] on a loaded document puts the caller's copy in the place of
      the stored document of the same id; a refused write throws and leaves
      the store as it was.  (mongoose sends the changes the caller made to
      its copy, which comes to the same as long as no other call saved the
      document between the caller's load and its save.) *)

From Stdlib Require Import ZArith Floats Uint63.
From stdpp Require Import gmap strings list.

#[local] Open Scope Z_scope.

(** ** Numbers *)

(** [participants.length] used in floating point arithmetic. *)
Definition numberOfNat (n : nat) : float :=
  PrimFloat.of_uint63 (Uint63.of_Z (Z.of_nat n)).

(** JavaScript truthiness of a number: [0], [-0] and [NaN] are falsy. *)
Definition truthy (x : float) : bool :=
  negb (PrimFloat.eqb x 0%float || PrimFloat.is_nan x).

(** [x || d] where [x] is a number that may be [null]. *)
Definition orElse (x : option float) (d : float) : float :=
  match x with
  | Some v => if truthy v then v else d
  | None => d
  end.

(** Constants of the impact calculation.  [0.2] is not a binary64 value;
    JavaScript reads it as the closest one, written out below. *)
Definition perShipment : float := 2.5%float.
Definition perAdditionalParticipant : float := 0.5%float.
Definition perOrderPackaging : float := 0x1.999999999999ap-3%float.
Definition defaultFootprint : float := 10%float.

(** ** The schemas *)

Abbreviation ObjectId := nat (only parsing).
Abbreviation Date := Z (only parsing).

Definition msPerDay : Z := 86400000.

(** The time zone of the server, as the two conversions of ECMAScript:
    [LocalTime(t)] takes a time value to the local time, [UTC(t)] takes a
    local time back to a time value.  Each differs from its argument by
    the offset of the zone, which changes where daylight saving starts or
    ends. *)
Record Zone := mkZone {
  LocalTime : Date -> Z;
  UTC : Z -> Date
}.

(** A server that keeps universal time. *)
Definition universal : Zone := mkZone (fun t => t) (fun t => t).

(** The time values of a [Date] lie within 100,000,000 days of the epoch
    ([TimeClip]); a number outside that range stands for the Invalid
    Date. *)
Definition maxTime : Z := 8640000000000000.

Definition isDate (t : Date) : bool := (- maxTime <=? t) && (t <=? maxTime).

(** [d.setDate(d.getDate() + days)]: the day of the month is counted in
    local time, so the result is the same local time of day, [days]
    calendar days on. *)
Definition setDate (zone : Zone) (d : Date) (days : Z) : Date :=
  UTC zone (LocalTime zone d + days * msPerDay).

(** [status] of [GroupBuySchema]: enum ['active', 'completed', 'expired',
    'cancelled'], default 'active'. *)
Inductive Status := active | completed | expired | cancelled.

#[global] Instance Status_eq_dec : EqDecision Status.
Proof. solve_decision. Defined.

Record Participant := mkParticipant {
  userId : ObjectId;
  joinedAt : Date
}.

Module GroupBuy.
Record t := mk {
  _id : ObjectId;
  productId : ObjectId;
  productName : string;
  initiatorId : ObjectId;
  threshold : Z;
  discountPercent : float;
  carbonSavingPercent : float;
  expiryDate : Date;
  participants : list Participant;
  status : Status;
  completedAt : option Date;
  createdAt : Date
}.

Definition with_status (s : Status) (g : t) : t :=
  mk (_id g) (productId g) (productName g) (initiatorId g) (threshold g)
     (discountPercent g) (carbonSavingPercent g) (expiryDate g)
     (participants g) s (completedAt g) (createdAt g).

Definition with_completedAt (d : option Date) (g : t) : t :=
  mk (_id g) (productId g) (productName g) (initiatorId g) (threshold g)
     (discountPercent g) (carbonSavingPercent g) (expiryDate g)
     (participants g) (status g) d (createdAt g).

(** [groupBuy.participants.push(p)] *)
Definition push (p : Participant) (g : t) : t :=
  mk (_id g) (productId g) (productName g) (initiatorId g) (threshold g)
     (discountPercent g) (carbonSavingPercent g) (expiryDate g)
     (participants g ++ [p]) (status g) (completedAt g) (createdAt g).

(** [groupBuy.participants.some(p => p.userId.toString() === userId.toString())] *)
Definition isParticipant (u : ObjectId) (g : t) : bool :=
  existsb (fun p => Nat.eqb (userId p) u) (participants g).

(** The schema's validators on save: [threshold: { required: true,
    min: 2 }] and [expiryDate: { type: Date, required: true }], which the
    Invalid Date does not pass. *)
Definition valid (g : t) : bool := (2 <=? threshold g) && isDate (expiryDate g).
End GroupBuy.

Module Product.
(** The [groupBuying] sub-document of [ProductSchema]. *)
Record settings := mkSettings {
  enabled : bool;
  threshold : Z;
  carbonSavingPercent : float;
  discountPercent : float;
  expiryDays : Z;
  currentParticipants : nat
}.

Record t := mk {
  _id : ObjectId;
  name : string;
  carbonFootprint : option float;   (* sustainability.carbonFootprint, default null *)
  groupBuying : settings
}.

(** [product.groupBuying.currentParticipants = n] *)
Definition with_currentParticipants (n : nat) (p : t) : t :=
  let s := groupBuying p in
  mk (_id p) (name p) (carbonFootprint p)
     (mkSettings (enabled s) (threshold s) (carbonSavingPercent s)
                 (discountPercent s) (expiryDays s) n).
End Product.

Module Participation.
(** An element of [groupBuyingParticipation] in [UserSchema]. *)
Record t := mk {
  groupId : ObjectId;
  productId : ObjectId;
  productName : string;
  joinedAt : Date;
  status : Status;
  potentialCarbonSaving : float
}.

Definition with_status (s : Status) (r : t) : t :=
  mk (groupId r) (productId r) (productName r) (joinedAt r) s
     (potentialCarbonSaving r).
End Participation.

Module User.
Record t := mk {
  _id : ObjectId;
  groupBuyingParticipation : list Participation.t
}.

(** [user.groupBuyingParticipation.push(r)] *)
Definition push (r : Participation.t) (u : t) : t :=
  mk (_id u) (groupBuyingParticipation u ++ [r]).
End User.

(** ** The world the service runs in *)

(** The arguments of one call of [sendGroupBuyingNotification].  The fourth
    argument is a template string; its two interpolated values are kept. *)
Record Notification := mkNotification {
  recipient : ObjectId;
  product : ObjectId;
  title : string;
  messageProductName : string;
  messageDiscountPercent : float
}.

Inductive Collection := GroupBuys | Products | Users.

#[global] Instance Collection_eq_dec : EqDecision Collection.
Proof. solve_decision. Defined.

(** What an observer of the service sees, in order: the writes that reached
    a collection and the notifications sent (each with the id of the group
    buy document in whose [forEach] it was sent). *)
Inductive Event :=
  | Wrote (c : Collection) (id : ObjectId)
  | WroteMany (c : Collection)
  | Notified (groupId : ObjectId) (n : Notification).

Record World := mkWorld {
  groupBuys : list GroupBuy.t;          (* in insertion order *)
  products : gmap nat Product.t;
  users : gmap nat User.t;
  nextId : ObjectId;                    (* the next fresh group buy id *)
  trace : list Event
}.

Definition emit (e : Event) (w : World) : World :=
  mkWorld (groupBuys w) (products w) (users w) (nextId w) (trace w ++ [e]).

(** The errors the service throws.  The first five are its own
    [new Error(...)]; the last two come out of a failing [save]. *)
Inductive Error :=
  | ProductNotFound            (* 'Product not found' *)
  | GroupBuyingNotEnabled      (* 'Group buying is not enabled for this product' *)
  | GroupBuyNotFound           (* 'Group buy not found' *)
  | CannotJoin (s : Status)    (* `Cannot join a ${groupBuy.status} group buy` *)
  | GroupBuyExpired            (* 'This group buy has expired' *)
  | ValidationFailed           (* mongoose validation on save *)
  | WriteFailed.               (* the store did not accept the write *)

(** ** Database operations *)

Inductive Db : Type -> Type :=
  | ProductFindById (pid : ObjectId) : Db (option Product.t)
  | ProductSave (p : Product.t) : Db unit
  | ProductResetParticipants (pid : ObjectId) : Db unit
  | GroupBuyFindOneActive (pid : ObjectId) (now : Date) : Db (option GroupBuy.t)
  | GroupBuyFindById (gid : ObjectId) : Db (option GroupBuy.t)
  | GroupBuyFindExpired (now : Date) : Db (list GroupBuy.t)
  | GroupBuyInsert (draft : ObjectId -> GroupBuy.t) : Db GroupBuy.t
  | GroupBuySave (g : GroupBuy.t) : Db unit
  | UserFindById (uid : ObjectId) : Db (option User.t)
  | UserSave (u : User.t) : Db unit
  | UserExpireParticipation (gid : ObjectId) : Db unit.

(** [{ productId, status: 'active', expiryDate: { $gt: now } }] *)
Definition isActiveFor (pid : ObjectId) (now : Date) (g : GroupBuy.t) : bool :=
  Nat.eqb (GroupBuy.productId g) pid
  && bool_decide (GroupBuy.status g = active)
  && (now <? GroupBuy.expiryDate g).

(** [{ status: 'active', expiryDate: { $lt: now } }] *)
Definition isOverdue (now : Date) (g : GroupBuy.t) : bool :=
  bool_decide (GroupBuy.status g = active) && (GroupBuy.expiryDate g <? now).

Definition findGroupBuy (gid : ObjectId) (gs : list GroupBuy.t) : option GroupBuy.t :=
  List.find (fun g => Nat.eqb (GroupBuy._id g) gid) gs.

(** Saving a loaded document replaces the stored document of the same id. *)
Definition replaceGroupBuy (g : GroupBuy.t) (gs : list GroupBuy.t) : list GroupBuy.t :=
  List.map (fun g0 => if Nat.eqb (GroupBuy._id g0) (GroupBuy._id g) then g else g0) gs.

(** [{ $set: { 'groupBuyingParticipation.$.status': 'expired' } }] on a user
    matching [{ 'groupBuyingParticipation.groupId': gid }]: the positional
    operator updates the first matching element of the array. *)
Fixpoint expireFirst (gid : ObjectId) (rs : list Participation.t) : list Participation.t :=
  match rs with
  | [] => []
  | r :: rs' =>
      if Nat.eqb (Participation.groupId r) gid
      then Participation.with_status expired r :: rs'
      else r :: expireFirst gid rs'
  end.

Definition expireParticipation (gid : ObjectId) (u : User.t) : User.t :=
  User.mk (User._id u) (expireFirst gid (User.groupBuyingParticipation u)).

Section Exec.
(** Which collections refuse writes while the call runs. *)
Variable faulty : Collection -> bool.

(** A write either is refused and leaves the world [w] as it was, or lands
    as [w'] and is observed. *)
Definition write {R} (c : Collection) (e : Event) (r : R) (w w' : World)
  : (Error + R) * World :=
  if faulty c then (inl WriteFailed, w) else (inr r, emit e w').

Definition exec {R} (op : Db R) (w : World) : (Error + R) * World :=
  match op in Db R return (Error + R) * World with
  | ProductFindById pid => (inr (products w !! pid), w)
  | ProductSave p =>
      write Products (Wrote Products (Product._id p)) tt w
        (mkWorld (groupBuys w) (<[Product._id p := p]> (products w))
                 (users w) (nextId w) (trace w))
  | ProductResetParticipants pid =>
      write Products (Wrote Products pid) tt w
        (mkWorld (groupBuys w)
                 (alter (Product.with_currentParticipants 0) pid (products w))
                 (users w) (nextId w) (trace w))
  | GroupBuyFindOneActive pid now =>
      (inr (List.find (isActiveFor pid now) (groupBuys w)), w)
  | GroupBuyFindById gid => (inr (findGroupBuy gid (groupBuys w)), w)
  | GroupBuyFindExpired now => (inr (List.filter (isOverdue now) (groupBuys w)), w)
  | GroupBuyInsert draft =>
      let g := draft (nextId w) in
      if GroupBuy.valid g
      then write GroupBuys (Wrote GroupBuys (nextId w)) g w
             (mkWorld (groupBuys w ++ [g]) (products w) (users w)
                      (S (nextId w)) (trace w))
      else (inl ValidationFailed, w)
  | GroupBuySave g =>
      write GroupBuys (Wrote GroupBuys (GroupBuy._id g)) tt w
        (mkWorld (replaceGroupBuy g (groupBuys w)) (products w) (users w)
                 (nextId w) (trace w))
  | UserFindById uid => (inr (users w !! uid), w)
  | UserSave u =>
      write Users (Wrote Users (User._id u)) tt w
        (mkWorld (groupBuys w) (products w) (<[User._id u := u]> (users w))
                 (nextId w) (trace w))
  | UserExpireParticipation gid =>
      write Users (WroteMany Users) tt w
        (mkWorld (groupBuys w) (products w)
                 (expireParticipation gid <$> users w) (nextId w) (trace w))
  end.
End Exec.

(** ** Programs *)

(** A service method: it returns, throws, sends a notification (a plain
    call, not awaited) or awaits a database operation. *)
Inductive Prog (A : Type) : Type :=
  | Return (a : A)
  | Throw (e : Error)
  | Notify (groupId : ObjectId) (n : Notification) (k : Prog A)
  | Await {R : Type} (op : Db R) (k : R -> Prog A).

Arguments Return {A} a.
Arguments Throw {A} e.
Arguments Notify {A} groupId n k.
Arguments Await {A R} op k.

Notation "'let!' x ':=' 'await' op 'in' k" :=
  (Await op (fun x => k))
  (at level 10, x binder, op at level 100, k at level 200,
   format "'[v' 'let!'  x  ':='  'await'  op  'in' '/' k ']'").

Fixpoint andThen {A B} (p : Prog A) (f : A -> Prog B) : Prog B :=
  match p with
  | Return a => f a
  | Throw e => Throw e
  | Notify gid n k => Notify gid n (andThen k f)
  | Await op k => Await op (fun r => andThen (k r) f)
  end.

Section Run.
Variable faulty : Collection -> bool.

(** One call, from its first statement to its return or throw. *)
Fixpoint run {A} (p : Prog A) (w : World) : (Error + A) * World :=
  match p with
  | Return a => (inr a, w)
  | Throw e => (inl e, w)
  | Notify gid n k => run k (emit (Notified gid n) w)
  | Await op k =>
      match exec faulty op w with
      | (inl e, w') => (inl e, w')
      | (inr r, w') => run (k r) w'
      end
  end.

(** One turn of a call on the event loop: the statements up to and
    including its next [await]. *)
Fixpoint turn {A} (p : Prog A) (w : World) : Prog A * World :=
  match p with
  | Return a => (Return a, w)
  | Throw e => (Throw e, w)
  | Notify gid n k => turn k (emit (Notified gid n) w)
  | Await op k =>
      match exec faulty op w with
      | (inl e, w') => (Throw e, w')
      | (inr r, w') => (k r, w')
      end
  end.

(** Calls in flight, and a schedule naming the call that takes each turn. *)
Fixpoint schedule {A} (s : list nat) (calls : list (Prog A)) (w : World)
  : list (Prog A) * World :=
  match s with
  | [] => (calls, w)
  | i :: s' =>
      match calls !! i with
      | Some p =>
          let '(p', w') := turn p w in
          schedule s' (<[i := p']> calls) w'
      | None => schedule s' calls w
      end
  end.
End Run.

(** No write fails. *)
Definition reliable : Collection -> bool := fun _ => false.

(** How a call ended, if it has. *)
Definition settled {A} (p : Prog A) : option (Error + A) :=
  match p with
  | Return a => Some (inr a)
  | Throw e => Some (inl e)
  | _ => None
  end.

(** A call that ended that way. *)
Definition ended {A} (r : Error + A) : Prog A :=
  match r with
  | inl e => Throw e
  | inr a => Return a
  end.

(** Calls served one after another, each from start to end. *)
Fixpoint runAll {A} (ps : list (Prog A)) (w : World)
  : list (Error + A) * World :=
  match ps with
  | [] => ([], w)
  | p :: ps' =>
      let '(r, w1) := run reliable p w in
      let '(rs, w2) := runAll ps' w1 in
      (r :: rs, w2)
  end.

(** The turns a call takes to its end when it runs alone from [w]. *)
Fixpoint turnsOf {A} (p : Prog A) (w : World) : nat :=
  match p with
  | Return _ | Throw _ => 0
  | Notify gid n k => Nat.max 1 (turnsOf k (emit (Notified gid n) w))
  | Await op k =>
      match exec reliable op w with
      | (inl _, _) => 1
      | (inr r, w') => S (turnsOf (k r) w')
      end
  end.

(** [n] turns of one call in a row. *)
Fixpoint turns {A} (n : nat) (p : Prog A) (w : World) : Prog A * World :=
  match n with
  | O => (p, w)
  | S n' => let '(p', w') := turn reliable p w in turns n' p' w'
  end.

(** The schedule that serves the calls one after another: call [i] takes
    all its turns, then call [i + 1], and so on. *)
Fixpoint serial {A} (i : nat) (ps : list (Prog A)) (w : World) : list nat :=
  match ps with
  | [] => []
  | p :: ps' =>
      replicate (turnsOf p w) i ++ serial (S i) ps' (snd (run reliable p w))
  end.

(** ** The service *)

Definition alreadyParticipating : string :=
  "You are already participating in this group buy".
Definition successfullyJoined : string := "Successfully joined group buy".

(** What [createGroupBuy] resolves to: the saved document, or whatever
    [joinGroupBuy] resolves to. *)
Inductive Reply :=
  | Saved (g : GroupBuy.t)
  | Membership (g : GroupBuy.t) (message : string).

(** [(productCarbonFootprint * product.groupBuying.carbonSavingPercent) / 100]
    with [productCarbonFootprint = product.sustainability.carbonFootprint || 10]. *)
Definition potentialSaving (p : Product.t) : float :=
  (orElse (Product.carbonFootprint p) defaultFootprint
   * Product.carbonSavingPercent (Product.groupBuying p) / 100)%float.

Definition successNotification (g : GroupBuy.t) (p : Participant) : Notification :=
  mkNotification (userId p) (GroupBuy.productId g) "Group Buy Successful!"
                 (GroupBuy.productName g) (GroupBuy.discountPercent g).

(** [groupBuy.participants.forEach(participant => sendGroupBuyingNotification(...))] *)
Definition notifyParticipants {A} (g : GroupBuy.t) (k : Prog A) : Prog A :=
  fold_right (fun p k' => Notify (GroupBuy._id g) (successNotification g p) k')
             k (GroupBuy.participants g).

(** The entry [joinGroupBuy] pushes on [user.groupBuyingParticipation]. *)
Definition participationIn (g : GroupBuy.t) (now : Date) (p : Product.t)
  : Participation.t :=
  Participation.mk (GroupBuy._id g) (GroupBuy.productId g)
    (GroupBuy.productName g) now (GroupBuy.status g) (potentialSaving p).

(** The threshold check of [joinGroupBuy] and its two assignments. *)
Definition thresholdReached (g : GroupBuy.t) : bool :=
  (GroupBuy.threshold g <=? Z.of_nat (length (GroupBuy.participants g)))
  && bool_decide (GroupBuy.status g = active).

Definition complete (now : Date) (g : GroupBuy.t) : GroupBuy.t :=
  GroupBuy.with_completedAt (Some now) (GroupBuy.with_status completed g).

Definition joinGroupBuy (now : Date) (groupId userId : ObjectId)
  : Prog (GroupBuy.t * string) :=
  let! found := await GroupBuyFindById groupId in
  match found with
  | None => Throw GroupBuyNotFound
  | Some groupBuy =>
  if negb (bool_decide (GroupBuy.status groupBuy = active))
  then Throw (CannotJoin (GroupBuy.status groupBuy))
  else if GroupBuy.expiryDate groupBuy <? now then
    let! _ := await GroupBuySave (GroupBuy.with_status expired groupBuy) in
    Throw GroupBuyExpired
  else if GroupBuy.isParticipant userId groupBuy
  then Return (groupBuy, alreadyParticipating)
  else
    let groupBuy := GroupBuy.push (mkParticipant userId now) groupBuy in
    let afterCounter (product : option Product.t) :=
      let groupBuy' :=
        if thresholdReached groupBuy then complete now groupBuy else groupBuy in
      let save :=
        let! _ := await GroupBuySave groupBuy' in
        let! user := await UserFindById userId in
        match user, product with
        | Some user, Some product =>
            let! _ := await UserSave
              (User.push (participationIn groupBuy' now product) user) in
            Return (groupBuy', successfullyJoined)
        | _, _ => Return (groupBuy', successfullyJoined)
        end in
      if thresholdReached groupBuy then notifyParticipants groupBuy' save else save in
    let! product := await ProductFindById (GroupBuy.productId groupBuy) in
    match product with
    | Some product =>
        let product :=
          Product.with_currentParticipants
            (length (GroupBuy.participants groupBuy)) product in
        let! _ := await ProductSave product in
        afterCounter (Some product)
    | None => afterCounter None
    end
  end.

(** [new GroupBuy({...})] in [createGroupBuy]; the expiry date is the
    current date moved on by [product.groupBuying.expiryDays] calendar
    days of the server's zone, and [status], [completedAt] and [createdAt]
    take the schema's defaults.  The document gets its id when it is
    saved. *)
Definition newGroupBuy (zone : Zone) (now : Date) (productId userId : ObjectId)
    (product : Product.t) (id : ObjectId) : GroupBuy.t :=
  let settings := Product.groupBuying product in
  let expiryDate := setDate zone now (Product.expiryDays settings) in
  GroupBuy.mk id productId (Product.name product) userId
    (Product.threshold settings) (Product.discountPercent settings)
    (Product.carbonSavingPercent settings) expiryDate
    [mkParticipant userId now] active None now.

(** The entry [createGroupBuy] pushes on [user.groupBuyingParticipation]. *)
Definition firstParticipation (saved : GroupBuy.t) (now : Date) (p : Product.t)
  : Participation.t :=
  Participation.mk (GroupBuy._id saved) (GroupBuy.productId saved)
    (Product.name p) now active (potentialSaving p).

Definition createGroupBuy (zone : Zone) (now : Date) (productId userId : ObjectId)
  : Prog Reply :=
  let! found := await ProductFindById productId in
  match found with
  | None => Throw ProductNotFound
  | Some product =>
  if negb (Product.enabled (Product.groupBuying product))
  then Throw GroupBuyingNotEnabled
  else
    let! existingGroup := await GroupBuyFindOneActive productId now in
    match existingGroup with
    | Some existingGroup =>
        andThen (joinGroupBuy now (GroupBuy._id existingGroup) userId)
                (fun r => Return (Membership (fst r) (snd r)))
    | None =>
        let newGroupBuy := newGroupBuy zone now productId userId product in
        let product := Product.with_currentParticipants 1 product in
        let! _ := await ProductSave product in
        let! savedGroupBuy := await GroupBuyInsert newGroupBuy in
        let! user := await UserFindById userId in
        match user with
        | Some user =>
            let! _ := await UserSave
              (User.push (firstParticipation savedGroupBuy now product) user) in
            Return (Saved savedGroupBuy)
        | None => Return (Saved savedGroupBuy)
        end
    end
  end.

(** The body of [for (const groupBuy of expiredGroupBuys)]. *)
Fixpoint expireEach {A} (gs : list GroupBuy.t) (k : Prog A) : Prog A :=
  match gs with
  | [] => k
  | groupBuy :: gs' =>
      let! _ := await GroupBuySave (GroupBuy.with_status expired groupBuy) in
      let! _ := await UserExpireParticipation (GroupBuy._id groupBuy) in
      let! _ := await ProductResetParticipants (GroupBuy.productId groupBuy) in
      expireEach gs' k
  end.

Definition checkAndUpdateExpiredGroupBuys (now : Date) : Prog nat :=
  let! expiredGroupBuys := await GroupBuyFindExpired now in
  expireEach expiredGroupBuys (Return (length expiredGroupBuys)).

Record Impact := mkImpact {
  groupBuyId : ObjectId;
  participantsCount : nat;
  shippingEmissionsSaved : float;
  packagingSaved : float;
  productCarbonSavings : float;
  totalCarbonSaved : float;
  totalMaterialsSaved : float
}.

(** The arithmetic of [calculateGroupBuyImpact]. *)
Definition impact (gid : ObjectId) (productCarbonFootprint : float)
    (participantsCount : nat) (carbonSavingPercent : float) : Impact :=
  let n := numberOfNat participantsCount in
  let individualShippingEmissions := (n * perShipment)%float in
  let consolidatedShippingEmissions :=
    (perShipment + (n - 1) * perAdditionalParticipant)%float in
  let shippingEmissionsSaved :=
    (individualShippingEmissions - consolidatedShippingEmissions)%float in
  let packagingSaved := (n * perOrderPackaging)%float in
  let productCarbonSavings :=
    (productCarbonFootprint * n * carbonSavingPercent / 100)%float in
  let totalCarbonSaved := (shippingEmissionsSaved + productCarbonSavings)%float in
  let totalMaterialsSaved := packagingSaved in
  mkImpact gid participantsCount shippingEmissionsSaved packagingSaved
           productCarbonSavings totalCarbonSaved totalMaterialsSaved.

Definition calculateGroupBuyImpact (groupBuyId : ObjectId) : Prog Impact :=
  let! found := await GroupBuyFindById groupBuyId in
  match found with
  | None => Throw GroupBuyNotFound
  | Some groupBuy =>
      let! found := await ProductFindById (GroupBuy.productId groupBuy) in
      match found with
      | None => Throw ProductNotFound
      | Some product =>
          Return (impact (GroupBuy._id groupBuy)
                    (orElse (Product.carbonFootprint product) defaultFootprint)
                    (length (GroupBuy.participants groupBuy))
                    (GroupBuy.carbonSavingPercent groupBuy))
      end
  end.

(** ** Observations *)

(** The events of [w'] that were not yet in [w]. *)
Definition since (w w' : World) : list Event :=
  drop (length (trace w)) (trace w').

(** The notifications sent for one group buy. *)
Definition notifiedFor (gid : ObjectId) (evs : list Event) : list Notification :=
  flat_map (fun e =>
    match e with
    | Notified g n => if Nat.eqb g gid then [n] else []
    | _ => []
    end) evs.

(** The collection an event wrote to. *)
Definition written (e : Event) : option Collection :=
  match e with
  | Wrote c _ | WroteMany c => Some c
  | Notified _ _ => None
  end.

(** Every write to collection [c] in [evs] comes after a write to the group
    buys ([seen] says whether one came before [evs]). *)
Fixpoint follows (c : Collection) (seen : bool) (evs : list Event) : bool :=
  match evs with
  | [] => true
  | e :: evs' =>
      match written e with
      | Some GroupBuys => follows c true evs'
      | Some c' => (if decide (c' = c) then seen else true) && follows c seen evs'
      | None => follows c seen evs'
      end
  end.

(** Some write to collection [c] is among [evs]. *)
Fixpoint wrote (c : Collection) (evs : list Event) : bool :=
  match evs with
  | [] => false
  | e :: evs' => bool_decide (written e = Some c) || wrote c evs'
  end.

(** A document is stored under its own [_id]. *)
Definition keyed (w : World) : Prop :=
  (forall k p, products w !! k = Some p -> Product._id p = k) /\
  (forall k u, users w !! k = Some u -> User._id u = k).

(** Group buy ids are unique and below the next fresh id. *)
Definition uniqueIds (w : World) : Prop :=
  NoDup (List.map GroupBuy._id (groupBuys w)) /\
  Forall (fun g => (GroupBuy._id g < nextId w)%nat) (groupBuys w).

(** No user is twice in [participants], and a group buy that is still
    active has not reached its threshold. *)
Definition sound (g : GroupBuy.t) : Prop :=
  NoDup (List.map userId (GroupBuy.participants g)) /\
  (GroupBuy.status g = active ->
   Z.of_nat (length (GroupBuy.participants g)) < GroupBuy.threshold g).

(** What holds of every world the service can reach from one without
    group buys. *)
Definition wellFormed (w : World) : Prop :=
  uniqueIds w /\ Forall sound (groupBuys w).

Definition notifications (g : GroupBuy.t) : list Event :=
  List.map (fun p => Notified (GroupBuy._id g) (successNotification g p))
           (GroupBuy.participants g).

Definition record (evs : list Event) (w : World) : World :=
  mkWorld (groupBuys w) (products w) (users w) (nextId w) (trace w ++ evs).

(** The count the spec wants in [groupBuying.currentParticipants]: the
    participants of the product's active group buy, or zero. *)
Definition activeParticipants (pid : ObjectId) (w : World) : nat :=
  match List.find (fun g => Nat.eqb (GroupBuy.productId g) pid
                            && bool_decide (GroupBuy.status g = active))
                  (groupBuys w) with
  | Some g => length (GroupBuy.participants g)
  | None => 0%nat
  end.

(** What the three views say: the status of a group buy, the counter on a
    product, and the statuses in a user's participation records for a group
    buy. *)
Definition statusOf (gid : ObjectId) (w : World) : option Status :=
  GroupBuy.status <$> findGroupBuy gid (groupBuys w).

Definition counterOf (pid : ObjectId) (w : World) : option nat :=
  (fun p => Product.currentParticipants (Product.groupBuying p))
    <$> products w !! pid.

Definition recordsOf (u gid : ObjectId) (w : World) : list Participation.t :=
  match users w !! u with
  | Some usr =>
      List.filter (fun r => Nat.eqb (Participation.groupId r) gid)
                  (User.groupBuyingParticipation usr)
  | None => []
  end.

(** ** The worlds a call leaves behind when no write fails *)

(** The document after the push and the threshold check of [joinGroupBuy]. *)
Definition joined (now : Date) (u : ObjectId) (g : GroupBuy.t) : GroupBuy.t :=
  let gj := GroupBuy.push (mkParticipant u now) g in
  if thresholdReached gj then complete now gj else gj.

(** After [joinGroupBuy] by a new participant of [g]. *)
Definition afterJoin (now : Date) (u : ObjectId) (g : GroupBuy.t) (w : World)
  : World :=
  let gj := GroupBuy.push (mkParticipant u now) g in
  let g' := joined now u g in
  let p' :=
    Product.with_currentParticipants (length (GroupBuy.participants gj))
      <$> products w !! GroupBuy.productId g in
  mkWorld
    (replaceGroupBuy g' (groupBuys w))
    (match p' with
     | Some p => <[Product._id p := p]> (products w)
     | None => products w
     end)
    (match users w !! u, p' with
     | Some usr, Some p =>
         <[User._id usr := User.push (participationIn g' now p) usr]> (users w)
     | _, _ => users w
     end)
    (nextId w)
    (trace w
     ++ match p' with Some p => [Wrote Products (Product._id p)] | None => [] end
     ++ (if thresholdReached gj then notifications g' else [])
     ++ [Wrote GroupBuys (GroupBuy._id g')]
     ++ match users w !! u, p' with
        | Some usr, Some _ => [Wrote Users (User._id usr)]
        | _, _ => []
        end).

(** After [joinGroupBuy] found [g] past its expiry date. *)
Definition afterLazyExpiry (g : GroupBuy.t) (w : World) : World :=
  mkWorld (replaceGroupBuy (GroupBuy.with_status expired g) (groupBuys w))
          (products w) (users w) (nextId w)
          (trace w ++ [Wrote GroupBuys (GroupBuy._id g)]).

(** After [createGroupBuy] saved the product's counter; the group buy it
    goes on to save may or may not pass validation. *)
Definition afterCounterSet (p : Product.t) (w : World) : World :=
  let p' := Product.with_currentParticipants 1 p in
  mkWorld (groupBuys w) (<[Product._id p' := p']> (products w)) (users w)
          (nextId w) (trace w ++ [Wrote Products (Product._id p')]).

(** After [createGroupBuy] opened a new group buy on product [p]. *)
Definition afterCreate (zone : Zone) (now : Date) (pid u : ObjectId)
    (p : Product.t) (w : World) : World :=
  let p' := Product.with_currentParticipants 1 p in
  let g := newGroupBuy zone now pid u p (nextId w) in
  mkWorld
    (groupBuys w ++ [g])
    (<[Product._id p' := p']> (products w))
    (match users w !! u with
     | Some usr => <[User._id usr := User.push (firstParticipation g now p') usr]> (users w)
     | None => users w
     end)
    (S (nextId w))
    (trace w
     ++ [Wrote Products (Product._id p'); Wrote GroupBuys (nextId w)]
     ++ match users w !! u with
        | Some usr => [Wrote Users (User._id usr)]
        | None => []
        end).

(** After one round of the loop of [checkAndUpdateExpiredGroupBuys]. *)
Definition afterExpiry (w : World) (g : GroupBuy.t) : World :=
  mkWorld
    (replaceGroupBuy (GroupBuy.with_status expired g) (groupBuys w))
    (alter (Product.with_currentParticipants 0) (GroupBuy.productId g) (products w))
    (expireParticipation (GroupBuy._id g) <$> users w)
    (nextId w)
    (trace w ++ [Wrote GroupBuys (GroupBuy._id g); WroteMany Users;
                 Wrote Products (GroupBuy.productId g)]).

Definition afterSweep (now : Date) (w : World) : World :=
  fold_left afterExpiry (List.filter (isOverdue now) (groupBuys w)) w.

(** ** Calls, one after another *)

Inductive Call :=
  | CreateGroupBuy (zone : Zone) (now : Date) (productId userId : ObjectId)
  | JoinGroupBuy (now : Date) (groupId userId : ObjectId)
  | CheckAndUpdateExpiredGroupBuys (now : Date).

(** The world after a call that ran from start to end with no write failing. *)
Definition perform (c : Call) (w : World) : World :=
  match c with
  | CreateGroupBuy zone now pid u =>
      snd (run reliable (createGroupBuy zone now pid u) w)
  | JoinGroupBuy now gid u => snd (run reliable (joinGroupBuy now gid u) w)
  | CheckAndUpdateExpiredGroupBuys now =>
      snd (run reliable (checkAndUpdateExpiredGroupBuys now) w)
  end.

Definition performAll (cs : list Call) (w : World) : World :=
  fold_left (fun w c => perform c w) cs w.

(** A call whose result is dropped; calls of all three kinds can then be
    in flight together. *)
Definition program (c : Call) : Prog unit :=
  match c with
  | CreateGroupBuy zone now pid u =>
      andThen (createGroupBuy zone now pid u) (fun _ => Return tt)
  | JoinGroupBuy now gid u =>
      andThen (joinGroupBuy now gid u) (fun _ => Return tt)
  | CheckAndUpdateExpiredGroupBuys now =>
      andThen (checkAndUpdateExpiredGroupBuys now) (fun _ => Return tt)
  end.

(** Operations that do not write to the group buys. *)
Definition foreign {R} (op : Db R) : bool :=
  match op with
  | GroupBuyInsert _ | GroupBuySave _ => false
  | _ => true
  end.

(** The stored group buy [gid] is the document [g]. *)
Definition holds (gid : ObjectId) (g : GroupBuy.t) (w : World) : Prop :=
  uniqueIds w /\ findGroupBuy gid (groupBuys w) = Some g.

(** A call, at any point of its run, that spares group buy [gid]: as long
    as the stored document is [g] when the call takes its turns, whatever
    the store refuses, it leaves that document as it is and sends no
    notification for it. *)
Inductive Spares (gid : ObjectId) (g : GroupBuy.t) {A : Type} : Prog A -> Prop :=
  | SparesReturn a : Spares gid g (Return a)
  | SparesThrow e : Spares gid g (Throw e)
  | SparesNotify gid' n k :
      gid' <> gid -> Spares gid g k -> Spares gid g (Notify gid' n k)
  | SparesAwait R (op : Db R) k :
      (forall faulty w, holds gid g w -> holds gid g (snd (exec faulty op w))) ->
      (forall faulty w r,
         holds gid g w -> fst (exec faulty op w) = inr r -> Spares gid g (k r)) ->
      Spares gid g (Await op k).

(** What one call can do to the world. *)
Inductive Step (w : World) : World -> Prop :=
  | StepNothing : Step w w
  | StepJoin now gid u g :
      findGroupBuy gid (groupBuys w) = Some g ->
      GroupBuy.status g = active ->
      (GroupBuy.expiryDate g <? now) = false ->
      GroupBuy.isParticipant u g = false ->
      Step w (afterJoin now u g w)
  | StepLazyExpiry now gid g :
      findGroupBuy gid (groupBuys w) = Some g ->
      GroupBuy.status g = active ->
      (GroupBuy.expiryDate g <? now) = true ->
      Step w (afterLazyExpiry g w)
  | StepCounterSet zone now pid u p :
      products w !! pid = Some p ->
      Product.enabled (Product.groupBuying p) = true ->
      List.find (isActiveFor pid now) (groupBuys w) = None ->
      GroupBuy.valid (newGroupBuy zone now pid u p (nextId w)) = false ->
      Step w (afterCounterSet p w)
  | StepCreate zone now pid u p :
      products w !! pid = Some p ->
      Product.enabled (Product.groupBuying p) = true ->
      List.find (isActiveFor pid now) (groupBuys w) = None ->
      GroupBuy.valid (newGroupBuy zone now pid u p (nextId w)) = true ->
      Step w (afterCreate zone now pid u p w)
  | StepSweep now : Step w (afterSweep now w).

(** ** Examples *)

(** The product of the spec's scenario: threshold 3, expiry after 7 days,
    carbon saving 15 percent, footprint 10; and a product with the schema's
    default threshold of 10. *)
Definition bottle : Product.t :=
  Product.mk 7 "Bottle" (Some 10%float) (Product.mkSettings true 3 15 10 7 0).

Definition crate : Product.t :=
  Product.mk 8 "Crate" (Some 10%float) (Product.mkSettings true 10 15 10 7 0).

Definition newcomer (id : ObjectId) : User.t := User.mk id [].

(** A shop with two products, five users and no group buy yet. *)
Definition shop : World :=
  mkWorld []
    (<[7%nat := bottle]> (<[8%nat := crate]> ∅))
    (list_to_map (List.map (fun i => (i, newcomer i)) [1; 2; 3; 4; 5]%nat))
    100 [].

(** Users 1, 2 and 3 ask for the bottle, one after another, of a server
    that keeps universal time. *)
Definition afterA : World := perform (CreateGroupBuy universal 1000 7 1) shop.
Definition afterB : World := perform (CreateGroupBuy universal 2000 7 2) afterA.
Definition afterC : World := perform (CreateGroupBuy universal 3000 7 3) afterB.

(** All five users ask for the crate. *)
Definition fiveInTheCrate : World :=
  performAll (List.map (fun i => CreateGroupBuy universal (1000 * Z.of_nat i) 8 i)
                       [1; 2; 3; 4; 5]%nat) shop.

(** Eight days after user 1 opened the group buy, past its expiry date. *)
Definition eightDaysOn : Date := 1000 + 8 * msPerDay.

(** ** The claims that fail, as predicates *)

(** The participation record pushed by a successful [joinGroupBuy] carries
    the status the group buy has after the call and a carbon saving taken
    from the impact calculation at the participant count after the call
    (one of its figures). *)
Definition savingUsesCountAfterJoin (w : World) (now : Date) (gid u : ObjectId)
  : Prop :=
  forall g' w' usr r p,
    run reliable (joinGroupBuy now gid u) w = (inr (g', successfullyJoined), w') ->
    users w' !! u = Some usr ->
    last (User.groupBuyingParticipation usr) = Some r ->
    products w' !! GroupBuy.productId g' = Some p ->
    let estimate :=
      impact gid (orElse (Product.carbonFootprint p) defaultFootprint)
             (length (GroupBuy.participants g'))
             (GroupBuy.carbonSavingPercent g') in
    Participation.status r = GroupBuy.status g'
    /\ (Participation.potentialCarbonSaving r = totalCarbonSaved estimate
        \/ Participation.potentialCarbonSaving r = productCarbonSavings estimate
        \/ Participation.potentialCarbonSaving r = shippingEmissionsSaved estimate
        \/ Participation.potentialCarbonSaving r = packagingSaved estimate).

(** A call by a user who is already in [participants] of a group buy that is
    not expired resolves with the document it found and leaves the world as
    it was. *)
Definition joinIsIdempotentAt (w : World) (now : Date) (gid u : ObjectId) : Prop :=
  forall g,
    findGroupBuy gid (groupBuys w) = Some g ->
    GroupBuy.status g <> expired ->
    GroupBuy.isParticipant u g = true ->
    exists message, run reliable (joinGroupBuy now gid u) w = (inr (g, message), w).

(** The store refuses writes to the group buys and accepts all others. *)
Definition groupBuysDown (c : Collection) : bool :=
  bool_decide (c = GroupBuys).

(** One call of [joinGroupBuy] as its caller meets it: the writes the
    store refuses while the call runs, the time of the call and the user.
    A caller whose call threw makes the call again. *)
Definition Attempt : Type := (Collection -> bool) * Date * ObjectId.

Definition attempt (gid : ObjectId) (w : World) (a : Attempt) : World :=
  let '(faulty, now, u) := a in snd (run faulty (joinGroupBuy now gid u) w).

(** Over calls of [joinGroupBuy] on group buy [gid], made one after
    another, no user is sent a second notification for the group buy. *)
Definition notifiesOnce (w : World) (gid : ObjectId) (attempts : list Attempt)
  : Prop :=
  NoDup (List.map recipient
           (notifiedFor gid (since w (fold_left (attempt gid) attempts w)))).

(** In one call, the product's counter and the user's participation list
    are written only after the group buy was written, and when no write of
    a group buy went through (as when the store refuses it) both are as
    they were. *)
Definition viewsFollowGroupBuy {A} (faulty : Collection -> bool) (p : Prog A)
    (w : World) : Prop :=
  let w' := snd (run faulty p w) in
  follows Products false (since w w') = true
  /\ follows Users false (since w w') = true
  /\ (wrote GroupBuys (since w w') = false ->
      products w' = products w /\ users w' = users w).

(** The same of the participation list alone; and no write of a group buy
    goes through while the store refuses them. *)
Definition logFollowsGroupBuy {A} (faulty : Collection -> bool) (p : Prog A)
    (w : World) : Prop :=
  let w' := snd (run faulty p w) in
  follows Users false (since w w') = true
  /\ (wrote GroupBuys (since w w') = false -> users w' = users w)
  /\ (faulty GroupBuys = true -> wrote GroupBuys (since w w') = false).

(** ** Racing joins *)

Definition JoinReply : Type := Error + GroupBuy.t * string.

(** The calls of [joinGroupBuy] on one group buy, one per entry (the time
    of the call and the user). *)
Definition racers (gid : ObjectId) (joins : list (Date * ObjectId))
  : list (Prog (GroupBuy.t * string)) :=
  List.map (fun j => joinGroupBuy (fst j) gid (snd j)) joins.

(** The call joined as a new participant. *)
Definition succeeds (r : JoinReply) : bool :=
  match r with
  | inr (_, m) => String.eqb m successfullyJoined
  | inl _ => false
  end.

(** The call joined and resolved with the group buy it had set to completed. *)
Definition completes (r : JoinReply) : bool :=
  match r with
  | inr (g, m) =>
      String.eqb m successfullyJoined && bool_decide (GroupBuy.status g = completed)
  | inl _ => false
  end.

Definition count {A} (f : A -> bool) (l : list A) : nat :=
  length (List.filter f l).

(** Under schedule [s], once all the calls have ended: exactly one of them
    performed the transition to completed, and the participants of the
    stored group buy are those it had plus one for every call that joined. *)
Definition raceIsLinearizable (w : World) (gid : ObjectId)
    (joins : list (Date * ObjectId)) (s : list nat) : Prop :=
  forall replies,
    mapM settled (fst (schedule reliable s (racers gid joins) w)) = Some replies ->
    count completes replies = 1%nat
    /\ exists g g',
         findGroupBuy gid (groupBuys w) = Some g
         /\ findGroupBuy gid
              (groupBuys (snd (schedule reliable s (racers gid joins) w)))
            = Some g'
         /\ length (GroupBuy.participants g')
            = (length (GroupBuy.participants g) + count succeeds replies)%nat.

(** Users 3 and 4 call [joinGroupBuy] at the same time; both calls read the
    group buy before either writes. *)
Definition bothReadFirst : list nat := [0; 1; 0; 0; 0; 0; 0; 1; 1; 1; 1; 1]%nat.

(** * More of the service *)

(** ** The two queries of the service *)

(** [.sort({ createdAt: -1 })]: newest first.  The database does not fix the
    order of documents with the same [createdAt]; here they keep the order
    in which they are stored. *)
Fixpoint insertNewestFirst (g : GroupBuy.t) (gs : list GroupBuy.t)
  : list GroupBuy.t :=
  match gs with
  | [] => [g]
  | g0 :: gs' =>
      if GroupBuy.createdAt g0 <=? GroupBuy.createdAt g
      then g :: g0 :: gs'
      else g0 :: insertNewestFirst g gs'
  end.

Definition sortNewestFirst (gs : list GroupBuy.t) : list GroupBuy.t :=
  fold_right insertNewestFirst [] gs.

(** What [getActiveGroupBuysForProduct(productId)] resolves to when it is
    called at time [now] in world [w]: its one [await] is the query
    [{ productId, status: 'active', expiryDate: { $gt: now } }]. *)
Definition getActiveGroupBuysForProduct (now : Date) (productId : ObjectId)
    (w : World) : list GroupBuy.t :=
  sortNewestFirst (List.filter (isActiveFor productId now) (groupBuys w)).

(** What [getUserGroupBuys(userId)] resolves to in world [w]: the query
    [{ 'participants.userId': userId }] matches the documents that have the
    user in some element of [participants]. *)
Definition getUserGroupBuys (userId : ObjectId) (w : World) : list GroupBuy.t :=
  sortNewestFirst (List.filter (GroupBuy.isParticipant userId) (groupBuys w)).

(** A list of group buys is in the order [{ createdAt: -1 }]. *)
Fixpoint newestFirst (gs : list GroupBuy.t) : bool :=
  match gs with
  | [] => true
  | g :: gs' =>
      forallb (fun g' => GroupBuy.createdAt g' <=? GroupBuy.createdAt g) gs'
      && newestFirst gs'
  end.

(** ** What the calls keep of a group buy document *)

(** The lifecycle of one document: it has a first participant, who is its
    initiator; its threshold passed the schema's validator and is never
    exceeded; it is completed exactly when it carries a completion date, and
    then has exactly as many participants as the threshold says; and no
    call sets it to cancelled. *)
Definition coherent (g : GroupBuy.t) : Prop :=
  (userId <$> head (GroupBuy.participants g)) = Some (GroupBuy.initiatorId g)
  /\ 2 <= GroupBuy.threshold g
  /\ Z.of_nat (length (GroupBuy.participants g)) <= GroupBuy.threshold g
  /\ (GroupBuy.status g = completed ->
      Z.of_nat (length (GroupBuy.participants g)) = GroupBuy.threshold g)
  /\ (GroupBuy.status g = completed <-> GroupBuy.completedAt g <> None)
  /\ GroupBuy.status g <> cancelled.

(** [g'] is a later state of the document [g]: the terms it was opened with
    are the same, and its participants are those of [g] followed by the
    ones who joined since. *)
Definition continues (g g' : GroupBuy.t) : Prop :=
  GroupBuy._id g' = GroupBuy._id g
  /\ GroupBuy.productId g' = GroupBuy.productId g
  /\ GroupBuy.productName g' = GroupBuy.productName g
  /\ GroupBuy.initiatorId g' = GroupBuy.initiatorId g
  /\ GroupBuy.threshold g' = GroupBuy.threshold g
  /\ GroupBuy.discountPercent g' = GroupBuy.discountPercent g
  /\ GroupBuy.carbonSavingPercent g' = GroupBuy.carbonSavingPercent g
  /\ GroupBuy.expiryDate g' = GroupBuy.expiryDate g
  /\ GroupBuy.createdAt g' = GroupBuy.createdAt g
  /\ (exists more,
        GroupBuy.participants g' = GroupBuy.participants g ++ more)
  /\ (GroupBuy.status g <> active -> g' = g).

(** A world with no group buy yet. *)
Definition opening (products : gmap nat Product.t) (users : gmap nat User.t)
    (nextId : ObjectId) : World :=
  mkWorld [] products users nextId [].

(** What the expiry check does to one stored document. *)
Definition swept (now : Date) (g : GroupBuy.t) : GroupBuy.t :=
  if isOverdue now g then GroupBuy.with_status expired g else g.

(** A user's records for a group buy after the positional update of the
    expiry check reached them: the first one is set to expired. *)
Definition firstExpired (rs : list Participation.t) : list Participation.t :=
  match rs with
  | [] => []
  | r :: rs' => Participation.with_status expired r :: rs'
  end.

(** What one round of the loop of the expiry check is seen to write. *)
Definition expiryWrites (g : GroupBuy.t) : list Event :=
  [Wrote GroupBuys (GroupBuy._id g); WroteMany Users;
   Wrote Products (GroupBuy.productId g)].

(** What a participation record says of its group buy. *)
Definition refersTo (r : Participation.t) : ObjectId * ObjectId * string :=
  (Participation.groupId r, Participation.productId r,
   Participation.productName r).

(** The record [r] of user [u] belongs to a stored group buy: one that has
    [u] among its participants and the product and product name that the
    record gives. *)
Definition belongs (w : World) (u : ObjectId) (r : Participation.t) : Prop :=
  exists g,
    findGroupBuy (Participation.groupId r) (groupBuys w) = Some g
    /\ GroupBuy.isParticipant u g = true
    /\ Participation.productId r = GroupBuy.productId g
    /\ Participation.productName r = GroupBuy.productName g.

(** Every participation record belongs to a stored group buy, and no user
    has two records for the same group buy. *)
Definition recorded (w : World) : Prop :=
  forall u usr,
    users w !! u = Some usr ->
    Forall (belongs w u) (User.groupBuyingParticipation usr)
    /\ NoDup (List.map Participation.groupId (User.groupBuyingParticipation usr)).

(** ** More examples *)

(** A product as the schema makes it when nothing is said about group
    buying (not enabled; threshold 10), and one whose threshold is below the
    minimum that the group buy schema accepts. *)
Definition soap : Product.t :=
  Product.mk 9 "Soap" None (Product.mkSettings false 10 15 10 7 0).

Definition sample : Product.t :=
  Product.mk 10 "Sample" None (Product.mkSettings true 1 15 10 7 0).

(** A server one hour ahead of universal time that puts its clocks forward
    by another hour at the time [change]; the local times the clocks skip
    are read with the offset from before the change. *)
Definition summerTimeFrom (change : Date) : Zone :=
  mkZone (fun t => t + (if t <? change then 3600000 else 7200000))
         (fun t => t - (if t <? change + 7200000 then 3600000 else 7200000)).

(** The shop with these two products added. *)
Definition market : World :=
  mkWorld [] (<[9%nat := soap]> (<[10%nat := sample]> (products shop)))
          (users shop) 100 [].

(** User 1 has opened the bottle's group buy, and the bottle has since been
    taken out of the catalogue. *)
Definition delisted : World :=
  mkWorld (groupBuys afterA) (delete 7%nat (products afterA)) (users afterA)
          (nextId afterA) (trace afterA).

(** * The sustainability scores

    [utils/sustainabilityScoring.js].  Strings are sequences of ASCII
    characters; scores are IEEE 754 binary64 numbers. *)

(** ** What the scores use of JavaScript *)

(** [Math.max(x, y)] and [Math.min(x, y)]: [NaN] if either is [NaN], and
    [+0] counts as larger than [-0]. *)
Definition mathMax (x y : float) : float :=
  if PrimFloat.is_nan x || PrimFloat.is_nan y then PrimFloat.nan
  else if PrimFloat.ltb x y then y
  else if PrimFloat.eqb x y && PrimFloat.get_sign x then y
  else x.

Definition mathMin (x y : float) : float :=
  if PrimFloat.is_nan x || PrimFloat.is_nan y then PrimFloat.nan
  else if PrimFloat.ltb y x then y
  else if PrimFloat.eqb x y && PrimFloat.get_sign y then y
  else x.

(** [s.toLowerCase()] *)
Definition lowerCase (c : Ascii.ascii) : Ascii.ascii :=
  let n := Ascii.nat_of_ascii c in
  if (65 <=? n)%nat && (n <=? 90)%nat then Ascii.ascii_of_nat (n + 32) else c.

Fixpoint toLowerCase (s : string) : string :=
  match s with
  | EmptyString => EmptyString
  | String c s' => String (lowerCase c) (toLowerCase s')
  end.

(** [s.includes(t)] *)
Fixpoint includes (s t : string) : bool :=
  String.prefix t s
  || match s with
     | EmptyString => false
     | String _ s' => includes s' t
     end.

Module SustainabilityScoring.

(** A table of the source, [{ type: score, ... }], in the order in which
    [Object.entries] goes through it. *)
Definition Scores : Type := list (string * float).

Definition materialScores : Scores :=
  [("organic", 5%float); ("recycled", 4.5%float); ("biodegradable", 4%float);
   ("renewable", 4%float); ("sustainable", 3.5%float); ("natural", 3%float);
   ("synthetic-eco", 2.5%float); ("mixed", 2%float); ("synthetic", 1.5%float);
   ("plastic", 1%float)].

Definition packagingScores : Scores :=
  [("plastic-free", 5%float); ("biodegradable", 4.5%float);
   ("compostable", 4.5%float); ("recycled", 4%float); ("minimal", 3.5%float);
   ("recyclable", 3%float); ("paper", 3%float); ("mixed", 2%float);
   ("plastic", 1%float)].

Definition productionScores : Scores :=
  [("carbon-neutral", 5%float); ("solar-powered", 4.5%float);
   ("renewable-energy", 4.5%float); ("low-impact", 4%float);
   ("handmade", 3.5%float); ("local", 3.5%float); ("fair-trade", 3%float);
   ("standard", 2%float); ("conventional", 1.5%float)].

Definition certScores : Scores :=
  [("cradle-to-cradle", 5%float); ("b-corp", 4.5%float); ("fairtrade", 4%float);
   ("organic", 4%float); ("rainforest-alliance", 4%float);
   ("energy-star", 3.5%float); ("fsc", 3.5%float); ("green-seal", 3.5%float);
   ("ecolabel", 3%float); ("iso", 2.5%float)].

(** The loop [for (const [type, score] of Object.entries(scores))] that
    stops, with [break], at the first type that the lower-cased text
    includes. *)
Definition firstMatch (scores : Scores) (text : string) : option float :=
  snd <$> List.find (fun entry => includes (toLowerCase text) (fst entry)) scores.

(** One round of the [forEach] that adds up [totalScore] and counts the
    texts that matched. *)
Definition tally (scores : Scores) (totals : float * float) (text : string)
  : float * float :=
  match firstMatch scores text with
  | Some score => ((fst totals + score)%float, (snd totals + 1)%float)
  | None => totals
  end.

Definition scoreMaterials (materials : option (list string)) : float :=
  match materials with
  | None => 1%float
  | Some materials =>
      let totals := fold_left (tally materialScores) materials (0%float, 0%float) in
      let totalScore := fst totals in
      let materialCount := snd totals in
      if PrimFloat.ltb 0 materialCount
      then (totalScore / materialCount)%float
      else 1%float
  end.

(** The loop that keeps the best score among the types that the lower-cased
    text includes. *)
Definition bestMatch (scores : Scores) (text : string) : float :=
  fold_left
    (fun bestScore entry =>
       if includes (toLowerCase text) (fst entry)
       then mathMax bestScore (snd entry)
       else bestScore)
    scores 1%float.

(** [!packaging] holds of [null], [undefined] and the empty string. *)
Definition scorePackaging (packaging : option string) : float :=
  match packaging with
  | None | Some EmptyString => 1%float
  | Some packaging => bestMatch packagingScores packaging
  end.

Definition scoreProduction (production : option string) : float :=
  match production with
  | None | Some EmptyString => 1%float
  | Some production => bestMatch productionScores production
  end.

(** The argument is [None] when it is not a number. *)
Definition scoreCarbonFootprint (carbonFootprint : option float) : float :=
  match carbonFootprint with
  | None => 1%float
  | Some carbonFootprint =>
      if negb (truthy carbonFootprint) then 1
      else if PrimFloat.leb carbonFootprint 1 then 5
      else if PrimFloat.leb carbonFootprint 5 then 4.5
      else if PrimFloat.leb carbonFootprint 10 then 4
      else if PrimFloat.leb carbonFootprint 25 then 3.5
      else if PrimFloat.leb carbonFootprint 50 then 3
      else if PrimFloat.leb carbonFootprint 100 then 2.5
      else if PrimFloat.leb carbonFootprint 250 then 2
      else if PrimFloat.leb carbonFootprint 500 then 1.5
      else 1
  end%float.

(** [0.2], read as the closest binary64 value. *)
Definition bonusPerCertification : float := 0x1.999999999999ap-3%float.

Definition scoreCertifications (certifications : option (list string)) : float :=
  match certifications with
  | None | Some [] => 1%float
  | Some certifications =>
      let totals := fold_left (tally certScores) certifications (0%float, 0%float) in
      let totalScore := fst totals in
      let matchedCerts := snd totals in
      let baseScore :=
        if PrimFloat.ltb 0 matchedCerts
        then (totalScore / matchedCerts)%float
        else 1%float in
      let certBonus :=
        mathMin (numberOfNat (length certifications) * bonusPerCertification) 1 in
      mathMin (baseScore + certBonus) 5
  end.

Definition getEcoLabel (score : float) : string :=
  if PrimFloat.leb 4.5 score then "Exceptional"
  else if PrimFloat.leb 4 score then "Excellent"
  else if PrimFloat.leb 3.5 score then "Very Good"
  else if PrimFloat.leb 3 score then "Good"
  else if PrimFloat.leb 2.5 score then "Fair"
  else if PrimFloat.leb 2 score then "Basic"
  else "Minimal".

Definition categoryBaselines : Scores :=
  [("clothing", 20%float); ("electronics", 100%float); ("food", 15%float);
   ("beauty", 25%float); ("home", 40%float); ("default", 30%float)].

(** The properties that [categoryBaselines], an object literal, inherits
    from [Object.prototype]: looking one of them up finds a function or an
    object, which is truthy and not a number. *)
Definition inherited : list string :=
  ["constructor"; "__proto__"; "hasOwnProperty"; "isPrototypeOf";
   "propertyIsEnumerable"; "toLocaleString"; "toString"; "valueOf";
   "__defineGetter__"; "__defineSetter__"; "__lookupGetter__";
   "__lookupSetter__"].

(** [categoryBaselines[category] || categoryBaselines.default], as the
    number it stands for in the subtraction that follows: an inherited
    property turns into [NaN] there. *)
Definition baselineOf (category : string) : float :=
  match List.find (fun entry => String.eqb (fst entry) category) categoryBaselines with
  | Some entry => snd entry
  | None =>
      if existsb (String.eqb category) inherited then PrimFloat.nan else 30%float
  end.

(** [calculateCarbonSavings(product, conventionalFootprint = null)], given
    [product.carbonFootprint] and [product.category]. *)
Definition calculateCarbonSavings (carbonFootprint : option float)
    (category : string) (conventionalFootprint : option float) : float :=
  match carbonFootprint with
  | None => 0%float
  | Some carbonFootprint =>
      if negb (truthy carbonFootprint) then 0%float
      else
        let conventionalFootprint :=
          match conventionalFootprint with
          | Some c => if truthy c then c else baselineOf category
          | None => baselineOf category
          end in
        mathMax 0 (conventionalFootprint - carbonFootprint)
  end.

(** The half points of the scale from 1 to 5. *)
Definition halfPoints : list float :=
  [1; 1.5; 2; 2.5; 3; 3.5; 4; 4.5; 5]%float.

(** Some type of the table is included in the lower-cased text. *)
Definition recognised (scores : Scores) (text : string) : bool :=
  match firstMatch scores text with
  | Some _ => true
  | None => false
  end.

(** The labels of [getEcoLabel], from the lowest to the highest. *)
Definition ecoLabels : list string :=
  ["Minimal"; "Basic"; "Fair"; "Good"; "Very Good"; "Excellent"; "Exceptional"].

(** The place of a label in that list. *)
Fixpoint placeIn (labels : list string) (label : string) : nat :=
  match labels with
  | [] => 0
  | l :: labels' => if String.eqb l label then 0 else S (placeIn labels' label)
  end.

End SustainabilityScoring.

(** * The carbon impact of a user

    The methods of [UserSchema] ([models/User.js]) that keep
    [carbonImpact] up to date.  They read and write that sub-document only;
    its [monthlySavings], which they leave alone, are left out. *)

Module Badge.
Record t := mk {
  name : string;
  description : string;
  earnedAt : Date
}.
End Badge.

Module CarbonImpact.
Record t := mk {
  totalSaved : float;
  badges : list Badge.t;
  treesEquivalent : float;
  impact : string
}.

(** [this.carbonImpact.badges.some(badge => badge.name === badgeName)] *)
Definition hasBadge (badgeName : string) (this : t) : bool :=
  existsb (fun badge => String.eqb (Badge.name badge) badgeName) (badges this).

(** One of the three [if (totalSaved >= ... && !this.hasBadge(...))
    { badges.push(...) }]. *)
Definition award (this : t) (now : Date) (atLeast : float)
    (name description : string) (badges : list Badge.t) : list Badge.t :=
  if PrimFloat.leb atLeast (totalSaved this) && negb (hasBadge name this)
  then badges ++ [Badge.mk name description now]
  else badges.

Definition checkAndAwardBadges (now : Date) (this : t) : t :=
  let badges := [] in
  let badges :=
    award this now 10 "First Steps" "Saved your first 10kg of CO2e" badges in
  let badges :=
    award this now 100 "Carbon Cutter"
          "Saved 100kg of CO2e through eco-purchases" badges in
  let badges :=
    award this now 500 "Climate Guardian"
          "Saved 500kg of CO2e - you're making a difference!" badges in
  if (0 <? length badges)%nat
  then mk (totalSaved this) (CarbonImpact.badges this ++ badges)
          (treesEquivalent this) (impact this)
  else this.

(** The impact label of [updateCarbonMetrics]. *)
Definition impactLabel (totalSaved : float) : string :=
  if PrimFloat.leb 1000 totalSaved then "Climate Champion"
  else if PrimFloat.leb 500 totalSaved then "Eco Warrior"
  else if PrimFloat.leb 250 totalSaved then "Green Advocate"
  else if PrimFloat.leb 100 totalSaved then "Sustainability Starter"
  else "Just Started".

Section UpdateCarbonMetrics.
(** [x => +x.toFixed(2)]: the number closest to [x] written with two
    decimals. *)
Variable toFixed2 : float -> float.

Definition updateCarbonMetrics (now : Date) (this : t) : t :=
  let this :=
    mk (totalSaved this) (badges this)
       (toFixed2 (totalSaved this / 20)%float) (impact this) in
  let this :=
    mk (totalSaved this) (badges this) (treesEquivalent this)
       (impactLabel (totalSaved this)) in
  checkAndAwardBadges now this.
End UpdateCarbonMetrics.

(** The impact labels, from the lowest to the highest. *)
Definition impactLabels : list string :=
  ["Just Started"; "Sustainability Starter"; "Green Advocate"; "Eco Warrior";
   "Climate Champion"].

End CarbonImpact.

(** * The tags of a purchase history

    [extractTagsFromPurchaseHistory] of [services/recommendationEngine.js]. *)

Module RecommendationEngine.

(** What the engine reads of a purchase; [tags] may be missing. *)
Record Purchase := mkPurchase {
  category : string;
  tags : option (list string)
}.

(** [tags.add(tag)] on a [Set], which keeps its elements in the order in
    which they were first added. *)
Definition add (tags : list string) (tag : string) : list string :=
  if existsb (String.eqb tag) tags then tags else tags ++ [tag].

Definition extractTagsFromPurchaseHistory (purchaseHistory : list Purchase)
  : list string :=
  fold_left
    (fun tags purchase =>
       match RecommendationEngine.tags purchase with
       | Some purchaseTags => fold_left add purchaseTags tags
       | None => tags
       end)
    purchaseHistory [].

End RecommendationEngine.

(** * Lemmas *)

#[local] Arguments notifyParticipants : simpl never.
#[local] Arguments notifications : simpl never.
#[local] Arguments thresholdReached : simpl never.
#[local] Arguments complete : simpl never.
#[local] Arguments participationIn : simpl never.
#[local] Arguments firstParticipation : simpl never.
#[local] Arguments newGroupBuy : simpl never.
#[local] Arguments potentialSaving : simpl never.
#[local] Arguments replaceGroupBuy : simpl never.
#[local] Arguments findGroupBuy : simpl never.

(** ** Looking up and replacing group buy documents *)

Lemma findGroupBuy_id gid gs g :
  findGroupBuy gid gs = Some g -> GroupBuy._id g = gid.
Proof.
  unfold findGroupBuy. intros H. apply find_some in H as [_ H].
  now apply Nat.eqb_eq in H.
Qed.

Lemma findGroupBuy_In gid gs g :
  findGroupBuy gid gs = Some g -> In g gs.
Proof. unfold findGroupBuy. intros H. now apply find_some in H. Qed.

Lemma replaceGroupBuy_ids g gs :
  List.map GroupBuy._id (replaceGroupBuy g gs) = List.map GroupBuy._id gs.
Proof.
  unfold replaceGroupBuy. induction gs as [|g0 gs IH]; [reflexivity|].
  cbn. rewrite IH. f_equal.
  destruct (Nat.eqb_spec (GroupBuy._id g0) (GroupBuy._id g)); congruence.
Qed.

Lemma findGroupBuy_replace_same g g' gs :
  findGroupBuy (GroupBuy._id g') gs = Some g ->
  findGroupBuy (GroupBuy._id g') (replaceGroupBuy g' gs) = Some g'.
Proof.
  unfold findGroupBuy, replaceGroupBuy.
  induction gs as [|g0 gs IH]; [discriminate|]. cbn.
  destruct (Nat.eqb_spec (GroupBuy._id g0) (GroupBuy._id g')) as [E|E].
  - intros _. cbn. now rewrite Nat.eqb_refl.
  - intros H. cbn. destruct (Nat.eqb_spec (GroupBuy._id g0) (GroupBuy._id g'));
      [contradiction|]. now apply IH.
Qed.

Lemma findGroupBuy_replace_other gid g' gs :
  GroupBuy._id g' <> gid ->
  findGroupBuy gid (replaceGroupBuy g' gs) = findGroupBuy gid gs.
Proof.
  intros Hne. unfold findGroupBuy, replaceGroupBuy.
  induction gs as [|g0 gs IH]; [reflexivity|]. cbn.
  destruct (Nat.eqb_spec (GroupBuy._id g0) (GroupBuy._id g')) as [E|E].
  - destruct (Nat.eqb_spec (GroupBuy._id g') gid); [contradiction|].
    destruct (Nat.eqb_spec (GroupBuy._id g0) gid); [congruence|]. apply IH.
  - destruct (Nat.eqb_spec (GroupBuy._id g0) gid); [reflexivity|]. apply IH.
Qed.

Lemma findGroupBuy_app_found gid gs gs' g :
  findGroupBuy gid gs = Some g -> findGroupBuy gid (gs ++ gs') = Some g.
Proof.
  unfold findGroupBuy. induction gs as [|g0 gs IH]; [discriminate|]. cbn.
  destruct (Nat.eqb (GroupBuy._id g0) gid); [trivial|apply IH].
Qed.

Lemma findGroupBuy_unique gid gs g :
  NoDup (List.map GroupBuy._id gs) -> In g gs -> GroupBuy._id g = gid ->
  findGroupBuy gid gs = Some g.
Proof.
  unfold findGroupBuy. induction gs as [|g0 gs IH]; [contradiction|].
  cbn. intros Hnd [->|Hin] Hid.
  - now rewrite <- Hid, Nat.eqb_refl.
  - apply NoDup_cons in Hnd as [Hnotin Hnd].
    destruct (Nat.eqb_spec (GroupBuy._id g0) gid) as [E|E]; [|now apply IH].
    exfalso. apply Hnotin. rewrite E, <- Hid.
    apply list_elem_of_In. now apply in_map.
Qed.

(** ** Running programs *)

Lemma run_andThen faulty {A B} (p : Prog A) (f : A -> Prog B) w :
  run faulty (andThen p f) w =
  match run faulty p w with
  | (inl e, w') => (inl e, w')
  | (inr a, w') => run faulty (f a) w'
  end.
Proof.
  revert w. induction p as [a|e|gid n k IH|R op k IH]; intros w; cbn;
    try reflexivity.
  - apply IH.
  - destruct (exec faulty op w) as [[e|r] w']; [reflexivity|apply IH].
Qed.

Lemma run_notifyParticipants faulty {A} (g : GroupBuy.t) (k : Prog A) w :
  run faulty (notifyParticipants g k) w
  = run faulty k (record (notifications g) w).
Proof.
  unfold notifyParticipants, notifications.
  generalize (GroupBuy._id g) as gid.
  generalize (successNotification g) as f.
  intros f gid. revert w.
  induction (GroupBuy.participants g) as [|p ps IH]; intros w; cbn.
  - destruct w; unfold record; cbn. now rewrite app_nil_r.
  - rewrite IH. f_equal. destruct w; unfold record, emit; cbn.
    now rewrite <- app_assoc.
Qed.

(** *** What a call of [joinGroupBuy] by a new participant does *)

Lemma run_join_new w now gid u g :
  findGroupBuy gid (groupBuys w) = Some g ->
  GroupBuy.status g = active ->
  (GroupBuy.expiryDate g <? now) = false ->
  GroupBuy.isParticipant u g = false ->
  run reliable (joinGroupBuy now gid u) w
  = (inr (joined now u g, successfullyJoined), afterJoin now u g w).
Proof.
  intros Hg Hst Hexp Hnew.
  unfold joinGroupBuy, afterJoin, joined. cbn [run exec].
  rewrite Hg, Hst.
  rewrite bool_decide_eq_true_2 by reflexivity. cbn [negb].
  rewrite Hexp, Hnew.
  cbn [run exec GroupBuy.productId GroupBuy.push].
  destruct (products w !! GroupBuy.productId g) as [p|] eqn:Hp; cbn.
  all: destruct (thresholdReached _) eqn:Hthr; cbn.
  all: rewrite ?run_notifyParticipants; cbn.
  all: destruct (users w !! u) as [usr|] eqn:Hu; cbn.
  all: unfold record, emit; cbn; rewrite <- ?app_assoc; cbn; try reflexivity.
Qed.

(** *** The other ways out of [joinGroupBuy] *)

Lemma run_join_missing faulty w now gid u :
  findGroupBuy gid (groupBuys w) = None ->
  run faulty (joinGroupBuy now gid u) w = (inl GroupBuyNotFound, w).
Proof. intros Hg. unfold joinGroupBuy. cbn [run exec]. now rewrite Hg. Qed.

Lemma run_join_inactive faulty w now gid u g :
  findGroupBuy gid (groupBuys w) = Some g ->
  GroupBuy.status g <> active ->
  run faulty (joinGroupBuy now gid u) w = (inl (CannotJoin (GroupBuy.status g)), w).
Proof.
  intros Hg Hst. unfold joinGroupBuy. cbn [run exec]. rewrite Hg.
  now rewrite bool_decide_eq_false_2.
Qed.

Lemma run_join_overdue w now gid u g :
  findGroupBuy gid (groupBuys w) = Some g ->
  GroupBuy.status g = active ->
  (GroupBuy.expiryDate g <? now) = true ->
  run reliable (joinGroupBuy now gid u) w
  = (inl GroupBuyExpired, afterLazyExpiry g w).
Proof.
  intros Hg Hst Hexp. unfold joinGroupBuy. cbn [run exec]. rewrite Hg, Hst.
  rewrite bool_decide_eq_true_2 by reflexivity. cbn [negb]. now rewrite Hexp.
Qed.

Lemma run_join_member faulty w now gid u g :
  findGroupBuy gid (groupBuys w) = Some g ->
  GroupBuy.status g = active ->
  (GroupBuy.expiryDate g <? now) = false ->
  GroupBuy.isParticipant u g = true ->
  run faulty (joinGroupBuy now gid u) w = (inr (g, alreadyParticipating), w).
Proof.
  intros Hg Hst Hexp Hmem. unfold joinGroupBuy. cbn [run exec]. rewrite Hg, Hst.
  rewrite bool_decide_eq_true_2 by reflexivity. cbn [negb].
  now rewrite Hexp, Hmem.
Qed.

(** *** What [createGroupBuy] does *)

Lemma run_create_missing faulty w zone now pid u :
  products w !! pid = None ->
  run faulty (createGroupBuy zone now pid u) w = (inl ProductNotFound, w).
Proof. intros Hp. unfold createGroupBuy. cbn [run exec]. now rewrite Hp. Qed.

Lemma run_create_disabled faulty w zone now pid u p :
  products w !! pid = Some p ->
  Product.enabled (Product.groupBuying p) = false ->
  run faulty (createGroupBuy zone now pid u) w = (inl GroupBuyingNotEnabled, w).
Proof.
  intros Hp Hen. unfold createGroupBuy. cbn [run exec]. now rewrite Hp, Hen.
Qed.

Lemma run_create_existing faulty w zone now pid u p g :
  products w !! pid = Some p ->
  Product.enabled (Product.groupBuying p) = true ->
  List.find (isActiveFor pid now) (groupBuys w) = Some g ->
  run faulty (createGroupBuy zone now pid u) w
  = match run faulty (joinGroupBuy now (GroupBuy._id g) u) w with
    | (inl e, w') => (inl e, w')
    | (inr r, w') => (inr (Membership (fst r) (snd r)), w')
    end.
Proof.
  intros Hp Hen Hg. unfold createGroupBuy. cbn [run exec].
  rewrite Hp, Hen. cbn [negb run exec]. rewrite Hg.
  rewrite run_andThen. now destruct (run faulty _ w) as [[e|r] w'].
Qed.

Lemma isDate_iff t : isDate t = true <-> - maxTime <= t <= maxTime.
Proof. unfold isDate. now rewrite andb_true_iff, !Z.leb_le. Qed.

(** The new group buy passes the validators when the product's threshold
    is at least 2 and the expiry date is a date. *)
Lemma valid_newGroupBuy zone now pid u p id :
  GroupBuy.valid (newGroupBuy zone now pid u p id) = true
  <-> 2 <= Product.threshold (Product.groupBuying p)
      /\ isDate (setDate zone now (Product.expiryDays (Product.groupBuying p)))
         = true.
Proof.
  unfold GroupBuy.valid, newGroupBuy. cbn [GroupBuy.threshold GroupBuy.expiryDate].
  now rewrite andb_true_iff, Z.leb_le.
Qed.

Lemma invalid_below_minimum zone now pid u p id :
  Product.threshold (Product.groupBuying p) < 2 ->
  GroupBuy.valid (newGroupBuy zone now pid u p id) = false.
Proof.
  intros Hthr. unfold GroupBuy.valid, newGroupBuy. cbn [GroupBuy.threshold].
  apply Z.leb_gt in Hthr. now rewrite Hthr.
Qed.

Lemma run_create_new w zone now pid u p :
  products w !! pid = Some p ->
  Product.enabled (Product.groupBuying p) = true ->
  List.find (isActiveFor pid now) (groupBuys w) = None ->
  GroupBuy.valid (newGroupBuy zone now pid u p (nextId w)) = true ->
  run reliable (createGroupBuy zone now pid u) w
  = (inr (Saved (newGroupBuy zone now pid u p (nextId w))),
     afterCreate zone now pid u p w).
Proof.
  intros Hp Hen Hg Hvalid. unfold createGroupBuy, afterCreate. cbn [run exec].
  rewrite Hp, Hen. cbn [negb run exec]. rewrite Hg. cbn.
  rewrite Hvalid. cbn.
  destruct (users w !! u) as [usr|]; cbn; unfold emit; cbn;
    rewrite <- ?app_assoc; reflexivity.
Qed.

Lemma run_create_invalid w zone now pid u p :
  products w !! pid = Some p ->
  Product.enabled (Product.groupBuying p) = true ->
  List.find (isActiveFor pid now) (groupBuys w) = None ->
  GroupBuy.valid (newGroupBuy zone now pid u p (nextId w)) = false ->
  run reliable (createGroupBuy zone now pid u) w
  = (inl ValidationFailed, afterCounterSet p w).
Proof.
  intros Hp Hen Hg Hvalid. unfold createGroupBuy, afterCounterSet. cbn [run exec].
  rewrite Hp, Hen. cbn [negb run exec]. rewrite Hg. cbn.
  now rewrite Hvalid.
Qed.

(** *** What [checkAndUpdateExpiredGroupBuys] does *)

Lemma run_expireEach {A} (gs : list GroupBuy.t) (k : Prog A) w :
  run reliable (expireEach gs k) w = run reliable k (fold_left afterExpiry gs w).
Proof.
  revert w. induction gs as [|g gs IH]; intros w; [reflexivity|].
  cbn. rewrite IH. f_equal. f_equal. unfold afterExpiry, emit; cbn.
  now rewrite <- !app_assoc.
Qed.

Lemma run_check w now :
  run reliable (checkAndUpdateExpiredGroupBuys now) w
  = (inr (length (List.filter (isOverdue now) (groupBuys w))), afterSweep now w).
Proof.
  unfold checkAndUpdateExpiredGroupBuys, afterSweep. cbn [run exec].
  now rewrite run_expireEach.
Qed.

(** *** Every call is one step *)

Lemma join_Step w now gid u :
  Step w (snd (run reliable (joinGroupBuy now gid u) w)).
Proof.
  destruct (findGroupBuy gid (groupBuys w)) as [g|] eqn:Hg.
  2: { rewrite run_join_missing by assumption. constructor. }
  destruct (decide (GroupBuy.status g = active)) as [Hst|Hst].
  2: { rewrite (run_join_inactive _ _ _ _ _ g) by assumption. constructor. }
  destruct (GroupBuy.expiryDate g <? now) eqn:Hexp.
  { rewrite (run_join_overdue _ _ _ _ g) by assumption.
    now apply StepLazyExpiry with now gid. }
  destruct (GroupBuy.isParticipant u g) eqn:Hmem.
  { rewrite (run_join_member _ _ _ _ _ g) by assumption. constructor. }
  rewrite (run_join_new _ _ _ _ g) by assumption.
  now apply StepJoin with gid.
Qed.

Lemma perform_Step c w : Step w (perform c w).
Proof.
  destruct c as [zone now pid u|now gid u|now]; cbn [perform].
  - destruct (products w !! pid) as [p|] eqn:Hp.
    2: { rewrite run_create_missing by assumption. constructor. }
    destruct (Product.enabled (Product.groupBuying p)) eqn:Hen.
    2: { rewrite (run_create_disabled _ _ _ _ _ _ p) by assumption. constructor. }
    destruct (List.find (isActiveFor pid now) (groupBuys w)) as [g|] eqn:Hg.
    { rewrite (run_create_existing _ _ _ _ _ _ p g) by assumption.
      pose proof (join_Step w now (GroupBuy._id g) u) as H.
      now destruct (run reliable (joinGroupBuy _ _ _) w) as [[e|r] w']. }
    destruct (GroupBuy.valid (newGroupBuy zone now pid u p (nextId w)))
      eqn:Hvalid.
    + rewrite (run_create_new _ _ _ _ _ p) by assumption.
      now apply StepCreate.
    + rewrite (run_create_invalid _ _ _ _ _ p) by assumption.
      now apply StepCounterSet with zone now pid u.
  - apply join_Step.
  - rewrite run_check. apply StepSweep.
Qed.

(** ** Notifications in a trace *)

Lemma notifiedFor_app gid evs evs' :
  notifiedFor gid (evs ++ evs') = notifiedFor gid evs ++ notifiedFor gid evs'.
Proof. unfold notifiedFor. apply flat_map_app. Qed.

Lemma notifiedFor_notifications_same g :
  notifiedFor (GroupBuy._id g) (notifications g)
  = List.map (successNotification g) (GroupBuy.participants g).
Proof.
  unfold notifications, notifiedFor.
  induction (GroupBuy.participants g) as [|p ps IH]; [reflexivity|].
  cbn. rewrite Nat.eqb_refl. cbn. now rewrite IH.
Qed.

Lemma notifiedFor_notifications_other gid g :
  GroupBuy._id g <> gid -> notifiedFor gid (notifications g) = [].
Proof.
  intros Hne. unfold notifications, notifiedFor.
  induction (GroupBuy.participants g) as [|p ps IH]; [reflexivity|].
  cbn. now destruct (Nat.eqb_spec (GroupBuy._id g) gid).
Qed.

Lemma since_app w w' evs : trace w' = trace w ++ evs -> since w w' = evs.
Proof. unfold since. intros ->. now rewrite drop_app_length. Qed.

Lemma since_refl w : since w w = [].
Proof. unfold since. apply drop_all. Qed.

(** ** Ids of the documents *)

Lemma joined_id now u g : GroupBuy._id (joined now u g) = GroupBuy._id g.
Proof. unfold joined. now destruct (thresholdReached _). Qed.

Lemma joined_participants now u g :
  GroupBuy.participants (joined now u g)
  = GroupBuy.participants g ++ [mkParticipant u now].
Proof. unfold joined. now destruct (thresholdReached _). Qed.

Lemma joined_threshold now u g :
  GroupBuy.threshold (joined now u g) = GroupBuy.threshold g.
Proof. unfold joined. now destruct (thresholdReached _). Qed.

Lemma afterSweep_ids gs w :
  List.map GroupBuy._id (groupBuys (fold_left afterExpiry gs w))
  = List.map GroupBuy._id (groupBuys w)
  /\ nextId (fold_left afterExpiry gs w) = nextId w.
Proof.
  revert w. induction gs as [|g gs IH]; intros w; [easy|].
  cbn [fold_left]. destruct (IH (afterExpiry w g)) as [-> ->].
  split; [apply replaceGroupBuy_ids|reflexivity].
Qed.

Lemma uniqueIds_ids w w' :
  List.map GroupBuy._id (groupBuys w') = List.map GroupBuy._id (groupBuys w) ->
  nextId w' = nextId w ->
  uniqueIds w -> uniqueIds w'.
Proof.
  unfold uniqueIds. intros Hids Hnext [Hnd Hlt].
  rewrite Hids, Hnext. split; [assumption|].
  apply (List.Forall_map GroupBuy._id (fun i => (i < nextId w)%nat)).
  rewrite Hids.
  now apply (List.Forall_map GroupBuy._id (fun i => (i < nextId w)%nat)).
Qed.

(** ** Sound documents stay sound *)

Lemma isParticipant_false u g :
  GroupBuy.isParticipant u g = false ->
  ~ In u (List.map userId (GroupBuy.participants g)).
Proof.
  unfold GroupBuy.isParticipant. intros H Hin.
  apply in_map_iff in Hin as [p [Hp Hin]].
  assert (existsb (fun p => Nat.eqb (userId p) u) (GroupBuy.participants g) = true)
    as E; [|congruence].
  apply existsb_exists. exists p. split; [assumption|]. now apply Nat.eqb_eq.
Qed.

Lemma thresholdReached_iff g :
  thresholdReached g = true <->
  GroupBuy.threshold g <= Z.of_nat (length (GroupBuy.participants g))
  /\ GroupBuy.status g = active.
Proof.
  unfold thresholdReached.
  now rewrite andb_true_iff, Z.leb_le, bool_decide_eq_true.
Qed.

Lemma joined_sound now u g :
  sound g -> GroupBuy.isParticipant u g = false -> sound (joined now u g).
Proof.
  intros [Hnd Hlt] Hnew. split.
  - rewrite joined_participants, List.map_app. cbn.
    apply NoDup_app. split; [assumption|]. split; [|apply NoDup_singleton].
    intros i Hi Hi'. apply list_elem_of_singleton in Hi'. subst i.
    apply (isParticipant_false _ _ Hnew). now apply list_elem_of_In.
  - unfold joined.
    destruct (thresholdReached _) eqn:Hthr; [discriminate|].
    cbn. intros Hst.
    destruct (Z_lt_le_dec
                (Z.of_nat (length (GroupBuy.participants g ++ [mkParticipant u now])))
                (GroupBuy.threshold g)) as [Hlt'|Hle]; [assumption|].
    exfalso. enough (thresholdReached (GroupBuy.push (mkParticipant u now) g) = true)
      by congruence.
    apply thresholdReached_iff. now split.
Qed.

Lemma expired_sound g : sound g -> sound (GroupBuy.with_status expired g).
Proof. intros [Hnd _]. split; [assumption|discriminate]. Qed.

Lemma replaceGroupBuy_sound g gs :
  sound g -> Forall sound gs -> Forall sound (replaceGroupBuy g gs).
Proof.
  intros Hg Hgs. unfold replaceGroupBuy. apply List.Forall_map.
  eapply Forall_impl; [exact Hgs|]. cbn. intros g0 Hg0.
  now destruct (Nat.eqb _ _).
Qed.

Lemma findGroupBuy_sound gid gs g :
  Forall sound gs -> findGroupBuy gid gs = Some g -> sound g.
Proof.
  intros Hgs Hg. apply findGroupBuy_In in Hg.
  rewrite List.Forall_forall in Hgs. now apply Hgs.
Qed.

Lemma afterSweep_sound gs w :
  Forall sound gs -> Forall sound (groupBuys w) ->
  Forall sound (groupBuys (fold_left afterExpiry gs w)).
Proof.
  revert w. induction gs as [|g gs IH]; intros w Hgs Hw; [assumption|].
  apply Forall_cons in Hgs as [Hg Hgs]. cbn [fold_left]. apply IH; [assumption|].
  cbn. apply replaceGroupBuy_sound; [now apply expired_sound|assumption].
Qed.

(** ** Well-formed worlds stay well-formed *)

Lemma Step_uniqueIds w w' : Step w w' -> uniqueIds w -> uniqueIds w'.
Proof.
  intros [ |now gid u g Hg Hst Hexp Hnew|now gid g Hg Hst Hexp
          |zone now pid u p Hp Hen Hnone Hvalid
          |zone now pid u p Hp Hen Hnone Hvalid|now] Hwf;
    try assumption.
  - apply uniqueIds_ids with w; [apply replaceGroupBuy_ids|reflexivity|assumption].
  - apply uniqueIds_ids with w; [apply replaceGroupBuy_ids|reflexivity|assumption].
  - destruct Hwf as [Hnd Hlt]. unfold uniqueIds, afterCreate. cbn.
    rewrite List.map_app. cbn.
    change (GroupBuy._id (newGroupBuy zone now pid u p (nextId w))) with (nextId w).
    split.
    + apply NoDup_app. split; [assumption|]. split; [|apply NoDup_singleton].
      intros i Hi Hi'. apply list_elem_of_singleton in Hi'. subst i.
      apply list_elem_of_In, in_map_iff in Hi as [g [Hid Hin]].
      rewrite List.Forall_forall in Hlt. specialize (Hlt g Hin). lia.
    + apply Forall_app. split.
      * eapply Forall_impl; [exact Hlt|]. cbn. intros; lia.
      * repeat constructor.
  - destruct (afterSweep_ids (List.filter (isOverdue now) (groupBuys w)) w).
    now apply uniqueIds_ids with w.
Qed.

Lemma Step_sound w w' :
  Step w w' -> Forall sound (groupBuys w) -> Forall sound (groupBuys w').
Proof.
  intros [ |now gid u g Hg Hst Hexp Hnew|now gid g Hg Hst Hexp
          |zone now pid u p Hp Hen Hnone Hvalid
          |zone now pid u p Hp Hen Hnone Hvalid|now] Hwf;
    try assumption.
  - cbn. apply replaceGroupBuy_sound; [|assumption].
    apply joined_sound; [|assumption]. now apply findGroupBuy_sound with gid (groupBuys w).
  - cbn. apply replaceGroupBuy_sound; [|assumption].
    apply expired_sound. now apply findGroupBuy_sound with gid (groupBuys w).
  - cbn. apply Forall_app. split; [assumption|]. apply Forall_singleton.
    apply valid_newGroupBuy in Hvalid as [Hthr _].
    unfold sound, newGroupBuy. cbn. split; [apply NoDup_singleton|lia].
  - apply afterSweep_sound; [|assumption].
    apply List.Forall_forall. intros g Hin. apply filter_In in Hin as [Hin _].
    rewrite List.Forall_forall in Hwf. now apply Hwf.
Qed.

Lemma Step_wellFormed w w' : Step w w' -> wellFormed w -> wellFormed w'.
Proof.
  intros Hstep [Hids Hsound]. split;
    [now apply (Step_uniqueIds w)|now apply (Step_sound w)].
Qed.

Lemma performAll_wellFormed cs w : wellFormed w -> wellFormed (performAll cs w).
Proof.
  revert w. induction cs as [|c cs IH]; intros w Hwf; [assumption|].
  apply IH. apply (Step_wellFormed w); [apply perform_Step|assumption].
Qed.

(** ** Documents stay under their ids *)

Lemma keyed_insert_product w p0 p :
  keyed w -> Product._id p = Product._id p0 ->
  forall k x, <[Product._id p0 := p]> (products w) !! k = Some x -> Product._id x = k.
Proof.
  intros [Hk _] Hid k x Hx.
  apply lookup_insert_Some in Hx as [[<- <-]|[_ Hx]]; [assumption|now apply Hk].
Qed.

Lemma keyed_insert_user w u0 u :
  keyed w -> User._id u = User._id u0 ->
  forall k x, <[User._id u0 := u]> (users w) !! k = Some x -> User._id x = k.
Proof.
  intros [_ Hk] Hid k x Hx.
  apply lookup_insert_Some in Hx as [[<- <-]|[_ Hx]]; [assumption|now apply Hk].
Qed.

Lemma afterExpiry_keyed w g : keyed w -> keyed (afterExpiry w g).
Proof.
  intros [Hp Hu]. split; cbn; intros k x Hx.
  - apply lookup_alter_Some in Hx as [[_ [y [Hy ->]]]|[_ Hx]]; [|now apply Hp].
    cbn. now apply Hp.
  - apply lookup_fmap_Some in Hx as [y [<- Hy]]. cbn. now apply Hu.
Qed.

Lemma Step_keyed w w' : Step w w' -> keyed w -> keyed w'.
Proof.
  intros [ |now gid u g Hg Hst Hexp Hnew|now gid g Hg Hst Hexp
          |zone now pid u p Hp Hen Hnone Hvalid
          |zone now pid u p Hp Hen Hnone Hvalid|now] Hk;
    try assumption.
  - split; cbn.
    + destruct (products w !! GroupBuy.productId g) as [p|] eqn:Hp; cbn;
        [now apply keyed_insert_product|apply Hk].
    + destruct (users w !! u) as [usr|] eqn:Hu; [|apply Hk].
      destruct (products w !! GroupBuy.productId g) as [p|] eqn:Hp; cbn;
        [now apply keyed_insert_user|apply Hk].
  - split; cbn; [now apply keyed_insert_product|apply Hk].
  - split; cbn; [now apply keyed_insert_product|].
    destruct (users w !! u) as [usr|] eqn:Hu;
      [now apply keyed_insert_user|apply Hk].
  - unfold afterSweep. generalize (List.filter (isOverdue now) (groupBuys w)).
    intros gs. revert w Hk. induction gs as [|g gs IH]; intros w Hk; [assumption|].
    cbn [fold_left]. apply IH. now apply afterExpiry_keyed.
Qed.

Lemma performAll_keyed cs w : keyed w -> keyed (performAll cs w).
Proof.
  revert w. induction cs as [|c cs IH]; intros w Hk; [assumption|].
  apply IH. apply (Step_keyed w); [apply perform_Step|assumption].
Qed.

Lemma shop_keyed : keyed shop.
Proof.
  split; cbn; intros k x Hx;
    repeat (apply lookup_insert_Some in Hx as [[<- <-]|[_ Hx]]; [reflexivity|]);
    now rewrite lookup_empty in Hx.
Qed.

Lemma shop_wellFormed : wellFormed shop.
Proof. repeat split; constructor. Qed.

(** ** The threshold *)

Lemma joined_below now u g :
  Z.of_nat (S (length (GroupBuy.participants g))) < GroupBuy.threshold g ->
  joined now u g = GroupBuy.push (mkParticipant u now) g.
Proof.
  intros Hlt. unfold joined.
  destruct (thresholdReached _) eqn:Hthr; [|reflexivity].
  apply thresholdReached_iff in Hthr as [Hle _]. cbn in Hle.
  rewrite length_app in Hle. cbn in Hle. lia.
Qed.

Lemma joined_reached now u g :
  GroupBuy.status g = active ->
  GroupBuy.threshold g <= Z.of_nat (S (length (GroupBuy.participants g))) ->
  joined now u g = complete now (GroupBuy.push (mkParticipant u now) g).
Proof.
  intros Hst Hle. unfold joined.
  destruct (thresholdReached _) eqn:Hthr; [reflexivity|].
  enough (thresholdReached (GroupBuy.push (mkParticipant u now) g) = true)
    by congruence.
  apply thresholdReached_iff. cbn. rewrite length_app. cbn. split; [lia|assumption].
Qed.

(** ** Notifications *)

Lemma afterJoin_notified now u g w :
  notifiedFor (GroupBuy._id g) (since w (afterJoin now u g w))
  = if thresholdReached (GroupBuy.push (mkParticipant u now) g)
    then List.map (successNotification (joined now u g))
                  (GroupBuy.participants (joined now u g))
    else [].
Proof.
  erewrite since_app by reflexivity. rewrite !notifiedFor_app.
  rewrite <- (joined_id now u g) at 2.
  destruct (thresholdReached _).
  - rewrite notifiedFor_notifications_same.
    destruct (products w !! _), (users w !! u); cbn; now rewrite ?app_nil_r.
  - now destruct (products w !! _), (users w !! u).
Qed.

(** The notifications go out before the group buy is saved: a call whose
    save the store refuses has sent them, and the stored documents of the
    group buys are as they were. *)
Lemma run_join_refused faulty w now gid u g :
  findGroupBuy gid (groupBuys w) = Some g ->
  GroupBuy.status g = active ->
  (GroupBuy.expiryDate g <? now) = false ->
  GroupBuy.isParticipant u g = false ->
  faulty Products = false ->
  faulty GroupBuys = true ->
  exists w',
    run faulty (joinGroupBuy now gid u) w = (inl WriteFailed, w')
    /\ groupBuys w' = groupBuys w
    /\ notifiedFor gid (since w w')
       = if thresholdReached (GroupBuy.push (mkParticipant u now) g)
         then List.map (successNotification (joined now u g))
                       (GroupBuy.participants (joined now u g))
         else [].
Proof.
  intros Hg Hst Hexp Hnew HP HG.
  pose proof (findGroupBuy_id _ _ _ Hg) as Hid. subst gid.
  unfold joinGroupBuy, joined. cbn [run exec].
  rewrite Hg, Hst.
  rewrite bool_decide_eq_true_2 by reflexivity. cbn [negb].
  rewrite Hexp, Hnew.
  cbn [run exec GroupBuy.productId GroupBuy.push].
  destruct (products w !! GroupBuy.productId g) as [p|] eqn:Hp;
    cbn [run exec]; unfold write; rewrite ?HP; cbn [run].
  all: destruct (thresholdReached _) eqn:Hthr;
    rewrite ?run_notifyParticipants; cbn [run exec]; unfold write;
    rewrite HG; cbn [run].
  all: eexists; split; [reflexivity|]; split; [reflexivity|].
  all: first [ rewrite since_refl
             | erewrite since_app by (cbn; rewrite <- ?app_assoc; reflexivity) ].
  all: rewrite ?notifiedFor_app, ?app_nil_r; cbn [notifiedFor flat_map app];
    try reflexivity.
  all: change (GroupBuy._id g) with
         (GroupBuy._id (complete now (GroupBuy.push (mkParticipant u now) g)));
    apply notifiedFor_notifications_same.
Qed.

(** ** Calls in flight *)

(** *** A schedule that serves the calls one after another *)

Lemma turn_idle {A} (p : Prog A) w :
  turnsOf p w = 0%nat ->
  turn reliable p w = (ended (fst (run reliable p w)), snd (run reliable p w)).
Proof.
  destruct p as [a|e|gid n k|R op k]; cbn; intros H; try reflexivity.
  - lia.
  - destruct (exec reliable op w) as [[e|r] w']; discriminate H.
Qed.

Lemma turns_run {A} (p : Prog A) w :
  turns (turnsOf p w) p w
  = (ended (fst (run reliable p w)), snd (run reliable p w)).
Proof.
  revert w. induction p as [a|e|gid n k IH|R op k IH]; intros w;
    try reflexivity.
  - cbn [turnsOf run].
    destruct (turnsOf k (emit (Notified gid n) w)) as [|m] eqn:Hm.
    + cbn. rewrite (turn_idle k _ Hm). reflexivity.
    + rewrite <- IH, Hm. reflexivity.
  - cbn [turnsOf run]. destruct (exec reliable op w) as [[e|r] w'] eqn:Hop.
    + cbn. now rewrite Hop.
    + cbn. rewrite Hop. apply IH.
Qed.

Lemma schedule_app {A} s1 s2 (calls : list (Prog A)) w :
  schedule reliable (s1 ++ s2) calls w
  = schedule reliable s2 (fst (schedule reliable s1 calls w))
                         (snd (schedule reliable s1 calls w)).
Proof.
  revert calls w. induction s1 as [|i s1 IH]; intros calls w; [reflexivity|].
  cbn. destruct (calls !! i) as [p|]; [|apply IH].
  destruct (turn reliable p w) as [p' w']. apply IH.
Qed.

Lemma schedule_replicate {A} n i (calls : list (Prog A)) w p :
  calls !! i = Some p ->
  schedule reliable (replicate n i) calls w
  = (<[i := fst (turns n p w)]> calls, snd (turns n p w)).
Proof.
  revert calls w p. induction n as [|n IH]; intros calls w p Hp.
  - cbn. now rewrite list_insert_id.
  - cbn. rewrite Hp. destruct (turn reliable p w) as [p' w'].
    rewrite (IH _ _ p').
    + now rewrite list_insert_insert_eq.
    + apply list_lookup_insert_eq. now apply lookup_lt_Some with p.
Qed.

Lemma schedule_serial {A} (served ps : list (Prog A)) w :
  schedule reliable (serial (length served) ps w) (served ++ ps) w
  = (served ++ List.map ended (fst (runAll ps w)), snd (runAll ps w)).
Proof.
  revert served w. induction ps as [|p ps IH]; intros served w; [reflexivity|].
  cbn [serial runAll]. rewrite schedule_app.
  rewrite (schedule_replicate _ _ _ _ p) by apply list_lookup_middle, eq_refl.
  rewrite turns_run. cbn [fst snd].
  destruct (run reliable p w) as [r w1]. cbn [fst snd].
  replace (<[length served := ended r]> (served ++ p :: ps))
    with ((served ++ [ended r]) ++ ps).
  2: { rewrite <- app_assoc. cbn. symmetry.
       rewrite insert_app_r_alt by lia. now rewrite Nat.sub_diag. }
  replace (S (length served)) with (length (served ++ [ended r]))
    by (rewrite length_app; cbn; lia).
  rewrite IH. destruct (runAll ps w1) as [rs w2]. cbn.
  now rewrite <- app_assoc.
Qed.

(** Served one after another, the calls do what [performAll] says. *)
Lemma run_program c w : snd (run reliable (program c) w) = perform c w.
Proof.
  destruct c; cbn [program perform]; rewrite run_andThen;
    now destruct (run reliable _ w) as [[e|r] w'].
Qed.

Lemma runAll_programs cs w :
  snd (runAll (List.map program cs) w) = performAll cs w.
Proof.
  revert w. induction cs as [|c cs IH]; intros w; [reflexivity|].
  change (performAll (c :: cs) w) with (performAll cs (perform c w)).
  cbn [List.map runAll]. rewrite <- (IH (perform c w)), <- run_program.
  destruct (run reliable (program c) w) as [r w1]. cbn [snd].
  now destruct (runAll (List.map program cs) w1).
Qed.

Lemma serial_performAll cs w :
  snd (schedule reliable (serial 0 (List.map program cs) w)
                (List.map program cs) w)
  = performAll cs w.
Proof.
  pose proof (schedule_serial [] (List.map program cs) w) as H.
  cbn [length app] in H. rewrite H. apply runAll_programs.
Qed.

Lemma settled_ended {A} (rs : list (Error + A)) :
  mapM settled (List.map ended rs) = Some rs.
Proof.
  induction rs as [|r rs IH]; [reflexivity|].
  cbn. destruct r; cbn; rewrite IH; reflexivity.
Qed.

(** *** Joins served one after another *)

Lemma runAll_joins_inactive w gid g joins :
  findGroupBuy gid (groupBuys w) = Some g ->
  GroupBuy.status g <> active ->
  runAll (racers gid joins) w
  = (List.map (fun _ => inl (CannotJoin (GroupBuy.status g))) joins, w).
Proof.
  intros Hg Hst. induction joins as [|j js IH]; [reflexivity|].
  cbn [racers List.map runAll fst snd].
  rewrite (run_join_inactive _ _ _ _ _ g Hg Hst).
  fold (racers gid js). now rewrite IH.
Qed.

Lemma count_turned_away {A} (f : JoinReply -> bool) (e : Error) (l : list A) :
  f (inl e) = false -> count f (List.map (fun _ => inl e) l) = 0%nat.
Proof.
  intros Hf. unfold count. induction l as [|x l IH]; [reflexivity|].
  cbn. now rewrite Hf.
Qed.

Lemma count_cons {A} (f : A -> bool) x l :
  count f (x :: l) = ((if f x then 1 else 0) + count f l)%nat.
Proof. unfold count. cbn. now destruct (f x). Qed.

Lemma succeeds_joined g : succeeds (inr (g, successfullyJoined)) = true.
Proof. reflexivity. Qed.

Lemma completes_joined g :
  completes (inr (g, successfullyJoined))
  = bool_decide (GroupBuy.status g = completed).
Proof. reflexivity. Qed.

Lemma isParticipant_push u u' now g :
  u <> u' ->
  GroupBuy.isParticipant u' (GroupBuy.push (mkParticipant u now) g)
  = GroupBuy.isParticipant u' g.
Proof.
  intros Hne. unfold GroupBuy.isParticipant. cbn. rewrite existsb_app. cbn.
  destruct (Nat.eqb_spec u u'); [contradiction|]. now rewrite !orb_false_r.
Qed.

Lemma runAll_joins w gid g joins :
  findGroupBuy gid (groupBuys w) = Some g ->
  GroupBuy.status g = active ->
  Z.of_nat (length (GroupBuy.participants g)) < GroupBuy.threshold g ->
  Forall (fun j => (GroupBuy.expiryDate g <? fst j) = false) joins ->
  NoDup (List.map snd joins) ->
  Forall (fun j => GroupBuy.isParticipant (snd j) g = false) joins ->
  exists g',
    findGroupBuy gid (groupBuys (snd (runAll (racers gid joins) w))) = Some g'
    /\ length (GroupBuy.participants g')
       = (length (GroupBuy.participants g)
          + count succeeds (fst (runAll (racers gid joins) w)))%nat
    /\ count completes (fst (runAll (racers gid joins) w))
       = if decide (GroupBuy.threshold g
                    <= Z.of_nat (length (GroupBuy.participants g) + length joins))
         then 1%nat else 0%nat.
Proof.
  revert w g. induction joins as [|[now u] js IH];
    intros w g Hg Hst Hlt Hexp Hnd Hnew.
  - exists g. cbn. rewrite !Nat.add_0_r. split; [assumption|].
    split; [reflexivity|]. destruct (decide _); [lia|reflexivity].
  - apply Forall_cons in Hexp as [Hexp Hexps].
    apply Forall_cons in Hnew as [Hnew Hnews].
    cbn in Hnd. apply NoDup_cons in Hnd as [Hu Hnd]. cbn in Hexp, Hnew.
    pose proof (findGroupBuy_id _ _ _ Hg) as Hid.
    assert (Hg1 : findGroupBuy gid (groupBuys (afterJoin now u g w))
                  = Some (joined now u g)).
    { cbn. rewrite <- Hid, <- (joined_id now u g).
      apply findGroupBuy_replace_same with g. now rewrite joined_id, Hid. }
    cbn [racers List.map runAll fst snd].
    rewrite (run_join_new _ _ _ _ g Hg Hst Hexp Hnew). fold (racers gid js).
    destruct (Z_lt_le_dec (Z.of_nat (S (length (GroupBuy.participants g))))
                          (GroupBuy.threshold g)) as [Hbelow|Hreach].
    + rewrite (joined_below now u g Hbelow) in *.
      destruct (IH (afterJoin now u g w)
                   (GroupBuy.push (mkParticipant u now) g)) as (g' & Hg' & Hlen & Hc).
      * assumption.
      * assumption.
      * cbn. rewrite length_app. cbn. lia.
      * assumption.
      * assumption.
      * apply List.Forall_forall. intros [now' u'] Hin. cbn [snd].
        rewrite isParticipant_push.
        -- rewrite List.Forall_forall in Hnews. apply (Hnews _ Hin).
        -- intros ->. apply Hu. apply list_elem_of_In.
           apply in_map_iff. now exists (now', u').
      * destruct (runAll (racers gid js) (afterJoin now u g w)) as [rs w2].
        cbn [fst snd] in *. exists g'. split; [assumption|].
        rewrite !count_cons, succeeds_joined, completes_joined.
        change (GroupBuy.status (GroupBuy.push (mkParticipant u now) g))
          with (GroupBuy.status g).
        rewrite Hst. rewrite bool_decide_eq_false_2 by discriminate.
        rewrite Hlen, Hc. cbn [GroupBuy.participants GroupBuy.push GroupBuy.threshold].
        rewrite length_app. cbn [length]. split; [lia|].
        repeat destruct (decide _); (reflexivity || lia).
    + rewrite (joined_reached now u g Hst Hreach) in *.
      rewrite (runAll_joins_inactive _ gid _ js Hg1) by discriminate.
      cbn [fst snd]. eexists. split; [exact Hg1|].
      rewrite !count_cons, succeeds_joined, completes_joined.
      rewrite bool_decide_eq_true_2 by reflexivity.
      rewrite !count_turned_away by reflexivity.
      change (GroupBuy.participants
                (complete now (GroupBuy.push (mkParticipant u now) g)))
        with (GroupBuy.participants g ++ [mkParticipant u now]).
      rewrite length_app. cbn [length]. split; [lia|].
      destruct (decide _); [reflexivity|lia].
Qed.

(** ** Calls that start after a group buy stopped being active *)

Lemma holds_same gid g w w' :
  groupBuys w' = groupBuys w -> nextId w' = nextId w ->
  holds gid g w -> holds gid g w'.
Proof.
  intros Hgs Hnext [Hids Hg]. split; [|now rewrite Hgs].
  apply uniqueIds_ids with w; [now rewrite Hgs|assumption..].
Qed.

Lemma holds_saved_other faulty gid g g2 w :
  GroupBuy._id g2 <> gid ->
  holds gid g w -> holds gid g (snd (exec faulty (GroupBuySave g2) w)).
Proof.
  intros Hne [Hids Hg]. cbn. unfold write.
  destruct (faulty GroupBuys); cbn; [now split|]. split.
  - apply uniqueIds_ids with w; [apply replaceGroupBuy_ids|reflexivity|assumption].
  - cbn. now rewrite findGroupBuy_replace_other.
Qed.

Lemma holds_inserted faulty gid g draft w :
  (forall id, GroupBuy._id (draft id) = id) ->
  holds gid g w -> holds gid g (snd (exec faulty (GroupBuyInsert draft) w)).
Proof.
  intros Hdraft [[Hnd Hlt] Hg]. cbn.
  destruct (GroupBuy.valid _); [|now repeat split]. unfold write.
  destruct (faulty GroupBuys); cbn; [now repeat split|]. split; [split|]; cbn.
  - rewrite List.map_app. cbn. rewrite Hdraft.
    apply NoDup_app. split; [assumption|]. split; [|apply NoDup_singleton].
    intros i Hi Hi'. apply list_elem_of_singleton in Hi'. subst i.
    apply list_elem_of_In, in_map_iff in Hi as [g0 [Hid Hin]].
    rewrite List.Forall_forall in Hlt. specialize (Hlt g0 Hin). lia.
  - apply Forall_app. split.
    + eapply Forall_impl; [exact Hlt|]. cbn. intros; lia.
    + apply Forall_singleton. rewrite Hdraft. lia.
  - now apply findGroupBuy_app_found.
Qed.

Lemma holds_foreign faulty gid g {R} (op : Db R) w :
  foreign op = true ->
  holds gid g w -> holds gid g (snd (exec faulty op w)).
Proof.
  destruct op; cbn; try discriminate; intros _ H; try assumption;
    unfold write; destruct (faulty _); cbn; try assumption;
    now apply holds_same with w.
Qed.

Lemma exec_trace faulty {R} (op : Db R) w gid :
  exists evs, trace (snd (exec faulty op w)) = trace w ++ evs
              /\ notifiedFor gid evs = [].
Proof.
  destruct op; cbn; try (exists []; now rewrite app_nil_r);
    try (destruct (GroupBuy.valid _); [|exists []; now rewrite app_nil_r]);
    unfold write; destruct (faulty _); cbn;
    try (exists []; now rewrite app_nil_r); eexists; split; reflexivity.
Qed.

Lemma turn_spares faulty gid g {A} (p : Prog A) w :
  Spares gid g p -> holds gid g w ->
  Spares gid g (fst (turn faulty p w))
  /\ holds gid g (snd (turn faulty p w))
  /\ exists evs, trace (snd (turn faulty p w)) = trace w ++ evs
                 /\ notifiedFor gid evs = [].
Proof.
  intros Hp. revert w.
  induction Hp as [a|e|gid' n k Hne Hk IH|R op k Hholds Hnext]; intros w Hw.
  - split; [constructor|]. split; [assumption|]. exists []. now rewrite app_nil_r.
  - split; [constructor|]. split; [assumption|]. exists []. now rewrite app_nil_r.
  - cbn [turn].
    destruct (IH (emit (Notified gid' n) w)) as (Hs & Hh & evs & Htr & Hevs).
    { now apply holds_same with w. }
    split; [assumption|]. split; [assumption|].
    exists (Notified gid' n :: evs). rewrite Htr. cbn.
    rewrite <- app_assoc. split; [reflexivity|].
    destruct (Nat.eqb_spec gid' gid); [contradiction|assumption].
  - cbn [turn]. specialize (Hholds faulty w Hw). specialize (Hnext faulty w).
    destruct (exec_trace faulty op w gid) as (evs & Htr & Hevs).
    destruct (exec faulty op w) as [[e|r] w']; cbn [fst snd] in *.
    + split; [constructor|]. split; [assumption|]. now exists evs.
    + split; [now apply Hnext|]. split; [assumption|]. now exists evs.
Qed.

Lemma schedule_spares faulty gid g {A} s (calls : list (Prog A)) w :
  Forall (Spares gid g) calls -> holds gid g w ->
  Forall (Spares gid g) (fst (schedule faulty s calls w))
  /\ holds gid g (snd (schedule faulty s calls w))
  /\ exists evs, trace (snd (schedule faulty s calls w)) = trace w ++ evs
                 /\ notifiedFor gid evs = [].
Proof.
  revert calls w. induction s as [|i s IH]; intros calls w Hcalls Hw.
  - split; [assumption|]. split; [assumption|]. exists []. now rewrite app_nil_r.
  - cbn [schedule]. destruct (calls !! i) as [p|] eqn:Hp; [|now apply IH].
    assert (Hsp : Spares gid g p).
    { rewrite List.Forall_forall in Hcalls. apply Hcalls.
      apply list_elem_of_In. now apply list_elem_of_lookup_2 with i. }
    destruct (turn_spares faulty gid g p w Hsp Hw) as (Hp' & Hw' & evs & Htr & Hevs).
    destruct (turn faulty p w) as [p' w']. cbn [fst snd] in *.
    destruct (IH (<[i := p']> calls) w') as (Hc & Hh & evs' & Htr' & Hevs').
    { now apply Forall_insert. }
    { assumption. }
    split; [assumption|]. split; [assumption|].
    exists (evs ++ evs'). rewrite Htr', Htr, <- app_assoc. split; [reflexivity|].
    now rewrite notifiedFor_app, Hevs, Hevs'.
Qed.

(** *** The service spares a group buy that is no longer active *)

Lemma andThen_spares gid g {A B} (p : Prog A) (f : A -> Prog B) :
  Spares gid g p -> (forall a, Spares gid g (f a)) -> Spares gid g (andThen p f).
Proof.
  intros Hp Hf.
  induction Hp as [a|e|gid' n k Hne Hk IH|R op k Hholds Hnext IH]; cbn.
  - apply Hf.
  - constructor.
  - now constructor.
  - constructor; [assumption|]. intros faulty w r Hw Hr. now apply (IH faulty w).
Qed.

Lemma notifyParticipants_spares gid g {A} (g' : GroupBuy.t) (k : Prog A) :
  GroupBuy._id g' <> gid -> Spares gid g k -> Spares gid g (notifyParticipants g' k).
Proof.
  intros Hne Hk. unfold notifyParticipants.
  induction (GroupBuy.participants g') as [|p ps IH]; [assumption|].
  cbn. now constructor.
Qed.

(** One [await] of an operation that leaves the group buys alone. *)
Ltac spares_foreign r :=
  apply SparesAwait;
  [ intros; apply holds_foreign; [reflexivity|assumption] | intros _ _ r _ _ ].

Lemma join_spares gid g now gid' u :
  GroupBuy.status g <> active -> Spares gid g (joinGroupBuy now gid' u).
Proof.
  intros Hst. unfold joinGroupBuy. apply SparesAwait.
  { intros. now apply holds_foreign. }
  intros faulty w r [Hids Hg] Hr. cbn in Hr. injection Hr as <-.
  destruct (findGroupBuy gid' (groupBuys w)) as [g2|] eqn:Hg2; [|constructor].
  destruct (decide (GroupBuy.status g2 = active)) as [Hact|Hact].
  2: { rewrite bool_decide_eq_false_2 by assumption. constructor. }
  rewrite bool_decide_eq_true_2 by assumption. cbn [negb].
  assert (Hne : GroupBuy._id g2 <> gid).
  { intros E. apply findGroupBuy_id in Hg2 as E'. congruence. }
  destruct (GroupBuy.expiryDate g2 <? now).
  { apply SparesAwait; [|constructor].
    intros. now apply holds_saved_other. }
  destruct (GroupBuy.isParticipant u g2); [constructor|].
  assert (Hsave : forall (g' : GroupBuy.t) (product : option Product.t),
             GroupBuy._id g' <> gid ->
             Spares gid g
               (let! _ := await GroupBuySave g' in
                let! user := await UserFindById u in
                match user, product with
                | Some user, Some product =>
                    let! _ := await UserSave
                      (User.push (participationIn g' now product) user) in
                    Return (g', successfullyJoined)
                | _, _ => Return (g', successfullyJoined)
                end)).
  { intros g' product Hne'. apply SparesAwait.
    { intros. now apply holds_saved_other. }
    intros _ _ _ _ _. spares_foreign user.
    destruct user as [usr|]; [|constructor].
    destruct product as [p|]; [|constructor].
    spares_foreign saved. constructor. }
  cbv zeta. spares_foreign item.
  destruct item as [p|].
  - spares_foreign saved.
    destruct (thresholdReached _);
      [apply notifyParticipants_spares; [assumption|]|];
      apply (Hsave _ (Some _)); assumption.
  - destruct (thresholdReached _);
      [apply notifyParticipants_spares; [assumption|]|];
      apply (Hsave _ None); assumption.
Qed.

Lemma create_spares gid g zone now pid u :
  GroupBuy.status g <> active -> Spares gid g (createGroupBuy zone now pid u).
Proof.
  intros Hst. unfold createGroupBuy. spares_foreign item.
  destruct item as [p|]; [|constructor].
  destruct (negb _); [constructor|]. spares_foreign existing.
  destruct existing as [existing|].
  { apply andThen_spares; [now apply join_spares|constructor]. }
  cbv zeta. spares_foreign saved. apply SparesAwait.
  { intros. now apply holds_inserted. }
  intros _ _ savedGroupBuy _ _. spares_foreign user.
  destruct user as [usr|]; [|constructor]. spares_foreign saved'. constructor.
Qed.

Lemma expireEach_spares gid g {A} (gs : list GroupBuy.t) (k : Prog A) :
  Forall (fun g2 => GroupBuy._id g2 <> gid) gs ->
  Spares gid g k -> Spares gid g (expireEach gs k).
Proof.
  intros Hgs Hk. induction gs as [|g2 gs IH]; [assumption|].
  apply Forall_cons in Hgs as [Hne Hgs]. cbn [expireEach].
  apply SparesAwait; [intros; now apply holds_saved_other|].
  intros _ _ _ _ _. spares_foreign updated. spares_foreign reset. now apply IH.
Qed.

Lemma check_spares gid g now :
  GroupBuy.status g <> active ->
  Spares gid g (checkAndUpdateExpiredGroupBuys now).
Proof.
  intros Hst. unfold checkAndUpdateExpiredGroupBuys. apply SparesAwait.
  { intros. now apply holds_foreign. }
  intros faulty w r [[Hnd _] Hg] Hr. cbn in Hr. injection Hr as <-.
  apply expireEach_spares; [|constructor].
  apply List.Forall_forall. intros g2 Hin E.
  apply filter_In in Hin as [Hin Hov].
  unfold isOverdue in Hov. apply andb_true_iff in Hov as [Hact _].
  apply bool_decide_eq_true in Hact.
  rewrite (findGroupBuy_unique gid _ g2 Hnd Hin E) in Hg. congruence.
Qed.

Lemma program_spares gid g c :
  GroupBuy.status g <> active -> Spares gid g (program c).
Proof.
  intros Hst. destruct c; cbn [program]; apply andThen_spares;
    solve [now apply create_spares | now apply join_spares
          | now apply check_spares | constructor].
Qed.

(** Whatever calls start once group buy [gid] is no longer active, however
    their turns interleave and whatever writes the store refuses: the
    document stays as it is, no notification is sent for it, and a
    [joinGroupBuy] on it is turned away. *)
Lemma inactive_is_final faulty gid g w cs s :
  uniqueIds w ->
  findGroupBuy gid (groupBuys w) = Some g ->
  GroupBuy.status g <> active ->
  let w' := snd (schedule faulty s (List.map program cs) w) in
  findGroupBuy gid (groupBuys w') = Some g
  /\ notifiedFor gid (since w w') = []
  /\ forall now u,
       run faulty (joinGroupBuy now gid u) w'
       = (inl (CannotJoin (GroupBuy.status g)), w').
Proof.
  intros Hids Hg Hst w'.
  destruct (schedule_spares faulty gid g s (List.map program cs) w)
    as (_ & [_ Hg'] & evs & Htr & Hevs).
  { apply List.Forall_forall. intros p Hin.
    apply in_map_iff in Hin as [c [<- _]]. now apply program_spares. }
  { now split. }
  split; [assumption|]. split; [now rewrite (since_app _ _ evs)|].
  intros now u. now apply run_join_inactive.
Qed.

(** ** The scenarios of the spec *)

(** Product with threshold 3: user 1 opens the group buy, user 2 joins (two
    participants, still active), user 3 joins (three participants,
    completed, three notifications), and a fourth user is turned away. *)
Lemma scenario_threshold :
  statusOf 100 afterA = Some active
  /\ counterOf 7 afterA = Some 1%nat
  /\ statusOf 100 afterB = Some active
  /\ counterOf 7 afterB = Some 2%nat
  /\ statusOf 100 afterC = Some completed
  /\ (GroupBuy.completedAt <$> findGroupBuy 100 (groupBuys afterC))
     = Some (Some 3000)
  /\ List.map recipient (notifiedFor 100 (trace afterC)) = [1; 2; 3]%nat
  /\ run reliable (joinGroupBuy 4000 100 4) afterC
     = (inl (CannotJoin completed), afterC).
Proof. repeat split; vm_compute; reflexivity. Qed.

(** One participant, and the sweeper eight days later: the group buy and
    the participant's record are expired and the product's counter is 0. *)
Lemma scenario_expiry :
  run reliable (checkAndUpdateExpiredGroupBuys eightDaysOn) afterA
  = (inr 1%nat, perform (CheckAndUpdateExpiredGroupBuys eightDaysOn) afterA)
  /\ statusOf 100 (perform (CheckAndUpdateExpiredGroupBuys eightDaysOn) afterA)
     = Some expired
  /\ List.map Participation.status
       (recordsOf 1 100 (perform (CheckAndUpdateExpiredGroupBuys eightDaysOn) afterA))
     = [expired]
  /\ counterOf 7 (perform (CheckAndUpdateExpiredGroupBuys eightDaysOn) afterA)
     = Some 0%nat.
Proof. repeat split; vm_compute; reflexivity. Qed.

(** * The claims *)

(** ** C1: the product's counter *)

(** What [joinGroupBuy] leaves in the counter: the participants after the
    push, whether or not the call completed the group buy. *)
Lemma join_sets_counter w now u g p :
  keyed w ->
  products w !! GroupBuy.productId g = Some p ->
  counterOf (GroupBuy.productId g) (afterJoin now u g w)
  = Some (S (length (GroupBuy.participants g))).
Proof.
  intros [Hk _] Hp. unfold counterOf, afterJoin. cbn [products].
  rewrite Hp. cbn [fmap option_fmap option_map].
  change (Product._id (Product.with_currentParticipants
            (length (GroupBuy.participants (GroupBuy.push (mkParticipant u now) g))) p))
    with (Product._id p).
  rewrite (Hk _ _ Hp), lookup_insert_eq. cbn.
  rewrite length_app. cbn. f_equal. lia.
Qed.

(** C1: in the spec's scenario (threshold 3; users 1, 2 and 3 ask for the
    bottle one after another) the third call completes the group buy.  The
    product then has no active group buy, and its counter says 3. *)
Theorem C1_counter_after_completion :
  afterC = performAll [CreateGroupBuy universal 1000 7 1; CreateGroupBuy universal 2000 7 2;
                       CreateGroupBuy universal 3000 7 3] shop
  /\ statusOf 100 afterC = Some completed
  /\ List.map GroupBuy._id (groupBuys afterC) = [100%nat]
  /\ activeParticipants 7 afterC = 0%nat
  /\ counterOf 7 afterC = Some 3%nat.
Proof. repeat split; vm_compute; reflexivity. Qed.

(** ** C2: racing joins *)

(** What the race shows: both calls resolve with 'Successfully joined group
    buy' and a group buy they have set to completed themselves, and users 1
    and 2 are notified twice. *)
Lemma race_observed :
  let r := schedule reliable bothReadFirst
             (racers 100 [(3000, 3%nat); (3000, 4%nat)]) afterB in
  (count completes <$> mapM settled (fst r)) = Some 2%nat
  /\ (count succeeds <$> mapM settled (fst r)) = Some 2%nat
  /\ List.map recipient (notifiedFor 100 (since afterB (snd r)))
     = [1; 2; 3; 1; 2; 4]%nat.
Proof. repeat split; vm_compute; reflexivity. Qed.

(** C2, as stated, fails: the bottle's group buy has two participants and
    a threshold of three.  When users 3 and 4 join it at the same time and
    both calls read the document before either saves it, each call finds
    two participants, pushes its own user, sees the threshold reached and
    sets the status to completed: two calls perform the transition. *)
Lemma C2_counterexample :
  ~ raceIsLinearizable afterB 100 [(3000, 3%nat); (3000, 4%nat)] bothReadFirst.
Proof.
  intros H. edestruct H as [Hone _]; [vm_compute; reflexivity|].
  vm_compute in Hone. discriminate Hone.
Qed.

(** C2, amended: when calls of [joinGroupBuy] on an active group buy, by
    distinct users who are not yet participants and none past the expiry
    date, take their turns one call after another (each call runs to its
    end before the next call starts), all of them end; at most one of them
    performs the transition to completed, and exactly one does when the
    calls bring the participants to the threshold; and the stored group buy
    in the end has the participants it had plus one for every call that
    joined.  (Calls turned away after the completion join nobody.) *)
Theorem C2_serial_joins w gid g joins :
  wellFormed w ->
  findGroupBuy gid (groupBuys w) = Some g ->
  GroupBuy.status g = active ->
  Forall (fun j => ~ (GroupBuy.expiryDate g < fst j)) joins ->
  NoDup (List.map snd joins) ->
  Forall (fun j => GroupBuy.isParticipant (snd j) g = false) joins ->
  exists replies w' g',
    schedule reliable (serial 0 (racers gid joins) w) (racers gid joins) w
    = (List.map ended replies, w')
    /\ mapM settled (List.map ended replies) = Some replies
    /\ (count completes replies <= 1)%nat
    /\ (count completes replies = 1%nat <->
        GroupBuy.threshold g
        <= Z.of_nat (length (GroupBuy.participants g) + length joins))
    /\ findGroupBuy gid (groupBuys w') = Some g'
    /\ length (GroupBuy.participants g')
       = (length (GroupBuy.participants g) + count succeeds replies)%nat.
Proof.
  intros [_ Hsound] Hg Hst Hexp Hnd Hnew.
  destruct (findGroupBuy_sound _ _ _ Hsound Hg) as [_ Hlt]. specialize (Hlt Hst).
  destruct (runAll_joins w gid g joins Hg Hst Hlt) as (g' & Hg' & Hlen & Hc);
    [|assumption|assumption|].
  { eapply Forall_impl; [exact Hexp|]. cbn. intros j Hj.
    now apply Z.ltb_ge, Z.nlt_ge. }
  exists (fst (runAll (racers gid joins) w)), (snd (runAll (racers gid joins) w)), g'.
  split; [apply (schedule_serial [] (racers gid joins) w)|].
  split; [apply settled_ended|].
  rewrite Hc. split; [destruct (decide _); lia|].
  split; [destruct (decide _); split; (assumption || reflexivity || lia)|].
  split; assumption.
Qed.

Lemma C2_serial_joins_witness :
  exists g,
    wellFormed afterB
    /\ findGroupBuy 100 (groupBuys afterB) = Some g
    /\ GroupBuy.status g = active
    /\ Forall (fun j => ~ (GroupBuy.expiryDate g < fst j))
              [(3000, 3%nat); (3000, 4%nat)]
    /\ NoDup (List.map snd [(3000, 3%nat); (3000, 4%nat)])
    /\ Forall (fun j => GroupBuy.isParticipant (snd j) g = false)
              [(3000, 3%nat); (3000, 4%nat)]
    /\ exists replies w' g',
         schedule reliable
           (serial 0 (racers 100 [(3000, 3%nat); (3000, 4%nat)]) afterB)
           (racers 100 [(3000, 3%nat); (3000, 4%nat)]) afterB
         = (List.map ended replies, w')
         /\ count completes replies = 1%nat
         /\ findGroupBuy 100 (groupBuys w') = Some g'
         /\ length (GroupBuy.participants g')
            = (2 + count succeeds replies)%nat.
Proof.
  eexists.
  assert (Hwf : wellFormed afterB).
  { apply (performAll_wellFormed
             [CreateGroupBuy universal 1000 7 1; CreateGroupBuy universal 2000 7 2] shop).
    apply shop_wellFormed. }
  assert (Hexp : Forall (fun j : Z * nat => ~ (604801000 < fst j))
                        [(3000, 3%nat); (3000, 4%nat)]).
  { repeat constructor; cbn; lia. }
  assert (Hnd : NoDup (List.map snd [(3000, 3%nat); (3000, 4%nat)])).
  { cbn. apply NoDup_cons. split; [|apply NoDup_singleton].
    intros Hin. apply list_elem_of_singleton in Hin. discriminate Hin. }
  split; [exact Hwf|].
  split; [vm_compute; reflexivity|].
  split; [reflexivity|]. split; [exact Hexp|]. split; [exact Hnd|].
  split; [repeat constructor|].
  edestruct (C2_serial_joins afterB 100) as
    (replies & w' & g' & Hs & _ & _ & Hone & Hg' & Hlen);
    [exact Hwf|vm_compute; reflexivity|reflexivity|exact Hexp|exact Hnd
    |repeat constructor|].
  exists replies, w', g'. split; [exact Hs|].
  split; [apply Hone; cbn; lia|]. split; [exact Hg'|exact Hlen].
Defined.

(** ** C3: the participation record of a join *)

(** C3, as stated, fails: when user 2 joins the bottle's group buy as its
    second participant, the record says 1.5, which is none of the figures of
    the impact calculation for two participants (5 in total: 3 on the
    product and 2 on shipping; 0.4 on packaging). *)
Lemma C3_counterexample : ~ savingUsesCountAfterJoin afterA 2000 100 2.
Proof.
  intros H.
  destruct (run reliable (joinGroupBuy 2000 100 2) afterA) as [[e|[g' m]] w'] eqn:Hrun;
    vm_compute in Hrun; [discriminate Hrun|].
  injection Hrun as <- <- <-.
  edestruct H as [_ Hsaving]; [reflexivity|vm_compute; reflexivity|reflexivity
                              |vm_compute; reflexivity|].
  vm_compute in Hsaving.
  destruct Hsaving as [E|[E|[E|E]]]; discriminate E.
Qed.

(** C3, amended: a successful [joinGroupBuy] of a user not yet in the
    participants, when the user and the product documents exist, pushes one
    record on that user's participation list.  Its status is the status the
    group buy has after the call.  Its [potentialCarbonSaving] is the
    product's carbon footprint (10 when it is missing or zero) times the
    product's [carbonSavingPercent] divided by 100: the participant count
    does not enter it. *)
Theorem C3_participation_record w now gid u g p usr :
  keyed w ->
  findGroupBuy gid (groupBuys w) = Some g ->
  GroupBuy.status g = active ->
  ~ (GroupBuy.expiryDate g < now) ->
  GroupBuy.isParticipant u g = false ->
  products w !! GroupBuy.productId g = Some p ->
  users w !! u = Some usr ->
  exists g' w' r,
    run reliable (joinGroupBuy now gid u) w = (inr (g', successfullyJoined), w')
    /\ findGroupBuy gid (groupBuys w') = Some g'
    /\ users w' !! u = Some (User.push r usr)
    /\ Participation.groupId r = gid
    /\ Participation.status r = GroupBuy.status g'
    /\ Participation.potentialCarbonSaving r
       = (orElse (Product.carbonFootprint p) defaultFootprint
          * Product.carbonSavingPercent (Product.groupBuying p) / 100)%float.
Proof.
  intros [_ Hkeyed] Hg Hst Hexp Hnew Hp Hu.
  apply Z.nlt_ge, Z.ltb_ge in Hexp.
  pose proof (findGroupBuy_id _ _ _ Hg) as Hid. subst gid.
  exists (joined now u g), (afterJoin now u g w).
  eexists. split; [now apply run_join_new|]. split.
  { cbn. rewrite <- (joined_id now u g).
    apply findGroupBuy_replace_same with g. now rewrite joined_id. }
  unfold afterJoin. cbn [users]. rewrite Hp, Hu. cbn [fmap option_fmap option_map].
  rewrite (Hkeyed u usr Hu). rewrite lookup_insert_eq.
  split; [reflexivity|]. split; [apply joined_id|]. split; reflexivity.
Qed.

Lemma C3_participation_record_witness :
  exists g p usr,
    keyed afterA
    /\ findGroupBuy 100 (groupBuys afterA) = Some g
    /\ GroupBuy.status g = active
    /\ ~ (GroupBuy.expiryDate g < 2000)
    /\ GroupBuy.isParticipant 2 g = false
    /\ products afterA !! GroupBuy.productId g = Some p
    /\ users afterA !! 2%nat = Some usr
    /\ exists g' w' r,
         run reliable (joinGroupBuy 2000 100 2) afterA
         = (inr (g', successfullyJoined), w')
         /\ users w' !! 2%nat = Some (User.push r usr)
         /\ Participation.status r = GroupBuy.status g'
         /\ Participation.potentialCarbonSaving r = 1.5%float.
Proof.
  assert (Hkeyed : keyed afterA).
  { apply (performAll_keyed [CreateGroupBuy universal 1000 7 1] shop). apply shop_keyed. }
  eexists. eexists. eexists.
  split; [exact Hkeyed|].
  split; [vm_compute; reflexivity|].
  split; [reflexivity|]. split; [cbn; lia|]. split; [reflexivity|].
  split; [vm_compute; reflexivity|]. split; [vm_compute; reflexivity|].
  edestruct (C3_participation_record afterA 2000 100 2) as
    (g' & w' & r & Hrun & _ & Hu & _ & Hst & Hsaving);
    [exact Hkeyed|vm_compute; reflexivity|reflexivity|cbn; lia|reflexivity
    |vm_compute; reflexivity|vm_compute; reflexivity|].
  exists g', w', r. split; [exact Hrun|]. split; [exact Hu|]. split; [exact Hst|].
  rewrite Hsaving. vm_compute. reflexivity.
Defined.

(** ** C4: expiry found by a join *)

(** C4: user 1 opened the bottle's group buy; eight days later, past the
    expiry date and before any sweep, user 2 calls [joinGroupBuy].  The call
    sets the status to expired, saves the document and throws 'This group
    buy has expired', and that is all it writes: the record of user 1 still
    says active and the product's counter still says 1.  The sweep that
    follows no longer selects the group buy, so it reconciles nothing and
    the two views stay as they are. *)
Theorem C4_lazy_expiry_leaves_views_stale :
  let w' := perform (JoinGroupBuy eightDaysOn 100 2) afterA in
  run reliable (joinGroupBuy eightDaysOn 100 2) afterA = (inl GroupBuyExpired, w')
  /\ since afterA w' = [Wrote GroupBuys 100]
  /\ statusOf 100 w' = Some expired
  /\ List.map Participation.status (recordsOf 1 100 w') = [active]
  /\ counterOf 7 w' = Some 1%nat
  /\ forall later,
       run reliable (checkAndUpdateExpiredGroupBuys later) w' = (inr 0%nat, w').
Proof.
  cbv zeta. split; [vm_compute; reflexivity|].
  split; [vm_compute; reflexivity|]. split; [vm_compute; reflexivity|].
  split; [vm_compute; reflexivity|]. split; [vm_compute; reflexivity|].
  intros later. rewrite run_check. reflexivity.
Qed.

(** ** C5: the threshold *)

(** C5: a call of [joinGroupBuy] by a new participant of an active group buy
    that is not past its expiry date adds that participant, and the stored
    document is never taken past its threshold N.  While the participants
    are fewer than N the status stays active and [completedAt] is not
    touched.  On the call that makes them N the status becomes completed and
    [completedAt] is the time of that call.  Whatever calls start after
    that, however their turns interleave and whatever writes the store
    refuses, the document is found exactly as that call left it, so
    [completedAt] is never set again, and every [joinGroupBuy] on it throws
    'Cannot join a completed group buy' and changes nothing. *)
Theorem C5_threshold_exactness w now gid u g :
  wellFormed w ->
  findGroupBuy gid (groupBuys w) = Some g ->
  GroupBuy.status g = active ->
  ~ (GroupBuy.expiryDate g < now) ->
  GroupBuy.isParticipant u g = false ->
  exists g' w',
    run reliable (joinGroupBuy now gid u) w = (inr (g', successfullyJoined), w')
    /\ findGroupBuy gid (groupBuys w') = Some g'
    /\ GroupBuy.participants g' = GroupBuy.participants g ++ [mkParticipant u now]
    /\ GroupBuy.threshold g' = GroupBuy.threshold g
    /\ Z.of_nat (length (GroupBuy.participants g')) <= GroupBuy.threshold g
    /\ (Z.of_nat (length (GroupBuy.participants g')) < GroupBuy.threshold g ->
        GroupBuy.status g' = active
        /\ GroupBuy.completedAt g' = GroupBuy.completedAt g)
    /\ (Z.of_nat (length (GroupBuy.participants g')) = GroupBuy.threshold g ->
        GroupBuy.status g' = completed
        /\ GroupBuy.completedAt g' = Some now
        /\ forall faulty cs s,
             let w'' := snd (schedule faulty s (List.map program cs) w') in
             findGroupBuy gid (groupBuys w'') = Some g'
             /\ forall now' u',
                  run faulty (joinGroupBuy now' gid u') w''
                  = (inl (CannotJoin completed), w'')).
Proof.
  intros Hwf Hg Hst Hexp Hnew.
  apply Z.nlt_ge, Z.ltb_ge in Hexp.
  exists (joined now u g), (afterJoin now u g w).
  pose proof (findGroupBuy_id _ _ _ Hg) as Hid.
  assert (Hg' : findGroupBuy gid (groupBuys (afterJoin now u g w))
                = Some (joined now u g)).
  { cbn. rewrite <- Hid, <- (joined_id now u g).
    apply findGroupBuy_replace_same with g. now rewrite joined_id, Hid. }
  destruct Hwf as [Hids Hsound].
  destruct (findGroupBuy_sound _ _ _ Hsound Hg) as [_ Hlt]. specialize (Hlt Hst).
  rewrite joined_participants, length_app. cbn [length].
  rewrite Nat.add_1_r.
  split; [now apply run_join_new|].
  split; [assumption|]. split; [reflexivity|].
  split; [apply joined_threshold|]. split; [lia|]. split.
  - intros Hbelow. now rewrite joined_below.
  - intros Hreach. rewrite joined_reached in * by (assumption || lia).
    split; [reflexivity|]. split; [reflexivity|]. intros faulty cs s.
    assert (Hw' : uniqueIds (afterJoin now u g w)).
    { apply (Step_uniqueIds w); [|assumption]. now apply StepJoin with gid. }
    destruct (inactive_is_final faulty gid _ _ cs s Hw' Hg') as (Hfinal & _ & Hjoin);
      [discriminate|].
    split; [exact Hfinal|exact Hjoin].
Qed.

Lemma C5_threshold_exactness_witness :
  exists g,
    wellFormed afterB
    /\ findGroupBuy 100 (groupBuys afterB) = Some g
    /\ GroupBuy.status g = active
    /\ ~ (GroupBuy.expiryDate g < 3000)
    /\ GroupBuy.isParticipant 3 g = false
    /\ exists g' w',
         run reliable (joinGroupBuy 3000 100 3) afterB
         = (inr (g', successfullyJoined), w')
         /\ GroupBuy.status g' = completed
         /\ GroupBuy.completedAt g' = Some 3000
         /\ forall cs s now' u',
              run reliable (joinGroupBuy now' 100 u')
                  (snd (schedule reliable s (List.map program cs) w'))
              = (inl (CannotJoin completed),
                 snd (schedule reliable s (List.map program cs) w')).
Proof.
  eexists.
  assert (Hwf : wellFormed afterB).
  { apply (performAll_wellFormed
             [CreateGroupBuy universal 1000 7 1; CreateGroupBuy universal 2000 7 2] shop).
    apply shop_wellFormed. }
  split; [exact Hwf|].
  split; [vm_compute; reflexivity|].
  split; [reflexivity|]. split; [cbn; lia|]. split; [reflexivity|].
  edestruct (C5_threshold_exactness afterB 3000 100 3) as
    (g' & w' & Hrun & _ & Hps & _ & _ & _ & Hreach);
    [exact Hwf|vm_compute; reflexivity|reflexivity|cbn; lia|reflexivity|].
  exists g', w'. split; [exact Hrun|].
  destruct Hreach as (Hst & Hat & Hlater); [rewrite Hps; reflexivity|].
  split; [exact Hst|]. split; [exact Hat|].
  intros cs s now' u'. apply (Hlater reliable cs s).
Defined.

(** ** C6: the notifications *)

(** What a call made again shows.  User 3 joins the bottle's group buy,
    which has two participants and a threshold of three, while the store
    refuses writes to the group buys: users 1, 2 and 3 are notified, the
    save throws, and the stored group buy is still active with its two
    participants.  User 3 makes the call again and the store accepts: the
    group buy is completed and all three are notified a second time. *)
Lemma retry_observed :
  let refused := run groupBuysDown (joinGroupBuy 3000 100 3) afterB in
  let again := run reliable (joinGroupBuy 3100 100 3) (snd refused) in
  fst refused = inl WriteFailed
  /\ groupBuys (snd refused) = groupBuys afterB
  /\ List.map recipient (notifiedFor 100 (since afterB (snd refused)))
     = [1; 2; 3]%nat
  /\ completes (fst again) = true
  /\ List.map recipient (notifiedFor 100 (since afterB (snd again)))
     = [1; 2; 3; 1; 2; 3]%nat.
Proof. repeat split; vm_compute; reflexivity. Qed.

(** C6, as stated, fails: the source sends the notifications before it
    saves the completed group buy.  After the call of user 3 that the store
    refused to save, the call made again notifies users 1, 2 and 3 once
    more. *)
Lemma C6_counterexample :
  ~ notifiesOnce afterB 100
      [(groupBuysDown, 3000, 3%nat); (reliable, 3100, 3%nat)].
Proof.
  unfold notifiesOnce. intros H.
  assert (Hsent : List.map recipient
                    (notifiedFor 100
                       (since afterB
                          (fold_left (attempt 100)
                             [(groupBuysDown, 3000, 3%nat);
                              (reliable, 3100, 3%nat)] afterB)))
                  = [1; 2; 3; 1; 2; 3]%nat)
    by (vm_compute; reflexivity).
  rewrite Hsent in H. apply NoDup_cons in H as [Hfresh _].
  apply Hfresh. repeat constructor.
Qed.

(** C6, amended: take a call of [joinGroupBuy] by a new participant of an
    active group buy that is not past its expiry date, served with no write
    refused.  While the participants stay below the threshold the call
    sends no notification.  When the call makes them reach the threshold
    the group buy is completed and the call sends one 'Group Buy
    Successful!' notification to each participant, in order, no participant
    twice, each carrying the product id, the product name and the discount
    percent of the group buy.  Whatever calls start after that call has
    ended ([createGroupBuy], [joinGroupBuy] with any arguments, the expiry
    check), however their turns interleave and whatever writes the store
    refuses, none of them sends a notification for this group buy again.
    The notifications are sent before the group buy is saved: had the
    store accepted the save of the product and refused that of the group
    buy, the call would have sent the same notifications, thrown, and left
    the stored group buys as they were, this one still active. *)
Theorem C6_notified_at_completion w now gid u g :
  wellFormed w ->
  findGroupBuy gid (groupBuys w) = Some g ->
  GroupBuy.status g = active ->
  ~ (GroupBuy.expiryDate g < now) ->
  GroupBuy.isParticipant u g = false ->
  exists g' w',
    run reliable (joinGroupBuy now gid u) w = (inr (g', successfullyJoined), w')
    /\ GroupBuy.participants g' = GroupBuy.participants g ++ [mkParticipant u now]
    /\ (Z.of_nat (length (GroupBuy.participants g')) < GroupBuy.threshold g ->
        notifiedFor gid (since w w') = [])
    /\ (Z.of_nat (length (GroupBuy.participants g')) = GroupBuy.threshold g ->
        GroupBuy.status g' = completed
        /\ notifiedFor gid (since w w')
           = List.map (successNotification g') (GroupBuy.participants g')
        /\ List.map recipient (notifiedFor gid (since w w'))
           = List.map userId (GroupBuy.participants g')
        /\ NoDup (List.map userId (GroupBuy.participants g'))
        /\ Forall (fun n => product n = GroupBuy.productId g
                            /\ title n = "Group Buy Successful!"
                            /\ messageProductName n = GroupBuy.productName g
                            /\ messageDiscountPercent n = GroupBuy.discountPercent g)
                  (notifiedFor gid (since w w'))
        /\ (forall faulty cs s,
              notifiedFor gid
                (since w' (snd (schedule faulty s (List.map program cs) w')))
              = [])
        /\ (forall faulty,
              faulty Products = false ->
              faulty GroupBuys = true ->
              exists w'',
                run faulty (joinGroupBuy now gid u) w = (inl WriteFailed, w'')
                /\ groupBuys w'' = groupBuys w
                /\ notifiedFor gid (since w w'')
                   = List.map (successNotification g') (GroupBuy.participants g'))).
Proof.
  intros Hwf Hg Hst Hexp Hnew.
  apply Z.nlt_ge, Z.ltb_ge in Hexp.
  exists (joined now u g), (afterJoin now u g w).
  pose proof (findGroupBuy_id _ _ _ Hg) as Hid. subst gid.
  split; [now apply run_join_new|].
  split; [apply joined_participants|].
  rewrite afterJoin_notified.
  rewrite joined_participants, length_app. cbn [length]. rewrite Nat.add_1_r.
  split.
  - intros Hbelow. destruct (thresholdReached _) eqn:Hthr; [|reflexivity].
    apply thresholdReached_iff in Hthr as [Hle _]. cbn in Hle.
    rewrite length_app in Hle. cbn in Hle. lia.
  - intros Hreach.
    assert (Hthr : thresholdReached (GroupBuy.push (mkParticipant u now) g) = true).
    { apply thresholdReached_iff. cbn. rewrite length_app. cbn.
      split; [lia|assumption]. }
    rewrite Hthr.
    assert (Hsound : sound (joined now u g)).
    { apply joined_sound; [|assumption].
      destruct Hwf as [_ Hs].
      now apply (findGroupBuy_sound (GroupBuy._id g) (groupBuys w)). }
    assert (Hj : joined now u g = complete now (GroupBuy.push (mkParticipant u now) g)).
    { apply joined_reached; [assumption|lia]. }
    split; [now rewrite Hj|]. split; [reflexivity|].
    split; [now rewrite List.map_map|].
    split; [rewrite <- (joined_participants now u g); apply Hsound|].
    split; [|split].
    + apply List.Forall_map, List.Forall_forall. intros p _.
      rewrite Hj. now cbn.
    + intros faulty cs s.
      assert (Hw' : uniqueIds (afterJoin now u g w)).
      { apply (Step_uniqueIds w);
          [now apply StepJoin with (GroupBuy._id g)|apply Hwf]. }
      assert (Hg' : findGroupBuy (GroupBuy._id g) (groupBuys (afterJoin now u g w))
                    = Some (joined now u g)).
      { cbn. rewrite <- (joined_id now u g).
        apply findGroupBuy_replace_same with g. now rewrite joined_id. }
      apply (inactive_is_final faulty _ _ _ cs s Hw' Hg'). now rewrite Hj.
    + intros faulty HP HG.
      destruct (run_join_refused faulty w now (GroupBuy._id g) u g Hg Hst Hexp
                  Hnew HP HG) as (w'' & Hrun & Hsame & Hsent).
      rewrite Hthr, joined_participants in Hsent. now exists w''.
Qed.

Lemma C6_notified_at_completion_witness :
  exists g,
    wellFormed afterB
    /\ findGroupBuy 100 (groupBuys afterB) = Some g
    /\ GroupBuy.status g = active
    /\ ~ (GroupBuy.expiryDate g < 3000)
    /\ GroupBuy.isParticipant 3 g = false
    /\ exists g' w',
         run reliable (joinGroupBuy 3000 100 3) afterB
         = (inr (g', successfullyJoined), w')
         /\ List.map recipient (notifiedFor 100 (since afterB w')) = [1; 2; 3]%nat
         /\ forall cs s,
              notifiedFor 100
                (since w' (snd (schedule reliable s (List.map program cs) w')))
              = [].
Proof.
  eexists.
  assert (Hwf : wellFormed afterB).
  { apply (performAll_wellFormed
             [CreateGroupBuy universal 1000 7 1;
              CreateGroupBuy universal 2000 7 2] shop).
    apply shop_wellFormed. }
  split; [exact Hwf|].
  split; [vm_compute; reflexivity|].
  split; [reflexivity|]. split; [cbn; lia|]. split; [reflexivity|].
  edestruct (C6_notified_at_completion afterB 3000 100 3) as
    (g' & w' & Hrun & Hps & _ & Hreach);
    [exact Hwf|vm_compute; reflexivity|reflexivity|cbn; lia|reflexivity|].
  exists g', w'. split; [exact Hrun|].
  destruct Hreach as (_ & _ & Hto & _ & _ & Hlater & _);
    [rewrite Hps; reflexivity|].
  split; [|exact (Hlater reliable)]. rewrite Hto, Hps. reflexivity.
Defined.

(** ** C7: joining twice *)

(** C7, as stated, fails: in the spec's scenario, once the third user has
    joined and the group buy is completed, a participant who joins again is
    turned away with 'Cannot join a completed group buy'. *)
Lemma C7_counterexample : ~ joinIsIdempotentAt afterC 4000 100 1.
Proof.
  intros H.
  destruct (findGroupBuy 100 (groupBuys afterC)) as [g|] eqn:Hg;
    [|vm_compute in Hg; discriminate Hg].
  destruct (H g Hg) as [m Hm].
  - vm_compute in Hg. injection Hg as <-. discriminate.
  - vm_compute in Hg. injection Hg as <-. reflexivity.
  - vm_compute in Hm. discriminate Hm.
Qed.

(** C7, amended: for every group buy with status active whose expiry date has
    not passed and every user already in its participants, [joinGroupBuy]
    resolves with the document it found and the message 'You are already
    participating in this group buy', and the world (group buys, product
    counters, participation records, writes and notifications) is exactly as
    before, whether or not the store accepts writes.  (On a group buy that
    is not active the status check comes first and the call throws.) *)
Theorem C7_join_again_is_idempotent faulty w now gid u g :
  findGroupBuy gid (groupBuys w) = Some g ->
  GroupBuy.status g = active ->
  ~ (GroupBuy.expiryDate g < now) ->
  GroupBuy.isParticipant u g = true ->
  run faulty (joinGroupBuy now gid u) w = (inr (g, alreadyParticipating), w).
Proof.
  intros Hg Hst Hexp Hmem. apply run_join_member; try assumption.
  now apply Z.ltb_ge, Z.nlt_ge.
Qed.

Lemma C7_join_again_is_idempotent_witness :
  exists g,
    findGroupBuy 100 (groupBuys afterB) = Some g
    /\ GroupBuy.status g = active
    /\ ~ (GroupBuy.expiryDate g < 2500)
    /\ GroupBuy.isParticipant 1 g = true
    /\ run reliable (joinGroupBuy 2500 100 1) afterB
       = (inr (g, alreadyParticipating), afterB).
Proof.
  eexists. split; [vm_compute; reflexivity|].
  split; [reflexivity|]. split; [cbn; lia|]. split; [reflexivity|].
  apply C7_join_again_is_idempotent; [reflexivity|reflexivity|cbn; lia|reflexivity].
Defined.

(** ** C8: the order of the writes *)

Lemma follows_notifications c seen g evs :
  follows c seen (notifications g ++ evs) = follows c seen evs.
Proof.
  unfold notifications.
  induction (GroupBuy.participants g) as [|p ps IH]; [reflexivity|apply IH].
Qed.

(** C8, as stated, fails: while the store refuses writes to the group buys,
    [createGroupBuy] for the bottle throws, and by then it has saved the
    product with its counter set to 1: the counter is written before the
    group buy, not after. *)
Lemma C8_counterexample :
  ~ viewsFollowGroupBuy groupBuysDown (createGroupBuy universal 1000 7 1) shop.
Proof.
  intros (Hproducts & _). vm_compute in Hproducts. discriminate Hproducts.
Qed.

Lemma refused_write_changes_counter :
  let r := run groupBuysDown (createGroupBuy universal 1000 7 1) shop in
  fst r = inl WriteFailed
  /\ since shop (snd r) = [Wrote Products 7]
  /\ counterOf 7 shop = Some 0%nat
  /\ counterOf 7 (snd r) = Some 1%nat
  /\ groupBuys (snd r) = [].
Proof. repeat split; vm_compute; reflexivity. Qed.

Lemma follows_only_notifications c seen g :
  follows c seen (notifications g) = true.
Proof.
  unfold notifications.
  induction (GroupBuy.participants g) as [|p ps IH]; [reflexivity|apply IH].
Qed.

Lemma wrote_notifications c g evs :
  wrote c (notifications g ++ evs) = wrote c evs.
Proof.
  unfold notifications.
  induction (GroupBuy.participants g) as [|p ps IH]; [reflexivity|apply IH].
Qed.

Lemma wrote_only_notifications c g : wrote c (notifications g) = false.
Proof.
  unfold notifications.
  induction (GroupBuy.participants g) as [|p ps IH]; [reflexivity|apply IH].
Qed.

(** The events a call added, read off the world it left. *)
Ltac events_since :=
  first
    [ rewrite since_refl
    | erewrite since_app by (cbn; rewrite <- ?app_assoc; reflexivity) ].

Ltac settle_order :=
  cbn [snd]; events_since; cbn;
  rewrite ?follows_notifications, ?follows_only_notifications,
          ?wrote_notifications, ?wrote_only_notifications;
  cbn; repeat split; intros;
  first [ reflexivity | congruence
        | match goal with H : _ = false |- _ => cbv in H; discriminate H end ].

Lemma join_logFollowsGroupBuy faulty w now gid u :
  logFollowsGroupBuy faulty (joinGroupBuy now gid u) w.
Proof.
  unfold logFollowsGroupBuy, joinGroupBuy. cbn [run exec].
  destruct (findGroupBuy gid (groupBuys w)) as [g|]; [|settle_order].
  destruct (bool_decide (GroupBuy.status g = active)); cbn [negb];
    [|settle_order].
  destruct (GroupBuy.expiryDate g <? now).
  { cbn [run exec]. unfold write.
    destruct (faulty GroupBuys) eqn:HG; cbn [run]; settle_order. }
  destruct (GroupBuy.isParticipant u g); [settle_order|].
  cbn [run exec].
  destruct (products w !! _) as [p|]; cbn [run exec]; unfold write.
  1: destruct (faulty Products) eqn:HP; cbn [run]; [settle_order|].
  all: destruct (thresholdReached _); rewrite ?run_notifyParticipants;
    cbn [run exec]; unfold write.
  all: destruct (faulty GroupBuys) eqn:HG; cbn [run exec]; [settle_order|].
  all: cbn [users record emit].
  all: destruct (users w !! u) as [usr|]; cbn [run exec]; unfold write;
    [|settle_order].
  all: try (destruct (faulty Users) eqn:HU; cbn [run]; settle_order).
Qed.

Lemma create_logFollowsGroupBuy faulty w zone now pid u :
  logFollowsGroupBuy faulty (createGroupBuy zone now pid u) w.
Proof.
  unfold logFollowsGroupBuy, createGroupBuy. cbn [run exec].
  destruct (products w !! pid) as [p|]; [|settle_order].
  destruct (Product.enabled (Product.groupBuying p)); cbn [negb];
    [|settle_order].
  cbn [run exec].
  destruct (List.find (isActiveFor pid now) (groupBuys w)) as [g|].
  { rewrite run_andThen.
    pose proof (join_logFollowsGroupBuy faulty w now (GroupBuy._id g) u) as H.
    unfold logFollowsGroupBuy in H.
    now destruct (run faulty (joinGroupBuy _ _ _) w) as [[e|r] w']. }
  cbn [run exec]. unfold write.
  destruct (faulty Products) eqn:HP; cbn [run exec]; [settle_order|].
  destruct (GroupBuy.valid _); [|settle_order].
  unfold write. cbn [nextId emit].
  destruct (faulty GroupBuys) eqn:HG; cbn [run exec]; [settle_order|].
  cbn [users emit].
  destruct (users w !! u) as [usr|]; cbn [run exec]; unfold write;
    [|settle_order].
  destruct (faulty Users) eqn:HU; cbn [run]; settle_order.
Qed.

(** C8, amended: in every call of [createGroupBuy] and of [joinGroupBuy],
    whatever writes the store refuses, the user's participation list is
    written only after the group buy document was written; when no write of
    a group buy went through, the participation lists are as they were
    before the call; and no such write goes through while the store refuses
    writes to the group buys.  (The product's counter is saved first,
    before the group buy.) *)
Theorem C8_participation_log_follows_group_buy faulty w now u :
  (forall zone pid, logFollowsGroupBuy faulty (createGroupBuy zone now pid u) w)
  /\ (forall gid, logFollowsGroupBuy faulty (joinGroupBuy now gid u) w).
Proof.
  split; intros; [apply create_logFollowsGroupBuy|apply join_logFollowsGroupBuy].
Qed.

(** ** C9: the carbon impact calculation *)

Lemma impact_total gid f n c :
  totalCarbonSaved (impact gid f n c)
  = (shippingEmissionsSaved (impact gid f n c)
     + productCarbonSavings (impact gid f n c))%float
  /\ totalMaterialsSaved (impact gid f n c) = packagingSaved (impact gid f n c).
Proof. split; reflexivity. Qed.

Lemma impact_10_5_15 gid :
  impact gid 10 5 15 = mkImpact gid 5 8 1 7.5 15.5 1.
Proof. unfold impact. f_equal; vm_compute; reflexivity. Qed.

(** C9: the impact of a group buy with five participants and a carbon saving
    of 15 percent, on a product whose footprint is 10, does not depend on
    anything else in the world: the product saving is 7.5, the shipping
    saving 8, the packaging saving 1, and the total, which is the shipping
    saving plus the product saving, 15.5; the packaging saving is reported
    apart as the materials saved. *)
Theorem C9_impact_of_five_participants faulty (w : World) gid g p :
  findGroupBuy gid (groupBuys w) = Some g ->
  products w !! GroupBuy.productId g = Some p ->
  length (GroupBuy.participants g) = 5%nat ->
  GroupBuy.carbonSavingPercent g = 15%float ->
  Product.carbonFootprint p = Some 10%float ->
  exists i,
    run faulty (calculateGroupBuyImpact gid) w = (inr i, w)
    /\ productCarbonSavings i = 7.5%float
    /\ shippingEmissionsSaved i = 8%float
    /\ packagingSaved i = 1%float
    /\ totalCarbonSaved i = 15.5%float
    /\ totalCarbonSaved i
       = (shippingEmissionsSaved i + productCarbonSavings i)%float
    /\ totalMaterialsSaved i = packagingSaved i.
Proof.
  intros Hg Hp Hn Hc Hf.
  exists (mkImpact (GroupBuy._id g) 5 8 1 7.5 15.5 1).
  split; [|repeat split; vm_compute; reflexivity].
  unfold calculateGroupBuyImpact. cbn [run exec]. rewrite Hg. cbn [run exec].
  rewrite Hp, Hn, Hc, Hf. cbn [run].
  change (orElse (Some 10%float) defaultFootprint) with 10%float.
  now rewrite impact_10_5_15.
Qed.

Lemma C9_impact_of_five_participants_witness :
  exists g p,
    findGroupBuy 100 (groupBuys fiveInTheCrate) = Some g
    /\ products fiveInTheCrate !! GroupBuy.productId g = Some p
    /\ length (GroupBuy.participants g) = 5%nat
    /\ GroupBuy.carbonSavingPercent g = 15%float
    /\ Product.carbonFootprint p = Some 10%float
    /\ exists i,
         run reliable (calculateGroupBuyImpact 100) fiveInTheCrate
         = (inr i, fiveInTheCrate)
         /\ productCarbonSavings i = 7.5%float
         /\ shippingEmissionsSaved i = 8%float
         /\ packagingSaved i = 1%float
         /\ totalCarbonSaved i = 15.5%float
         /\ totalCarbonSaved i
            = (shippingEmissionsSaved i + productCarbonSavings i)%float
         /\ totalMaterialsSaved i = packagingSaved i.
Proof.
  eexists. eexists.
  split; [vm_compute; reflexivity|]. split; [vm_compute; reflexivity|].
  split; [reflexivity|]. split; [reflexivity|]. split; [reflexivity|].
  eapply C9_impact_of_five_participants; vm_compute; reflexivity.
Defined.

(** * Further properties of the service *)

(** ** The lifecycle of a document *)

Lemma replaceGroupBuy_Forall (P : GroupBuy.t -> Prop) g gs :
  P g -> Forall P gs -> Forall P (replaceGroupBuy g gs).
Proof.
  intros Hg Hgs. unfold replaceGroupBuy. apply List.Forall_map.
  eapply List.Forall_impl; [|exact Hgs]. intros g0 H0. cbn.
  now destruct (Nat.eqb _ _).
Qed.

Lemma findGroupBuy_Forall (P : GroupBuy.t -> Prop) gid gs g :
  Forall P gs -> findGroupBuy gid gs = Some g -> P g.
Proof.
  intros Hgs Hg. apply findGroupBuy_In in Hg.
  now apply (proj1 (List.Forall_forall P gs) Hgs).
Qed.

Lemma joined_coherent now u g :
  coherent g -> sound g -> GroupBuy.status g = active ->
  coherent (joined now u g).
Proof.
  intros (Hhd & Hmin & Hle & Hdone & Hat & Hnc) [_ Hbelow] Hst.
  specialize (Hbelow Hst).
  assert (Hnone : GroupBuy.completedAt g = None).
  { destruct (GroupBuy.completedAt g) eqn:E; [|reflexivity].
    assert (GroupBuy.status g = completed) by (apply Hat; congruence).
    congruence. }
  unfold joined. destruct (thresholdReached _) eqn:Hthr.
  - apply thresholdReached_iff in Hthr as [Hreach _].
    cbn in Hreach. rewrite length_app in Hreach. cbn in Hreach.
    unfold coherent, complete. cbn. rewrite length_app. cbn.
    destruct (GroupBuy.participants g); [discriminate Hhd|].
    cbn in *. repeat split; try assumption; try lia; try congruence.
  - unfold coherent. cbn. rewrite length_app. cbn. rewrite Hst, Hnone.
    destruct (GroupBuy.participants g); [discriminate Hhd|].
    cbn in *. repeat split; try assumption; try lia; try congruence.
Qed.

Lemma expired_coherent g :
  coherent g -> GroupBuy.status g = active ->
  coherent (GroupBuy.with_status expired g).
Proof.
  intros (Hhd & Hmin & Hle & Hdone & Hat & Hnc) Hst.
  unfold coherent. cbn. repeat split; try assumption; try congruence.
  intros Hsome. apply Hat in Hsome. congruence.
Qed.

Lemma newGroupBuy_coherent zone now pid u p id :
  2 <= Product.threshold (Product.groupBuying p) ->
  coherent (newGroupBuy zone now pid u p id).
Proof.
  intros Hmin. unfold coherent, newGroupBuy. cbn.
  repeat split; try assumption; try lia; try congruence.
Qed.

Lemma isOverdue_active now g : isOverdue now g = true -> GroupBuy.status g = active.
Proof.
  unfold isOverdue. intros H. apply andb_true_iff in H as [H _].
  now apply bool_decide_eq_true in H.
Qed.

Lemma afterSweep_Forall (P : GroupBuy.t -> Prop) gs w :
  Forall (fun g => P (GroupBuy.with_status expired g)) gs ->
  Forall P (groupBuys w) ->
  Forall P (groupBuys (fold_left afterExpiry gs w)).
Proof.
  revert w. induction gs as [|g gs IH]; intros w Hgs Hw; [exact Hw|].
  apply Forall_cons in Hgs as [Hg Hgs]. cbn [fold_left]. apply IH; [exact Hgs|].
  cbn. now apply replaceGroupBuy_Forall.
Qed.

Lemma Step_coherent w w' :
  Step w w' -> wellFormed w ->
  Forall coherent (groupBuys w) -> Forall coherent (groupBuys w').
Proof.
  intros Hstep [_ Hsound] Hco.
  destruct Hstep as [|now gid u g Hg Hst Hexp Hnew|now gid g Hg Hst Hexp
                     |zone now pid u p Hp Hen Hnone Hbad
                     |zone now pid u p Hp Hen Hnone Hok|now].
  - exact Hco.
  - cbn. apply replaceGroupBuy_Forall; [|exact Hco].
    apply joined_coherent; [|now apply (findGroupBuy_sound gid (groupBuys w))|exact Hst].
    now apply (findGroupBuy_Forall coherent gid (groupBuys w)).
  - cbn. apply replaceGroupBuy_Forall; [|exact Hco].
    apply expired_coherent; [|exact Hst].
    now apply (findGroupBuy_Forall coherent gid (groupBuys w)).
  - exact Hco.
  - cbn. apply Forall_app. split; [exact Hco|].
    constructor; [|constructor]. apply newGroupBuy_coherent.
    now apply valid_newGroupBuy in Hok.
  - unfold afterSweep. apply afterSweep_Forall; [|exact Hco].
    apply List.Forall_forall. intros g Hin. apply filter_In in Hin as [Hin Hov].
    apply expired_coherent; [|now apply isOverdue_active with now].
    now apply (proj1 (List.Forall_forall coherent (groupBuys w)) Hco).
Qed.

Lemma performAll_coherent cs w :
  wellFormed w -> Forall coherent (groupBuys w) ->
  wellFormed (performAll cs w) /\ Forall coherent (groupBuys (performAll cs w)).
Proof.
  revert w. induction cs as [|c cs IH]; intros w Hwf Hco; [now split|].
  change (performAll (c :: cs) w) with (performAll cs (perform c w)).
  apply IH.
  - apply (Step_wellFormed w); [apply perform_Step|exact Hwf].
  - apply (Step_coherent w); [apply perform_Step|exact Hwf|exact Hco].
Qed.

(** X1: start from any catalogue of products and any users, with no group
    buy yet, and serve any calls of [createGroupBuy], [joinGroupBuy] and
    [checkAndUpdateExpiredGroupBuys] one after another, the store accepting
    every write.  In the store that results, group buy ids are unique, no user is twice among the
    participants of a group buy, an active group buy is below its threshold,
    and every group buy has its initiator as first participant, a threshold
    of at least 2 that its participants do not exceed, a completion date
    exactly when it is completed, exactly threshold-many participants when
    it is completed, and a status other than cancelled. *)
Theorem served_calls_keep_documents_coherent cs products users nextId :
  let w := performAll cs (opening products users nextId) in
  wellFormed w /\ Forall coherent (groupBuys w).
Proof.
  apply performAll_coherent.
  - split; [split|]; cbn; constructor.
  - constructor.
Qed.

(** ** What a call keeps of the documents it finds *)

Lemma continues_refl g : continues g g.
Proof.
  unfold continues. repeat split; try reflexivity.
  exists []. now rewrite app_nil_r.
Qed.

Lemma continues_trans g1 g2 g3 :
  continues g1 g2 -> continues g2 g3 -> continues g1 g3.
Proof.
  intros (A1 & A2 & A3 & A4 & A5 & A6 & A7 & A8 & A9 & [m1 A10] & A11)
         (B1 & B2 & B3 & B4 & B5 & B6 & B7 & B8 & B9 & [m2 B10] & B11).
  unfold continues. repeat split; try congruence.
  - exists (m1 ++ m2). now rewrite B10, A10, app_assoc.
  - intros Hst. specialize (A11 Hst). subst g2. now apply B11.
Qed.

Lemma continues_joined now u g :
  GroupBuy.status g = active -> continues g (joined now u g).
Proof.
  intros Hst. unfold continues, joined.
  destruct (thresholdReached _); cbn; repeat split; try congruence;
    now exists [mkParticipant u now].
Qed.

Lemma continues_expired g :
  GroupBuy.status g = active -> continues g (GroupBuy.with_status expired g).
Proof.
  intros Hst. unfold continues. cbn. repeat split; try congruence.
  exists []. now rewrite app_nil_r.
Qed.

Lemma continues_swept now g : continues g (swept now g).
Proof.
  unfold swept. destruct (isOverdue now g) eqn:Hov; [|apply continues_refl].
  apply continues_expired. now apply isOverdue_active with now.
Qed.

Lemma swept_id now g : GroupBuy._id (swept now g) = GroupBuy._id g.
Proof. unfold swept. now destruct (isOverdue now g). Qed.

Lemma findGroupBuy_map (f : GroupBuy.t -> GroupBuy.t) gid gs :
  (forall g, GroupBuy._id (f g) = GroupBuy._id g) ->
  findGroupBuy gid (List.map f gs) = f <$> findGroupBuy gid gs.
Proof.
  intros Hid. unfold findGroupBuy.
  induction gs as [|g gs IH]; [reflexivity|]. cbn. rewrite Hid.
  destruct (Nat.eqb (GroupBuy._id g) gid); [reflexivity|apply IH].
Qed.

Lemma same_id_same_document gs g g0 :
  NoDup (List.map GroupBuy._id gs) -> In g gs -> In g0 gs ->
  GroupBuy._id g = GroupBuy._id g0 -> g = g0.
Proof.
  intros Hnd Hg Hg0 Hid.
  pose proof (findGroupBuy_unique (GroupBuy._id g) gs g Hnd Hg eq_refl) as H1.
  pose proof (findGroupBuy_unique (GroupBuy._id g) gs g0 Hnd Hg0 (eq_sym Hid)) as H2.
  congruence.
Qed.

(** The documents after the loop of the expiry check went through [l]. *)
Lemma expired_in_turn l w :
  groupBuys (fold_left afterExpiry l w)
  = fold_left (fun gs g => replaceGroupBuy (GroupBuy.with_status expired g) gs)
              l (groupBuys w).
Proof.
  revert w. induction l as [|g l IH]; intros w; [reflexivity|].
  cbn [fold_left]. now rewrite IH.
Qed.

Lemma expired_in_turn_map (b : GroupBuy.t -> bool) l gs :
  (forall g g0, In g l -> In g0 gs -> GroupBuy._id g = GroupBuy._id g0 -> g = g0) ->
  fold_left (fun gs g => replaceGroupBuy (GroupBuy.with_status expired g) gs) l
    (List.map (fun g0 => if b g0 then GroupBuy.with_status expired g0 else g0) gs)
  = List.map
      (fun g0 =>
         if b g0 || existsb (fun g => Nat.eqb (GroupBuy._id g) (GroupBuy._id g0)) l
         then GroupBuy.with_status expired g0 else g0) gs.
Proof.
  revert b. induction l as [|g l IH]; intros b Hsame.
  - cbn. apply map_ext. intros g0. now rewrite orb_false_r.
  - cbn [fold_left existsb].
    assert (Hstep :
      replaceGroupBuy (GroupBuy.with_status expired g)
        (List.map (fun g0 => if b g0 then GroupBuy.with_status expired g0 else g0) gs)
      = List.map
          (fun g0 =>
             if b g0 || Nat.eqb (GroupBuy._id g) (GroupBuy._id g0)
             then GroupBuy.with_status expired g0 else g0) gs).
    { unfold replaceGroupBuy. rewrite List.map_map. apply map_ext_in.
      intros g0 Hin. cbn [GroupBuy._id GroupBuy.with_status].
      assert (Hid0 : GroupBuy._id (if b g0 then GroupBuy.with_status expired g0 else g0)
                     = GroupBuy._id g0) by now destruct (b g0).
      rewrite Hid0.
      destruct (Nat.eqb_spec (GroupBuy._id g0) (GroupBuy._id g)) as [E|E].
      - rewrite (Hsame g g0 (or_introl eq_refl) Hin (eq_sym E)).
        rewrite Nat.eqb_refl, orb_true_r. reflexivity.
      - destruct (Nat.eqb_spec (GroupBuy._id g) (GroupBuy._id g0)); [congruence|].
        now rewrite orb_false_r. }
    rewrite Hstep, IH.
    + apply map_ext. intros g0. now rewrite orb_assoc.
    + intros g1 g0 Hin. apply Hsame. now right.
Qed.

(** The expiry check, as one pass over the stored documents. *)
Lemma afterSweep_groupBuys now w :
  NoDup (List.map GroupBuy._id (groupBuys w)) ->
  groupBuys (afterSweep now w) = List.map (swept now) (groupBuys w).
Proof.
  intros Hnd. unfold afterSweep. rewrite expired_in_turn.
  pose proof (expired_in_turn_map (fun _ => false)
                (List.filter (isOverdue now) (groupBuys w)) (groupBuys w)) as H.
  cbn [orb] in H. rewrite List.map_id in H. rewrite H.
  - apply map_ext_in. intros g0 Hin. unfold swept.
    destruct (isOverdue now g0) eqn:Hov.
    + replace (existsb _ _) with true; [reflexivity|]. symmetry.
      apply existsb_exists. exists g0. split; [|apply Nat.eqb_refl].
      apply filter_In. now split.
    + replace (existsb _ _) with false; [reflexivity|]. symmetry.
      apply not_true_is_false. intros Hex.
      apply existsb_exists in Hex as (g & Hg & Hid).
      apply filter_In in Hg as [Hg Hovg]. apply Nat.eqb_eq in Hid.
      rewrite (same_id_same_document _ g g0 Hnd Hg Hin Hid) in Hovg. congruence.
  - intros g g0 Hg Hg0. apply filter_In in Hg as [Hg _].
    now apply same_id_same_document with (groupBuys w).
Qed.

Lemma Step_continues w w' gid g :
  Step w w' -> uniqueIds w ->
  findGroupBuy gid (groupBuys w) = Some g ->
  exists g', findGroupBuy gid (groupBuys w') = Some g' /\ continues g g'.
Proof.
  intros Hstep [Hnd _] Hg.
  destruct Hstep as [|now gid0 u g0 Hg0 Hst Hexp Hnew|now gid0 g0 Hg0 Hst Hexp
                     |zone now pid u p Hp Hen Hnone Hbad
                     |zone now pid u p Hp Hen Hnone Hok|now].
  - exists g. split; [exact Hg|apply continues_refl].
  - pose proof (findGroupBuy_id _ _ _ Hg0) as Hid0. cbn [groupBuys afterJoin].
    destruct (Nat.eq_dec gid0 gid) as [->|Hne].
    + assert (g0 = g) by congruence. subst g0. exists (joined now u g).
      split; [|now apply continues_joined].
      rewrite <- Hid0, <- (joined_id now u g).
      apply findGroupBuy_replace_same with g. now rewrite joined_id, Hid0.
    + exists g. split; [|apply continues_refl].
      rewrite findGroupBuy_replace_other; [exact Hg|]. rewrite joined_id. congruence.
  - pose proof (findGroupBuy_id _ _ _ Hg0) as Hid0. cbn [groupBuys afterLazyExpiry].
    destruct (Nat.eq_dec gid0 gid) as [->|Hne].
    + assert (g0 = g) by congruence. subst g0.
      exists (GroupBuy.with_status expired g).
      split; [|now apply continues_expired].
      rewrite <- Hid0.
      change (GroupBuy._id g) with (GroupBuy._id (GroupBuy.with_status expired g)).
      apply findGroupBuy_replace_same with g. cbn. now rewrite Hid0.
    + exists g. split; [|apply continues_refl].
      rewrite findGroupBuy_replace_other; [exact Hg|]. cbn. congruence.
  - exists g. split; [exact Hg|apply continues_refl].
  - exists g. split; [|apply continues_refl]. cbn [groupBuys afterCreate].
    now apply findGroupBuy_app_found.
  - exists (swept now g). split; [|apply continues_swept].
    rewrite afterSweep_groupBuys by exact Hnd.
    rewrite findGroupBuy_map by apply swept_id. now rewrite Hg.
Qed.

(** X2: whatever calls are served one after another, the store accepting
    every write, a group buy document stays in the store under its id with the terms it was opened with
    (product, product name, initiator, threshold, discount and carbon saving
    percent, expiry date, creation date); participants are only ever added
    at the end of its list, none is removed or reordered; and a document
    that is no longer active is not changed at all. *)
Theorem documents_only_grow cs w gid g :
  uniqueIds w ->
  findGroupBuy gid (groupBuys w) = Some g ->
  exists g',
    findGroupBuy gid (groupBuys (performAll cs w)) = Some g' /\ continues g g'.
Proof.
  revert w g. induction cs as [|c cs IH]; intros w g Hu Hg.
  - exists g. split; [exact Hg|apply continues_refl].
  - change (performAll (c :: cs) w) with (performAll cs (perform c w)).
    destruct (Step_continues w (perform c w) gid g (perform_Step c w) Hu Hg)
      as (g1 & Hg1 & H1).
    destruct (IH (perform c w) g1) as (g2 & Hg2 & H2);
      [apply (Step_uniqueIds w); [apply perform_Step|exact Hu]|exact Hg1|].
    exists g2. split; [exact Hg2|]. now apply continues_trans with g1.
Qed.

Lemma documents_only_grow_witness :
  exists g g',
    uniqueIds afterA
    /\ findGroupBuy 100 (groupBuys afterA) = Some g
    /\ findGroupBuy 100
         (groupBuys (performAll [CreateGroupBuy universal 2000 7 2;
                                 CheckAndUpdateExpiredGroupBuys eightDaysOn;
                                 JoinGroupBuy (eightDaysOn + 1) 100 3] afterA))
       = Some g'
    /\ continues g g'
    /\ List.map userId (GroupBuy.participants g) = [1%nat]
    /\ List.map userId (GroupBuy.participants g') = [1%nat; 2%nat]
    /\ GroupBuy.status g' = expired.
Proof.
  assert (Hu : uniqueIds afterA).
  { apply (performAll_wellFormed [CreateGroupBuy universal 1000 7 1] shop), shop_wellFormed. }
  eexists. 
  destruct (documents_only_grow
              [CreateGroupBuy universal 2000 7 2; CheckAndUpdateExpiredGroupBuys eightDaysOn;
               JoinGroupBuy (eightDaysOn + 1) 100 3] afterA 100 _ Hu eq_refl)
    as (g' & Hg' & Hc).
  exists g'. split; [exact Hu|]. split; [reflexivity|].
  split; [exact Hg'|]. split; [exact Hc|]. split; [reflexivity|].
  vm_compute in Hg'. injection Hg' as <-. split; reflexivity.
Defined.

(** X3: a group buy that has stopped being active (it expired, was
    completed, or was cancelled) stays exactly as it is, under its id,
    whatever calls of the service take their turns afterwards, however their
    turns interleave and whatever writes the store refuses; no notification
    is sent for it, every [joinGroupBuy] on it throws 'Cannot join a ...
    group buy' and writes nothing, and [getActiveGroupBuysForProduct] never
    lists it. *)
Theorem closed_group_buy_stays_closed faulty w gid g cs s :
  uniqueIds w ->
  findGroupBuy gid (groupBuys w) = Some g ->
  GroupBuy.status g <> active ->
  let w' := snd (schedule faulty s (List.map program cs) w) in
  findGroupBuy gid (groupBuys w') = Some g
  /\ notifiedFor gid (since w w') = []
  /\ (forall now u,
        run faulty (joinGroupBuy now gid u) w'
        = (inl (CannotJoin (GroupBuy.status g)), w'))
  /\ (forall now pid, isActiveFor pid now g = false).
Proof.
  intros Hu Hg Hst w'.
  destruct (inactive_is_final faulty gid g w cs s Hu Hg Hst) as (H1 & H2 & H3).
  repeat split; try assumption.
  intros now pid. unfold isActiveFor.
  rewrite (bool_decide_eq_false_2 _ Hst). now rewrite andb_false_r.
Qed.

Lemma closed_group_buy_stays_closed_witness :
  let w := perform (CheckAndUpdateExpiredGroupBuys eightDaysOn) afterA in
  let calls := [JoinGroupBuy (eightDaysOn + 5) 100 2;
                CreateGroupBuy universal (eightDaysOn + 5) 7 3;
                CheckAndUpdateExpiredGroupBuys (eightDaysOn + 9)] in
  let s := [0; 1; 2; 1; 0; 1; 2; 1; 1; 1]%nat in
  exists g,
    uniqueIds w
    /\ findGroupBuy 100 (groupBuys w) = Some g
    /\ GroupBuy.status g = expired
    /\ findGroupBuy 100
         (groupBuys (snd (schedule reliable s (List.map program calls) w)))
       = Some g
    /\ List.map GroupBuy._id
         (groupBuys (snd (schedule reliable s (List.map program calls) w)))
       = [100; 101]%nat.
Proof.
  intros w calls s.
  assert (Hu : uniqueIds w).
  { apply (performAll_wellFormed
             [CreateGroupBuy universal 1000 7 1; CheckAndUpdateExpiredGroupBuys eightDaysOn]
             shop), shop_wellFormed. }
  eexists. split; [exact Hu|]. split; [vm_compute; reflexivity|].
  split; [reflexivity|]. split; [|vm_compute; reflexivity].
  apply (closed_group_buy_stays_closed reliable w 100 _ calls s Hu);
    [vm_compute; reflexivity|discriminate].
Defined.

(** ** The two queries *)

Lemma insertNewestFirst_In g g0 gs :
  In g0 (insertNewestFirst g gs) <-> g0 = g \/ In g0 gs.
Proof.
  induction gs as [|g1 gs IH]; cbn.
  - intuition.
  - destruct (GroupBuy.createdAt g1 <=? GroupBuy.createdAt g); cbn.
    + intuition.
    + rewrite IH. intuition.
Qed.

Lemma sortNewestFirst_In g gs : In g (sortNewestFirst gs) <-> In g gs.
Proof.
  induction gs as [|g1 gs IH]; cbn; [reflexivity|].
  rewrite insertNewestFirst_In, IH. intuition.
Qed.

Lemma insertNewestFirst_Permutation g gs :
  Permutation (insertNewestFirst g gs) (g :: gs).
Proof.
  induction gs as [|g1 gs IH]; cbn; [reflexivity|].
  destruct (GroupBuy.createdAt g1 <=? GroupBuy.createdAt g); [reflexivity|].
  rewrite IH. apply perm_swap.
Qed.

Lemma sortNewestFirst_Permutation gs : Permutation (sortNewestFirst gs) gs.
Proof.
  induction gs as [|g gs IH]; cbn; [reflexivity|].
  rewrite insertNewestFirst_Permutation. now rewrite IH.
Qed.

Lemma insertNewestFirst_sorted g gs :
  newestFirst gs = true -> newestFirst (insertNewestFirst g gs) = true.
Proof.
  induction gs as [|g1 gs IH]; [reflexivity|].
  cbn [newestFirst insertNewestFirst]. intros H.
  apply andb_true_iff in H as [Hall Hs].
  destruct (GroupBuy.createdAt g1 <=? GroupBuy.createdAt g) eqn:Hle.
  - cbn [newestFirst forallb]. rewrite Hle, Hall, Hs. cbn.
    rewrite andb_true_r. apply forallb_forall. intros g2 Hin.
    apply (proj1 (forallb_forall _ _) Hall) in Hin. lia.
  - cbn [newestFirst]. rewrite IH by exact Hs. rewrite andb_true_r.
    apply forallb_forall. intros g2 Hin.
    apply insertNewestFirst_In in Hin as [->|Hin]; [lia|].
    now apply (proj1 (forallb_forall _ _) Hall).
Qed.

Lemma sortNewestFirst_sorted gs : newestFirst (sortNewestFirst gs) = true.
Proof.
  induction gs as [|g gs IH]; [reflexivity|].
  cbn. now apply insertNewestFirst_sorted.
Qed.

Lemma find_none_filter {A} (f : A -> bool) l :
  List.find f l = None <-> List.filter f l = [].
Proof.
  induction l as [|x l IH]; cbn; [tauto|].
  destruct (f x); [split; discriminate|exact IH].
Qed.

Lemma isActiveFor_iff pid now g :
  isActiveFor pid now g = true <->
  GroupBuy.productId g = pid /\ GroupBuy.status g = active
  /\ now < GroupBuy.expiryDate g.
Proof.
  unfold isActiveFor. rewrite !andb_true_iff, Nat.eqb_eq, bool_decide_eq_true.
  rewrite Z.ltb_lt. tauto.
Qed.

Lemma no_active_group_buy now pid w :
  getActiveGroupBuysForProduct now pid w = [] <->
  List.find (isActiveFor pid now) (groupBuys w) = None.
Proof.
  unfold getActiveGroupBuysForProduct. rewrite find_none_filter. split.
  - intros Hnil. apply Permutation_nil_r. rewrite <- Hnil. symmetry.
    apply sortNewestFirst_Permutation.
  - intros Hnil. now rewrite Hnil.
Qed.

(** X4: [getActiveGroupBuysForProduct], called at time [now], resolves to
    the stored group buys of the product that have status active and an
    expiry date after [now], each as often as it is stored and no other
    document, the newest first; and it resolves to the empty list exactly
    when [createGroupBuy] at that time finds no group buy to join and opens
    a new one. *)
Theorem active_group_buys_of_a_product now pid w :
  (forall g,
     In g (getActiveGroupBuysForProduct now pid w) <->
     In g (groupBuys w) /\ GroupBuy.productId g = pid
     /\ GroupBuy.status g = active /\ now < GroupBuy.expiryDate g)
  /\ Permutation (getActiveGroupBuysForProduct now pid w)
                 (List.filter (isActiveFor pid now) (groupBuys w))
  /\ newestFirst (getActiveGroupBuysForProduct now pid w) = true
  /\ (getActiveGroupBuysForProduct now pid w = [] <->
      fst (exec reliable (GroupBuyFindOneActive pid now) w) = inr None).
Proof.
  unfold getActiveGroupBuysForProduct. split; [|split; [|split; [|split]]].
  - intros g. rewrite sortNewestFirst_In, filter_In, isActiveFor_iff. tauto.
  - apply sortNewestFirst_Permutation.
  - apply sortNewestFirst_sorted.
  - intros Hnil. cbn. f_equal.
    now apply (no_active_group_buy now pid w).
  - cbn. intros Hnone. injection Hnone as Hnone.
    now apply (no_active_group_buy now pid w).
Qed.

(** ** Opening a group buy, and asking for the same product again *)

Lemma findGroupBuy_fresh n gs :
  Forall (fun g => (GroupBuy._id g < n)%nat) gs -> findGroupBuy n gs = None.
Proof.
  unfold findGroupBuy. induction 1 as [|g gs Hg _ IH]; [reflexivity|].
  cbn. destruct (Nat.eqb_spec (GroupBuy._id g) n); [lia|exact IH].
Qed.

Lemma findGroupBuy_app_new gid gs g :
  findGroupBuy gid gs = None -> GroupBuy._id g = gid ->
  findGroupBuy gid (gs ++ [g]) = Some g.
Proof.
  unfold findGroupBuy. intros Hnone Hid.
  induction gs as [|g0 gs IH]; cbn in *.
  - now rewrite Hid, Nat.eqb_refl.
  - destruct (Nat.eqb (GroupBuy._id g0) gid); [discriminate|now apply IH].
Qed.

Lemma replaceGroupBuy_absent g gs :
  findGroupBuy (GroupBuy._id g) gs = None -> replaceGroupBuy g gs = gs.
Proof.
  unfold findGroupBuy, replaceGroupBuy.
  induction gs as [|g0 gs IH]; [reflexivity|]. cbn.
  destruct (Nat.eqb (GroupBuy._id g0) (GroupBuy._id g)); [discriminate|].
  intros H. now rewrite IH.
Qed.


(** X5: [createGroupBuy] for a product with group buying enabled and a
    threshold of at least 2, at a time when the product has no active group
    buy with an expiry date still ahead (a group buy past its date that no
    expiry check has marked yet does not count), opens one, provided the
    expiry date it computes is within the range of dates.  That date is
    the date of the call moved on by [expiryDays] calendar days in the
    local time of the server: the same local time of day, which across a
    change to or from daylight saving is not a whole number of 24 hours
    after the call.  The call resolves to the new document: it has a fresh
    id, the terms of the product, that expiry date, the caller as initiator
    and only participant, and status active.  It is added to the store,
    whose other documents stay as they are, and can be found by its id;
    the product's counter is 1; the caller's participation list gets one
    more record, for this group buy, with status active and the product's
    potential saving; [getUserGroupBuys] lists the document for the
    caller; and, when the expiry date is after the call,
    [getActiveGroupBuysForProduct] at that time lists exactly this
    document. *)
Theorem createGroupBuy_opens_a_group_buy w zone now pid u p usr :
  let settings := Product.groupBuying p in
  let expiryDate :=
    UTC zone (LocalTime zone now + Product.expiryDays settings * msPerDay) in
  keyed w ->
  uniqueIds w ->
  products w !! pid = Some p ->
  Product.enabled settings = true ->
  2 <= Product.threshold settings ->
  - maxTime <= expiryDate <= maxTime ->
  getActiveGroupBuysForProduct now pid w = [] ->
  users w !! u = Some usr ->
  let g :=
    GroupBuy.mk (nextId w) pid (Product.name p) u (Product.threshold settings)
      (Product.discountPercent settings) (Product.carbonSavingPercent settings)
      expiryDate [mkParticipant u now] active None now in
  let r :=
    Participation.mk (nextId w) pid (Product.name p) now active
      (orElse (Product.carbonFootprint p) defaultFootprint
       * Product.carbonSavingPercent settings / 100)%float in
  exists w',
    run reliable (createGroupBuy zone now pid u) w = (inr (Saved g), w')
    /\ findGroupBuy (nextId w) (groupBuys w) = None
    /\ groupBuys w' = groupBuys w ++ [g]
    /\ findGroupBuy (nextId w) (groupBuys w') = Some g
    /\ counterOf pid w' = Some 1%nat
    /\ users w' !! u = Some (User.push r usr)
    /\ In g (getUserGroupBuys u w')
    /\ (now < expiryDate -> getActiveGroupBuysForProduct now pid w' = [g]).
Proof.
  intros settings expiryDate [Hkp Hku] [Hnd Hlt] Hp Hen Hthr Hdate Hnone Hu g r.
  pose proof (proj1 (no_active_group_buy now pid w) Hnone) as Hfind.
  pose proof (Hkp _ _ Hp) as Hpid. pose proof (Hku _ _ Hu) as Huid.
  pose proof (findGroupBuy_fresh _ _ Hlt) as Hfresh.
  assert (Hvalid : GroupBuy.valid (newGroupBuy zone now pid u p (nextId w)) = true).
  { apply valid_newGroupBuy. split; [exact Hthr|]. now apply isDate_iff. }
  exists (afterCreate zone now pid u p w).
  split; [now apply run_create_new|].
  split; [exact Hfresh|].
  split; [reflexivity|].
  split; [now apply findGroupBuy_app_new|].
  split.
  { unfold counterOf. cbn [products afterCreate Product._id
                           Product.with_currentParticipants].
    rewrite Hpid. now rewrite lookup_insert_eq. }
  split.
  { cbn [users afterCreate]. rewrite Hu, Huid. now rewrite lookup_insert_eq. }
  split.
  { unfold getUserGroupBuys. apply sortNewestFirst_In, filter_In.
    cbn [groupBuys afterCreate]. split; [apply in_or_app; right; now left|].
    unfold GroupBuy.isParticipant. cbn. now rewrite Nat.eqb_refl. }
  intros Hahead. unfold getActiveGroupBuysForProduct.
  cbn [groupBuys afterCreate]. rewrite List.filter_app.
  rewrite (proj1 (find_none_filter _ _) Hfind). cbn [app List.filter].
  replace (isActiveFor pid now (newGroupBuy zone now pid u p (nextId w)))
    with true; [reflexivity|].
  symmetry. apply isActiveFor_iff. unfold newGroupBuy. cbn.
  repeat split. exact Hahead.
Qed.

Lemma createGroupBuy_opens_a_group_buy_witness :
  let zone := summerTimeFrom (3 * msPerDay) in
  exists g w',
    keyed shop /\ uniqueIds shop
    /\ products shop !! 7%nat = Some bottle
    /\ Product.enabled (Product.groupBuying bottle) = true
    /\ 2 <= Product.threshold (Product.groupBuying bottle)
    /\ - maxTime
       <= UTC zone (LocalTime zone 1000
                    + Product.expiryDays (Product.groupBuying bottle) * msPerDay)
       <= maxTime
    /\ getActiveGroupBuysForProduct 1000 7 shop = []
    /\ users shop !! 1%nat = Some (newcomer 1)
    /\ run reliable (createGroupBuy zone 1000 7 1) shop = (inr (Saved g), w')
    /\ GroupBuy._id g = 100%nat
    /\ GroupBuy.expiryDate g = 1000 + 7 * 86400000 - 3600000
    /\ findGroupBuy 100 (groupBuys w') = Some g
    /\ counterOf 7 w' = Some 1%nat
    /\ getActiveGroupBuysForProduct 1000 7 w' = [g].
Proof.
  intros zone.
  assert (Hdate : - maxTime
                  <= UTC zone (LocalTime zone 1000
                               + Product.expiryDays (Product.groupBuying bottle)
                                 * msPerDay)
                  <= maxTime)
    by (vm_compute; split; discriminate).
  destruct (createGroupBuy_opens_a_group_buy shop zone 1000 7 1 bottle
              (newcomer 1))
    as (w' & Hrun & _ & _ & Hfind & Hcount & _ & _ & Hactive);
    [apply shop_keyed|apply shop_wellFormed|reflexivity|reflexivity|cbn; lia
    |exact Hdate|reflexivity|reflexivity|].
  eexists. exists w'.
  split; [apply shop_keyed|]. split; [apply shop_wellFormed|].
  split; [reflexivity|]. split; [reflexivity|]. split; [cbn; lia|].
  split; [exact Hdate|].
  split; [reflexivity|]. split; [reflexivity|].
  split; [exact Hrun|]. split; [reflexivity|]. split; [reflexivity|].
  split; [exact Hfind|]. split; [exact Hcount|].
  apply Hactive. vm_compute. reflexivity.
Defined.

Lemma isActiveFor_earlier pid now now' g :
  now <= now' -> isActiveFor pid now' g = true -> isActiveFor pid now g = true.
Proof. rewrite !isActiveFor_iff. intros Hle (H1 & H2 & H3). repeat split; try assumption. lia. Qed.

Lemma find_none_earlier pid now now' gs :
  now <= now' ->
  List.find (isActiveFor pid now) gs = None ->
  List.find (isActiveFor pid now') gs = None.
Proof.
  intros Hle. induction gs as [|g gs IH]; [reflexivity|]. cbn.
  destruct (isActiveFor pid now g) eqn:E; [discriminate|].
  destruct (isActiveFor pid now' g) eqn:E'; [|exact IH].
  apply (isActiveFor_earlier pid now now' g Hle) in E'. congruence.
Qed.




(** ** Calls that are turned away *)

Lemma market_keyed : keyed market.
Proof.
  split; cbn; intros k x Hx;
    repeat (apply lookup_insert_Some in Hx as [[<- <-]|[_ Hx]]; [reflexivity|]);
    now rewrite lookup_empty in Hx.
Qed.

(** X7: [createGroupBuy] for a product id that is not in the catalogue
    throws 'Product not found', and for a product whose group buying is not
    enabled it throws 'Group buying is not enabled for this product'; in
    both cases, whether or not the store accepts writes, the world is left
    exactly as it was: no document, counter or participation record is
    written and no notification is sent. *)
Theorem createGroupBuy_refuses faulty w zone now pid u :
  (forall p, products w !! pid = Some p ->
             Product.enabled (Product.groupBuying p) = false) ->
  run faulty (createGroupBuy zone now pid u) w
  = (inl match products w !! pid with
         | Some _ => GroupBuyingNotEnabled
         | None => ProductNotFound
         end, w).
Proof.
  intros Hoff. destruct (products w !! pid) as [p|] eqn:Hp.
  - apply run_create_disabled with p; [exact Hp|now apply Hoff].
  - now apply run_create_missing.
Qed.

Lemma createGroupBuy_refuses_witness :
  products market !! 9%nat = Some soap
  /\ Product.enabled (Product.groupBuying soap) = false
  /\ run reliable (createGroupBuy universal 1000 9 1) market
     = (inl GroupBuyingNotEnabled, market)
  /\ products market !! 11%nat = None
  /\ run groupBuysDown (createGroupBuy universal 1000 11 1) market
     = (inl ProductNotFound, market).
Proof.
  split; [reflexivity|]. split; [reflexivity|].
  split; [|split; [reflexivity|]].
  - apply (createGroupBuy_refuses reliable market universal 1000 9 1).
    intros p Hp. vm_compute in Hp. now injection Hp as <-.
  - apply (createGroupBuy_refuses groupBuysDown market universal 1000 11 1).
    intros p Hp. vm_compute in Hp. discriminate Hp.
Defined.

(** X8: the product schema puts no bound on [groupBuying.threshold], the
    group buy schema wants at least 2.  For an enabled product with a
    threshold below 2 and no active group buy, [createGroupBuy] fails when
    it saves the new document, with a validation error: no group buy is
    stored and no participation record is written, but the product's
    counter, saved before, says 1.  Asking again gives the same: no call can
    open a group buy for such a product. *)
Theorem createGroupBuy_below_the_minimum_threshold w zone now pid u p :
  keyed w ->
  products w !! pid = Some p ->
  Product.enabled (Product.groupBuying p) = true ->
  Product.threshold (Product.groupBuying p) < 2 ->
  getActiveGroupBuysForProduct now pid w = [] ->
  exists w',
    run reliable (createGroupBuy zone now pid u) w = (inl ValidationFailed, w')
    /\ groupBuys w' = groupBuys w
    /\ users w' = users w
    /\ counterOf pid w' = Some 1%nat
    /\ since w w' = [Wrote Products pid]
    /\ forall zone' now' u',
         now <= now' ->
         run reliable (createGroupBuy zone' now' pid u') w'
         = (inl ValidationFailed, emit (Wrote Products pid) w').
Proof.
  intros Hk Hp Hen Hthr Hnone.
  pose proof (proj1 (no_active_group_buy now pid w) Hnone) as Hfind.
  pose proof (proj1 Hk _ _ Hp) as Hpid.
  exists (afterCounterSet p w).
  split; [apply run_create_invalid; auto using invalid_below_minimum|].
  split; [reflexivity|]. split; [reflexivity|].
  assert (Hp' : products (afterCounterSet p w) !! pid
                = Some (Product.with_currentParticipants 1 p)).
  { cbn [products afterCounterSet Product._id Product.with_currentParticipants].
    rewrite Hpid. now rewrite lookup_insert_eq. }
  split; [unfold counterOf; now rewrite Hp'|].
  split.
  { apply since_app. cbn. now rewrite Hpid. }
  intros zone' now' u' Hle.
  rewrite (run_create_invalid _ zone' now' pid u' _ Hp' Hen);
    [|now apply find_none_earlier with now|now apply invalid_below_minimum].
  f_equal. unfold afterCounterSet, emit. cbn. rewrite Hpid.
  f_equal. now rewrite insert_insert_eq.
Qed.

Lemma createGroupBuy_below_the_minimum_threshold_witness :
  exists w',
    keyed market
    /\ products market !! 10%nat = Some sample
    /\ Product.enabled (Product.groupBuying sample) = true
    /\ Product.threshold (Product.groupBuying sample) < 2
    /\ getActiveGroupBuysForProduct 1000 10 market = []
    /\ run reliable (createGroupBuy universal 1000 10 1) market
       = (inl ValidationFailed, w')
    /\ groupBuys w' = []
    /\ counterOf 10 market = Some 0%nat
    /\ counterOf 10 w' = Some 1%nat.
Proof.
  destruct (createGroupBuy_below_the_minimum_threshold market universal 1000 10 1
              sample)
    as (w' & Hrun & Hgs & _ & Hcount & _);
    [apply market_keyed|reflexivity|reflexivity|cbn; lia|reflexivity|].
  exists w'. split; [apply market_keyed|].
  split; [reflexivity|]. split; [reflexivity|]. split; [cbn; lia|].
  split; [reflexivity|]. split; [exact Hrun|]. split; [exact Hgs|].
  split; [reflexivity|exact Hcount].
Defined.

(** X9: [joinGroupBuy] by a new participant of an active group buy whose
    product is no longer in the catalogue still joins: the participant is
    added, the threshold is checked, the document is saved and the call
    resolves to it with 'Successfully joined group buy'.  But no counter is
    written and, even though the user exists, no participation record: the
    products and the users are as they were. *)
Theorem joinGroupBuy_without_the_product w now gid u g :
  findGroupBuy gid (groupBuys w) = Some g ->
  GroupBuy.status g = active ->
  ~ (GroupBuy.expiryDate g < now) ->
  GroupBuy.isParticipant u g = false ->
  products w !! GroupBuy.productId g = None ->
  exists g' w',
    run reliable (joinGroupBuy now gid u) w = (inr (g', successfullyJoined), w')
    /\ GroupBuy.participants g' = GroupBuy.participants g ++ [mkParticipant u now]
    /\ findGroupBuy gid (groupBuys w') = Some g'
    /\ products w' = products w
    /\ users w' = users w
    /\ wrote Products (since w w') = false
    /\ wrote Users (since w w') = false.
Proof.
  intros Hg Hst Hexp Hnew Hp.
  apply Z.nlt_ge, Z.ltb_ge in Hexp.
  pose proof (findGroupBuy_id _ _ _ Hg) as Hid.
  exists (joined now u g), (afterJoin now u g w).
  split; [now apply run_join_new|].
  split; [apply joined_participants|].
  split.
  { cbn [groupBuys afterJoin]. rewrite <- Hid, <- (joined_id now u g).
    apply findGroupBuy_replace_same with g. now rewrite joined_id, Hid. }
  unfold afterJoin. rewrite Hp. cbn [fmap option_fmap option_map products users].
  split; [reflexivity|].
  split; [now destruct (users w !! u)|].
  erewrite since_app
    by (cbn [trace]; destruct (users w !! u); cbn [app]; reflexivity).
  cbn [app]. destruct (thresholdReached _).
  - rewrite !wrote_notifications. now split.
  - now split.
Qed.

Lemma joinGroupBuy_without_the_product_witness :
  exists g g' w',
    findGroupBuy 100 (groupBuys delisted) = Some g
    /\ GroupBuy.status g = active
    /\ ~ (GroupBuy.expiryDate g < 2000)
    /\ GroupBuy.isParticipant 2 g = false
    /\ products delisted !! GroupBuy.productId g = None
    /\ users delisted !! 2%nat = Some (newcomer 2)
    /\ run reliable (joinGroupBuy 2000 100 2) delisted
       = (inr (g', successfullyJoined), w')
    /\ List.map userId (GroupBuy.participants g') = [1; 2]%nat
    /\ users w' !! 2%nat = Some (newcomer 2).
Proof.
  eexists.
  edestruct (joinGroupBuy_without_the_product delisted 2000 100 2)
    as (g' & w' & Hrun & Hps & _ & _ & Hus & _);
    [vm_compute; reflexivity|reflexivity
    |intros H; vm_compute in H; discriminate H|reflexivity|reflexivity|].
  exists g', w'.
  split; [reflexivity|]. split; [reflexivity|].
  split; [intros H; vm_compute in H; discriminate H|].
  split; [reflexivity|]. split; [reflexivity|]. split; [reflexivity|].
  split; [exact Hrun|]. split; [now rewrite Hps|]. now rewrite Hus.
Defined.

(** ** The expiry check *)

Lemma swept_not_overdue now g : isOverdue now (swept now g) = false.
Proof.
  unfold swept. destruct (isOverdue now g) eqn:Hov; [|exact Hov].
  reflexivity.
Qed.

Lemma swept_none_overdue now gs :
  List.filter (isOverdue now) (List.map (swept now) gs) = [].
Proof.
  induction gs as [|g gs IH]; [reflexivity|].
  cbn [List.map List.filter]. now rewrite swept_not_overdue.
Qed.

Lemma afterSweep_trace l w :
  trace (fold_left afterExpiry l w) = trace w ++ flat_map expiryWrites l.
Proof.
  revert w. induction l as [|g l IH]; intros w; cbn [fold_left flat_map].
  - now rewrite app_nil_r.
  - rewrite IH. cbn [trace afterExpiry]. now rewrite <- app_assoc.
Qed.

Lemma filter_expireFirst gid gid' rs :
  List.filter (fun r => Nat.eqb (Participation.groupId r) gid) (expireFirst gid' rs)
  = if Nat.eqb gid' gid
    then firstExpired
           (List.filter (fun r => Nat.eqb (Participation.groupId r) gid) rs)
    else List.filter (fun r => Nat.eqb (Participation.groupId r) gid) rs.
Proof.
  induction rs as [|r rs IH]; cbn [expireFirst List.filter].
  - now destruct (Nat.eqb gid' gid).
  - destruct (Nat.eqb_spec (Participation.groupId r) gid') as [E|E];
      cbn [List.filter Participation.groupId Participation.with_status].
    + destruct (Nat.eqb_spec gid' gid) as [E'|E'].
      * subst. now rewrite Nat.eqb_refl.
      * subst. destruct (Nat.eqb_spec (Participation.groupId r) gid);
          [contradiction|reflexivity].
    + rewrite IH. destruct (Nat.eqb_spec gid' gid) as [E'|E'].
      * subst. destruct (Nat.eqb_spec (Participation.groupId r) gid);
          [contradiction|reflexivity].
      * now destruct (Nat.eqb (Participation.groupId r) gid).
Qed.

Lemma recordsOf_afterExpiry u gid w g :
  recordsOf u gid (afterExpiry w g)
  = if Nat.eqb (GroupBuy._id g) gid
    then firstExpired (recordsOf u gid w) else recordsOf u gid w.
Proof.
  unfold recordsOf. cbn [users afterExpiry]. rewrite lookup_fmap.
  destruct (users w !! u) as [usr|]; cbn.
  - apply filter_expireFirst.
  - now destruct (Nat.eqb _ _).
Qed.

Lemma firstExpired_twice rs : firstExpired (firstExpired rs) = firstExpired rs.
Proof. now destruct rs. Qed.

Lemma recordsOf_afterSweep u gid l w :
  recordsOf u gid (fold_left afterExpiry l w)
  = if existsb (fun g => Nat.eqb (GroupBuy._id g) gid) l
    then firstExpired (recordsOf u gid w) else recordsOf u gid w.
Proof.
  revert w. induction l as [|g l IH]; intros w; [reflexivity|].
  cbn [fold_left existsb]. rewrite IH, recordsOf_afterExpiry.
  destruct (Nat.eqb (GroupBuy._id g) gid); cbn [orb]; [|reflexivity].
  destruct (existsb _ l); [apply firstExpired_twice|reflexivity].
Qed.

Lemma counterOf_afterExpiry pid w g :
  counterOf pid (afterExpiry w g)
  = if Nat.eqb (GroupBuy.productId g) pid
    then (fun _ => 0%nat) <$> counterOf pid w else counterOf pid w.
Proof.
  unfold counterOf. cbn [products afterExpiry].
  destruct (Nat.eqb_spec (GroupBuy.productId g) pid) as [->|Hne].
  - rewrite lookup_alter_eq. now destruct (products w !! pid).
  - now rewrite lookup_alter_ne.
Qed.

Lemma counterOf_afterSweep pid l w :
  counterOf pid (fold_left afterExpiry l w)
  = if existsb (fun g => Nat.eqb (GroupBuy.productId g) pid) l
    then (fun _ => 0%nat) <$> counterOf pid w else counterOf pid w.
Proof.
  revert w. induction l as [|g l IH]; intros w; [reflexivity|].
  cbn [fold_left existsb]. rewrite IH, counterOf_afterExpiry.
  destruct (Nat.eqb (GroupBuy.productId g) pid); cbn [orb]; [|reflexivity].
  destruct (existsb _ l); [|reflexivity]. now destruct (counterOf pid w).
Qed.

(** X10: [checkAndUpdateExpiredGroupBuys], called at time [now], resolves to
    the number of stored group buys that are active with an expiry date
    before [now].  It sets exactly those to expired and leaves every other
    document as it is; for each of them, in the order in which they are
    stored, it writes the group buy, the users and the product, and it sends
    no notification.  Afterwards no stored group buy is active and past that
    date, so that a second check at the same time resolves to 0 and writes
    nothing. *)
Theorem expiry_check_once_is_enough w now :
  uniqueIds w ->
  exists w',
    run reliable (checkAndUpdateExpiredGroupBuys now) w
    = (inr (length (List.filter (isOverdue now) (groupBuys w))), w')
    /\ groupBuys w' = List.map (swept now) (groupBuys w)
    /\ since w w'
       = flat_map expiryWrites (List.filter (isOverdue now) (groupBuys w))
    /\ List.filter (isOverdue now) (groupBuys w') = []
    /\ run reliable (checkAndUpdateExpiredGroupBuys now) w' = (inr 0%nat, w').
Proof.
  intros [Hnd _]. exists (afterSweep now w).
  assert (Hnone : List.filter (isOverdue now) (groupBuys (afterSweep now w)) = []).
  { rewrite afterSweep_groupBuys by exact Hnd. apply swept_none_overdue. }
  split; [apply run_check|].
  split; [now apply afterSweep_groupBuys|].
  split; [apply since_app, afterSweep_trace|].
  split; [exact Hnone|].
  rewrite run_check.
  change (afterSweep now (afterSweep now w))
    with (fold_left afterExpiry
            (List.filter (isOverdue now) (groupBuys (afterSweep now w)))
            (afterSweep now w)).
  now rewrite Hnone.
Qed.

Lemma expiry_check_once_is_enough_witness :
  exists w',
    uniqueIds afterA
    /\ run reliable (checkAndUpdateExpiredGroupBuys eightDaysOn) afterA
       = (inr 1%nat, w')
    /\ List.map GroupBuy.status (groupBuys afterA) = [active]
    /\ List.map GroupBuy.status (groupBuys w') = [expired]
    /\ since afterA w' = [Wrote GroupBuys 100; WroteMany Users; Wrote Products 7]
    /\ run reliable (checkAndUpdateExpiredGroupBuys eightDaysOn) w'
       = (inr 0%nat, w').
Proof.
  assert (Hu : uniqueIds afterA).
  { apply (performAll_wellFormed [CreateGroupBuy universal 1000 7 1] shop), shop_wellFormed. }
  destruct (expiry_check_once_is_enough afterA eightDaysOn Hu)
    as (w' & Hrun & Hgs & Hsince & _ & Hagain).
  exists w'. split; [exact Hu|]. split; [exact Hrun|].
  split; [reflexivity|]. split; [now rewrite Hgs|].
  split; [now rewrite Hsince|exact Hagain].
Defined.

(** X11: the expiry check at time [now] reconciles the three views of every
    group buy that is active with an expiry date before [now]: the stored
    document is the one it was, with status expired; the counter of its
    product, if the product exists, is 0; and of the records that a user has
    for it the first is set to expired, the others are as they were.  For a
    group buy that is not active or whose date has not passed, the document
    and every user's records for it are as they were; and the counter of a
    product none of whose group buys is hit stays what it was. *)
Theorem expiry_check_reconciles_the_views w now g :
  uniqueIds w ->
  In g (groupBuys w) ->
  let w' := snd (run reliable (checkAndUpdateExpiredGroupBuys now) w) in
  (GroupBuy.status g = active /\ GroupBuy.expiryDate g < now ->
   findGroupBuy (GroupBuy._id g) (groupBuys w')
   = Some (GroupBuy.with_status expired g)
   /\ counterOf (GroupBuy.productId g) w'
      = (fun _ => 0%nat) <$> counterOf (GroupBuy.productId g) w
   /\ forall u, recordsOf u (GroupBuy._id g) w'
                = firstExpired (recordsOf u (GroupBuy._id g) w))
  /\ (~ (GroupBuy.status g = active /\ GroupBuy.expiryDate g < now) ->
      findGroupBuy (GroupBuy._id g) (groupBuys w') = Some g
      /\ forall u, recordsOf u (GroupBuy._id g) w'
                   = recordsOf u (GroupBuy._id g) w)
  /\ (forall pid,
        Forall (fun g0 => GroupBuy.productId g0 = pid -> isOverdue now g0 = false)
               (groupBuys w) ->
        counterOf pid w' = counterOf pid w).
Proof.
  intros [Hnd _] Hin w'.
  assert (Hw' : w' = afterSweep now w) by (unfold w'; now rewrite run_check).
  assert (Hov : isOverdue now g = true <->
                GroupBuy.status g = active /\ GroupBuy.expiryDate g < now).
  { unfold isOverdue. rewrite andb_true_iff, bool_decide_eq_true, Z.ltb_lt. tauto. }
  assert (Hfind : findGroupBuy (GroupBuy._id g) (groupBuys w') = Some (swept now g)).
  { rewrite Hw', afterSweep_groupBuys by exact Hnd.
    rewrite findGroupBuy_map by apply swept_id.
    now rewrite (findGroupBuy_unique _ _ g Hnd Hin eq_refl). }
  assert (Hrec : forall u,
            recordsOf u (GroupBuy._id g) w'
            = if isOverdue now g
              then firstExpired (recordsOf u (GroupBuy._id g) w)
              else recordsOf u (GroupBuy._id g) w).
  { intros u. rewrite Hw'. unfold afterSweep. rewrite recordsOf_afterSweep.
    destruct (isOverdue now g) eqn:E.
    - replace (existsb _ _) with true; [reflexivity|]. symmetry.
      apply existsb_exists. exists g. split; [|apply Nat.eqb_refl].
      apply filter_In. now split.
    - replace (existsb _ _) with false; [reflexivity|]. symmetry.
      apply not_true_is_false. intros Hex.
      apply existsb_exists in Hex as (g0 & Hg0 & Hid).
      apply filter_In in Hg0 as [Hg0 Hov0]. apply Nat.eqb_eq in Hid.
      rewrite (same_id_same_document _ g0 g Hnd Hg0 Hin Hid) in Hov0. congruence. }
  split; [|split].
  - intros Hhit. apply Hov in Hhit. unfold swept in Hfind. rewrite Hhit in Hfind.
    split; [exact Hfind|]. split.
    + rewrite Hw'. unfold afterSweep. rewrite counterOf_afterSweep.
      replace (existsb _ _) with true; [reflexivity|]. symmetry.
      apply existsb_exists. exists g. split; [|apply Nat.eqb_refl].
      apply filter_In. now split.
    + intros u. rewrite Hrec. now rewrite Hhit.
  - intros Hmiss. assert (Hno : isOverdue now g = false).
    { apply not_true_is_false. intros H. now apply Hmiss, Hov. }
    unfold swept in Hfind. rewrite Hno in Hfind.
    split; [exact Hfind|]. intros u. rewrite Hrec. now rewrite Hno.
  - intros pid Hall. rewrite Hw'. unfold afterSweep. rewrite counterOf_afterSweep.
    replace (existsb _ _) with false; [reflexivity|]. symmetry.
    apply not_true_is_false. intros Hex.
    apply existsb_exists in Hex as (g0 & Hg0 & Hid).
    apply filter_In in Hg0 as [Hg0 Hov0]. apply Nat.eqb_eq in Hid.
    pose proof (proj1 (List.Forall_forall _ _) Hall g0 Hg0 Hid). congruence.
Qed.

Lemma expiry_check_reconciles_the_views_witness :
  exists g,
    uniqueIds afterB
    /\ In g (groupBuys afterB)
    /\ GroupBuy.status g = active /\ GroupBuy.expiryDate g < eightDaysOn
    /\ let w' := snd (run reliable (checkAndUpdateExpiredGroupBuys eightDaysOn)
                          afterB) in
       statusOf 100 w' = Some expired
       /\ counterOf 7 afterB = Some 2%nat
       /\ counterOf 7 w' = Some 0%nat
       /\ List.map Participation.status (recordsOf 1 100 w') = [expired]
       /\ List.map Participation.status (recordsOf 2 100 w') = [expired]
       /\ counterOf 8 w' = counterOf 8 afterB.
Proof.
  assert (Hu : uniqueIds afterB).
  { apply (performAll_wellFormed
             [CreateGroupBuy universal 1000 7 1; CreateGroupBuy universal 2000 7 2] shop),
      shop_wellFormed. }
  eexists. split; [exact Hu|]. split; [left; reflexivity|].
  split; [reflexivity|]. split; [reflexivity|].
  destruct (expiry_check_reconciles_the_views afterB eightDaysOn _ Hu
              (or_introl eq_refl)) as (Hhit & _ & Hother).
  destruct Hhit as (Hfind & Hcount & Hrec); [split; reflexivity|].
  intros w'. split; [exact (f_equal (fmap GroupBuy.status) Hfind)|].
  split; [reflexivity|]. split; [exact Hcount|].
  split; [exact (f_equal (List.map Participation.status) (Hrec 1%nat))|].
  split; [exact (f_equal (List.map Participation.status) (Hrec 2%nat))|].
  apply Hother. repeat constructor. discriminate.
Defined.

(** ** The group buys of a user *)

Lemma replaceGroupBuy_split g g' gs :
  NoDup (List.map GroupBuy._id gs) ->
  findGroupBuy (GroupBuy._id g') gs = Some g ->
  exists l1 l2, gs = l1 ++ g :: l2 /\ replaceGroupBuy g' gs = l1 ++ g' :: l2.
Proof.
  unfold findGroupBuy, replaceGroupBuy.
  induction gs as [|g0 gs IH]; [discriminate|]. cbn. intros Hnd Hfind.
  apply NoDup_cons in Hnd as [Hnotin Hnd].
  destruct (Nat.eqb_spec (GroupBuy._id g0) (GroupBuy._id g')) as [E|E].
  - injection Hfind as ->. exists [], gs. split; [reflexivity|]. cbn. f_equal.
    apply (replaceGroupBuy_absent g' gs).
    destruct (findGroupBuy (GroupBuy._id g') gs) as [g1|] eqn:H1; [|reflexivity].
    exfalso. apply Hnotin. rewrite E, <- (findGroupBuy_id _ _ _ H1).
    apply list_elem_of_In, in_map. now apply findGroupBuy_In with (GroupBuy._id g').
  - destruct (IH Hnd Hfind) as (l1 & l2 & -> & Hrep).
    exists (g0 :: l1), l2. split; [reflexivity|]. cbn. now rewrite Hrep.
Qed.

Lemma isParticipant_joined now u g : GroupBuy.isParticipant u (joined now u g) = true.
Proof.
  unfold GroupBuy.isParticipant. rewrite joined_participants, existsb_app.
  cbn. now rewrite Nat.eqb_refl, orb_true_r.
Qed.

(** X12: [getUserGroupBuys] resolves to the stored group buys that have the
    user among their participants, the newest first.  After a
    [joinGroupBuy] by a new participant of an active group buy that is not
    past its expiry date, the list has exactly one group buy more than
    before the call: it contains the joined document as the call resolved
    to it, which it did not contain under that id before, and every group
    buy it contained before. *)
Theorem joined_group_buy_is_listed w now gid u g :
  uniqueIds w ->
  findGroupBuy gid (groupBuys w) = Some g ->
  GroupBuy.status g = active ->
  ~ (GroupBuy.expiryDate g < now) ->
  GroupBuy.isParticipant u g = false ->
  exists g' w',
    run reliable (joinGroupBuy now gid u) w = (inr (g', successfullyJoined), w')
    /\ (forall g0, In g0 (getUserGroupBuys u w') <->
                   In g0 (groupBuys w') /\ GroupBuy.isParticipant u g0 = true)
    /\ newestFirst (getUserGroupBuys u w') = true
    /\ In g' (getUserGroupBuys u w')
    /\ (forall g0, In g0 (getUserGroupBuys u w) -> GroupBuy._id g0 <> gid)
    /\ (forall g0, In g0 (getUserGroupBuys u w) -> In g0 (getUserGroupBuys u w'))
    /\ length (getUserGroupBuys u w') = S (length (getUserGroupBuys u w)).
Proof.
  intros [Hnd _] Hg Hst Hexp Hnew.
  apply Z.nlt_ge, Z.ltb_ge in Hexp.
  pose proof (findGroupBuy_id _ _ _ Hg) as Hid.
  exists (joined now u g), (afterJoin now u g w).
  split; [now apply run_join_new|].
  assert (Hg' : findGroupBuy (GroupBuy._id (joined now u g)) (groupBuys w) = Some g)
    by now rewrite joined_id, Hid.
  destruct (replaceGroupBuy_split g (joined now u g) (groupBuys w) Hnd Hg')
    as (l1 & l2 & Hgs & Hrep).
  unfold getUserGroupBuys. cbn [groupBuys afterJoin]. rewrite Hrep, Hgs.
  split; [intros g0; now rewrite sortNewestFirst_In, filter_In|].
  split; [apply sortNewestFirst_sorted|].
  split.
  { apply sortNewestFirst_In, filter_In. split; [|apply isParticipant_joined].
    apply in_or_app. right. now left. }
  split.
  { intros g0 Hin Hid0. apply sortNewestFirst_In, filter_In in Hin as [Hin Hmem].
    rewrite <- Hgs in Hin. rewrite <- Hid0 in Hg.
    rewrite (findGroupBuy_unique _ _ g0 Hnd Hin eq_refl) in Hg. congruence. }
  split.
  { intros g0 Hin. apply sortNewestFirst_In, filter_In in Hin as [Hin Hmem].
    apply sortNewestFirst_In, filter_In. split; [|exact Hmem].
    apply in_app_or in Hin as [Hin|[->|Hin]].
    - apply in_or_app. now left.
    - congruence.
    - apply in_or_app. right. now right. }
  rewrite !(Permutation_length (sortNewestFirst_Permutation _)).
  rewrite !List.filter_app, !length_app. cbn [List.filter].
  rewrite Hnew, isParticipant_joined. cbn [length]. lia.
Qed.

Lemma joined_group_buy_is_listed_witness :
  exists g g' w',
    uniqueIds afterA
    /\ findGroupBuy 100 (groupBuys afterA) = Some g
    /\ GroupBuy.status g = active
    /\ ~ (GroupBuy.expiryDate g < 2000)
    /\ GroupBuy.isParticipant 2 g = false
    /\ run reliable (joinGroupBuy 2000 100 2) afterA
       = (inr (g', successfullyJoined), w')
    /\ getUserGroupBuys 2 afterA = []
    /\ In g' (getUserGroupBuys 2 w')
    /\ length (getUserGroupBuys 2 w') = 1%nat.
Proof.
  assert (Hu : uniqueIds afterA).
  { apply (performAll_wellFormed [CreateGroupBuy universal 1000 7 1] shop), shop_wellFormed. }
  eexists.
  edestruct (joined_group_buy_is_listed afterA 2000 100 2)
    as (g' & w' & Hrun & _ & _ & Hin & _ & _ & Hlen);
    [exact Hu|vm_compute; reflexivity|reflexivity
    |intros H; vm_compute in H; discriminate H|reflexivity|].
  exists g', w'. split; [exact Hu|]. split; [reflexivity|].
  split; [reflexivity|].
  split; [intros H; vm_compute in H; discriminate H|].
  split; [reflexivity|]. split; [exact Hrun|]. split; [reflexivity|].
  split; [exact Hin|exact Hlen].
Defined.


(** ** The counter and the records after a join *)

(** X13: a [joinGroupBuy] by a new participant of an active group buy that
    is not past its expiry date, whose product exists, leaves in the
    product's counter the number of participants that the group buy then
    has, whether or not the call completed it; the counters of the other
    products are as they were. *)
Theorem joinGroupBuy_counts_the_participants w now gid u g p :
  keyed w ->
  findGroupBuy gid (groupBuys w) = Some g ->
  GroupBuy.status g = active ->
  ~ (GroupBuy.expiryDate g < now) ->
  GroupBuy.isParticipant u g = false ->
  products w !! GroupBuy.productId g = Some p ->
  exists g' w',
    run reliable (joinGroupBuy now gid u) w = (inr (g', successfullyJoined), w')
    /\ counterOf (GroupBuy.productId g) w'
       = Some (length (GroupBuy.participants g'))
    /\ length (GroupBuy.participants g') = S (length (GroupBuy.participants g))
    /\ forall pid, pid <> GroupBuy.productId g ->
                   counterOf pid w' = counterOf pid w.
Proof.
  intros Hk Hg Hst Hexp Hnew Hp.
  apply Z.nlt_ge, Z.ltb_ge in Hexp.
  exists (joined now u g), (afterJoin now u g w).
  split; [now apply run_join_new|].
  assert (Hlen : length (GroupBuy.participants (joined now u g))
                 = S (length (GroupBuy.participants g))).
  { rewrite joined_participants, length_app. cbn. lia. }
  split; [rewrite Hlen; now apply join_sets_counter with p|].
  split; [exact Hlen|].
  intros pid Hne. unfold counterOf, afterJoin. cbn [products]. rewrite Hp.
  cbn [fmap option_fmap option_map].
  change (Product._id (Product.with_currentParticipants _ p)) with (Product._id p).
  rewrite (proj1 Hk _ _ Hp). now rewrite lookup_insert_ne.
Qed.

Lemma joinGroupBuy_counts_the_participants_witness :
  exists g g' w',
    keyed afterB
    /\ findGroupBuy 100 (groupBuys afterB) = Some g
    /\ GroupBuy.status g = active
    /\ ~ (GroupBuy.expiryDate g < 3000)
    /\ GroupBuy.isParticipant 3 g = false
    /\ products afterB !! GroupBuy.productId g
       = Some (Product.with_currentParticipants 2 bottle)
    /\ run reliable (joinGroupBuy 3000 100 3) afterB
       = (inr (g', successfullyJoined), w')
    /\ GroupBuy.status g' = completed
    /\ counterOf 7 w' = Some 3%nat
    /\ counterOf 8 w' = Some 0%nat.
Proof.
  assert (Hk : keyed afterB).
  { apply (performAll_keyed
             [CreateGroupBuy universal 1000 7 1; CreateGroupBuy universal 2000 7 2] shop), shop_keyed. }
  eexists.
  edestruct (joinGroupBuy_counts_the_participants afterB 3000 100 3)
    as (g' & w' & Hrun & Hcount & Hlen & Hothers);
    [exact Hk|vm_compute; reflexivity|reflexivity
    |intros H; vm_compute in H; discriminate H|reflexivity|reflexivity|].
  exists g', w'. split; [exact Hk|]. split; [reflexivity|].
  split; [reflexivity|].
  split; [intros H; vm_compute in H; discriminate H|].
  split; [reflexivity|]. split; [reflexivity|]. split; [exact Hrun|].
  split.
  { vm_compute in Hrun. now injection Hrun as <- _. }
  split; [etransitivity; [exact Hcount|]; now rewrite Hlen|].
  transitivity (counterOf 8 afterB); [|reflexivity].
  apply (Hothers 8%nat). intros H. vm_compute in H. discriminate H.
Defined.

Lemma isParticipant_continues u g g' :
  continues g g' ->
  GroupBuy.isParticipant u g = true -> GroupBuy.isParticipant u g' = true.
Proof.
  intros (_ & _ & _ & _ & _ & _ & _ & _ & _ & [more Hmore] & _).
  unfold GroupBuy.isParticipant. rewrite Hmore, existsb_app. now intros ->.
Qed.

Lemma belongs_later w w' u r :
  (forall gid g, findGroupBuy gid (groupBuys w) = Some g ->
     exists g', findGroupBuy gid (groupBuys w') = Some g' /\ continues g g') ->
  belongs w u r -> belongs w' u r.
Proof.
  intros Hlater (g & Hg & Hin & Hpid & Hname).
  destruct (Hlater _ _ Hg) as (g' & Hg' & Hc).
  exists g'. split; [exact Hg'|].
  split; [now apply isParticipant_continues with g|].
  destruct Hc as (_ & Hp & Hn & _). split; congruence.
Qed.

Lemma belongs_refersTo w u r r' :
  refersTo r = refersTo r' -> belongs w u r -> belongs w u r'.
Proof.
  unfold refersTo. intros [= H1 H2 H3] (g & Hg & Hin & Hpid & Hname).
  exists g. rewrite <- H1, <- H2, <- H3. now repeat split.
Qed.

Lemma expireFirst_refersTo gid rs :
  List.map refersTo (expireFirst gid rs) = List.map refersTo rs.
Proof.
  induction rs as [|r rs IH]; [reflexivity|]. cbn [expireFirst].
  destruct (Nat.eqb (Participation.groupId r) gid); cbn [List.map].
  - reflexivity.
  - now rewrite IH.
Qed.

Lemma users_afterSweep l w u :
  (fun usr => List.map refersTo (User.groupBuyingParticipation usr))
    <$> users (fold_left afterExpiry l w) !! u
  = (fun usr => List.map refersTo (User.groupBuyingParticipation usr))
    <$> users w !! u.
Proof.
  revert w. induction l as [|g l IH]; intros w; [reflexivity|].
  cbn [fold_left]. rewrite IH. cbn [users afterExpiry]. rewrite lookup_fmap.
  destruct (users w !! u) as [usr|]; [|reflexivity]. cbn.
  now rewrite expireFirst_refersTo.
Qed.

Lemma groupId_refersTo rs :
  List.map Participation.groupId rs
  = List.map (fun k => fst (fst k)) (List.map refersTo rs).
Proof. rewrite List.map_map. reflexivity. Qed.

Lemma recorded_one_more w w' u0 usr0 r :
  (forall u r, belongs w u r -> belongs w' u r) ->
  recorded w ->
  users w !! u0 = Some usr0 ->
  users w' = <[u0 := User.push r usr0]> (users w) ->
  belongs w' u0 r ->
  ~ belongs w u0 r ->
  (forall r0, Participation.groupId r0 = Participation.groupId r ->
              belongs w u0 r0 -> belongs w u0 r) ->
  recorded w'.
Proof.
  intros Hlater Hrec Hu0 Husers Hnew Hnot Hsame u usr Hu.
  rewrite Husers in Hu. destruct (Nat.eq_dec u u0) as [->|Hne].
  - rewrite lookup_insert_eq in Hu. injection Hu as <-.
    destruct (Hrec _ _ Hu0) as [Hall Hnd]. cbn [User.push User.groupBuyingParticipation].
    split.
    + apply Forall_app. split; [|now repeat constructor].
      eapply List.Forall_impl; [|exact Hall]. intros r0. apply Hlater.
    + rewrite map_app. apply NoDup_app. split; [exact Hnd|].
      split; [|apply NoDup_singleton].
      intros gid Hin Hin'. apply list_elem_of_singleton in Hin'. subst gid.
      apply list_elem_of_In, in_map_iff in Hin as (r0 & Hid & Hin).
      apply Hnot, (Hsame r0 Hid).
      now apply (proj1 (List.Forall_forall _ _) Hall).
  - rewrite lookup_insert_ne in Hu by congruence.
    destruct (Hrec _ _ Hu) as [Hall Hnd]. split; [|exact Hnd].
    eapply List.Forall_impl; [|exact Hall]. intros r0. apply Hlater.
Qed.

Lemma recorded_same_users w w' :
  (forall u r, belongs w u r -> belongs w' u r) ->
  recorded w -> users w' = users w -> recorded w'.
Proof.
  intros Hlater Hrec Husers u usr Hu. rewrite Husers in Hu.
  destruct (Hrec _ _ Hu) as [Hall Hnd]. split; [|exact Hnd].
  eapply List.Forall_impl; [|exact Hall]. intros r0. apply Hlater.
Qed.

Lemma Step_recorded w w' :
  Step w w' -> keyed w -> uniqueIds w -> recorded w -> recorded w'.
Proof.
  intros Hstep Hk Hu Hrec.
  assert (Hlater : forall u r, belongs w u r -> belongs w' u r).
  { intros u r. apply belongs_later. intros gid g.
    now apply Step_continues. }
  destruct Hstep as [|now gid u0 g Hg Hst Hexp Hnew|now gid g Hg Hst Hexp
                     |zone now pid u0 p Hp Hen Hnone Hbad
                     |zone now pid u0 p Hp Hen Hnone Hok|now].
  - exact Hrec.
  - pose proof (findGroupBuy_id _ _ _ Hg) as Hid.
    destruct (users w !! u0) as [usr0|] eqn:Hu0;
      [|apply (recorded_same_users w); [exact Hlater|exact Hrec|];
        cbn [users afterJoin]; now rewrite Hu0].
    destruct (products w !! GroupBuy.productId g) as [p|] eqn:Hp;
      [|apply (recorded_same_users w); [exact Hlater|exact Hrec|];
        cbn [users afterJoin]; now rewrite Hu0, Hp].
    eapply (recorded_one_more w _ u0 usr0); [exact Hlater|exact Hrec|exact Hu0| | | |].
    + cbn [users afterJoin]. rewrite Hu0, Hp. cbn [fmap option_fmap option_map].
      now rewrite (proj2 Hk _ _ Hu0).
    + exists (joined now u0 g). cbn [participationIn Participation.groupId
                                   Participation.productId Participation.productName].
      unfold participationIn. cbn [Participation.groupId Participation.productId
                                   Participation.productName].
      split; [|split; [apply isParticipant_joined|now split]].
      cbn [groupBuys afterJoin]. apply findGroupBuy_replace_same with g.
      now rewrite joined_id, Hid.
    + unfold participationIn. intros (g1 & Hg1 & Hin & _).
      cbn [Participation.groupId] in Hg1. rewrite joined_id, Hid in Hg1. congruence.
    + unfold participationIn. cbn [Participation.groupId].
      intros r0 Hr0 (g1 & Hg1 & Hin & _).
      rewrite Hr0, joined_id, Hid in Hg1. congruence.
  - apply (recorded_same_users w); [exact Hlater|exact Hrec|reflexivity].
  - apply (recorded_same_users w); [exact Hlater|exact Hrec|reflexivity].
  - pose proof (findGroupBuy_fresh _ _ (proj2 Hu)) as Hfresh.
    destruct (users w !! u0) as [usr0|] eqn:Hu0;
      [|apply (recorded_same_users w); [exact Hlater|exact Hrec|];
        cbn [users afterCreate]; now rewrite Hu0].
    eapply (recorded_one_more w _ u0 usr0); [exact Hlater|exact Hrec|exact Hu0| | | |].
    + cbn [users afterCreate]. rewrite Hu0. now rewrite (proj2 Hk _ _ Hu0).
    + exists (newGroupBuy zone now pid u0 p (nextId w)).
      unfold firstParticipation, newGroupBuy.
      cbn [Participation.groupId Participation.productId Participation.productName
           GroupBuy._id GroupBuy.productId GroupBuy.productName].
      split; [|split; [|now split]].
      * cbn [groupBuys afterCreate]. now apply findGroupBuy_app_new.
      * unfold GroupBuy.isParticipant. cbn. now rewrite Nat.eqb_refl.
    + unfold firstParticipation, newGroupBuy. intros (g1 & Hg1 & _).
      cbn [Participation.groupId GroupBuy._id] in Hg1. congruence.
    + unfold firstParticipation, newGroupBuy. cbn [Participation.groupId GroupBuy._id].
      intros r0 Hr0 (g1 & Hg1 & _). rewrite Hr0 in Hg1. congruence.
  - intros u usr' Hu'.
    pose proof (users_afterSweep (List.filter (isOverdue now) (groupBuys w)) w u)
      as Hsame.
    fold (afterSweep now w) in Hsame. rewrite Hu' in Hsame.
    destruct (users w !! u) as [usr|] eqn:Husr; [|discriminate Hsame].
    cbn in Hsame. injection Hsame as Hsame.
    destruct (Hrec _ _ Husr) as [Hall Hnd]. split.
    + apply List.Forall_forall. intros r' Hin'.
      apply (in_map refersTo) in Hin'. rewrite Hsame in Hin'.
      apply in_map_iff in Hin' as (r & Hkey & Hin).
      apply (belongs_refersTo _ _ r r' Hkey), Hlater.
      now apply (proj1 (List.Forall_forall _ _) Hall).
    + rewrite groupId_refersTo, Hsame, <- groupId_refersTo. exact Hnd.
Qed.

Lemma performAll_recorded cs w :
  keyed w -> uniqueIds w -> recorded w -> recorded (performAll cs w).
Proof.
  revert w. induction cs as [|c cs IH]; intros w Hk Hu Hrec; [exact Hrec|].
  change (performAll (c :: cs) w) with (performAll cs (perform c w)).
  apply IH.
  - apply (Step_keyed w); [apply perform_Step|exact Hk].
  - apply (Step_uniqueIds w); [apply perform_Step|exact Hu].
  - apply (Step_recorded w); [apply perform_Step|exact Hk|exact Hu|exact Hrec].
Qed.

(** X14: the participation records follow the participants.  Start with no
    group buy, users who have no participation record, and every product
    and user stored under its own id, and serve any calls of
    [createGroupBuy], [joinGroupBuy] and [checkAndUpdateExpiredGroupBuys]
    one after another, the store accepting every write.  Then every
    participation record of every user
    belongs to a stored group buy that has the user among its participants
    and the product and the product name that the record gives, and no user
    has two records for the same group buy. *)
Theorem participation_records_follow_the_participants cs products users nextId :
  keyed (opening products users nextId) ->
  (forall u usr, users !! u = Some usr -> User.groupBuyingParticipation usr = []) ->
  recorded (performAll cs (opening products users nextId)).
Proof.
  intros Hk Hnone. apply performAll_recorded; [exact Hk| |].
  - split; cbn; constructor.
  - intros u usr Hu. cbn in Hu. rewrite (Hnone _ _ Hu). split; constructor.
Qed.

Lemma participation_records_follow_the_participants_witness :
  keyed shop
  /\ (forall u usr, users shop !! u = Some usr ->
                    User.groupBuyingParticipation usr = [])
  /\ recorded afterC
  /\ List.map (fun u => List.map Participation.groupId (recordsOf u 100 afterC))
              [1; 2; 3; 4]%nat
     = [[100]; [100]; [100]; []]%nat.
Proof.
  assert (Hnone : forall u usr, users shop !! u = Some usr ->
                                User.groupBuyingParticipation usr = []).
  { cbn. intros u usr Hu.
    repeat (apply lookup_insert_Some in Hu as [[_ <-]|[_ Hu]]; [reflexivity|]).
    now rewrite lookup_empty in Hu. }
  split; [apply shop_keyed|]. split; [exact Hnone|].
  split; [|reflexivity].
  apply (participation_records_follow_the_participants
           [CreateGroupBuy universal 1000 7 1; CreateGroupBuy universal 2000 7 2;
            CreateGroupBuy universal 3000 7 3] (products shop) (users shop) 100);
    [apply shop_keyed|exact Hnone].
Defined.
(** * The sustainability scores *)

(** ** The order of binary64 numbers *)

Lemma SFleb_trans a b c :
  SFleb a b = true -> SFleb b c = true -> SFleb a c = true.
Proof.
  unfold SFleb, SFcompare.
  destruct a as [[]|[]| |[] ma ea], b as [[]|[]| |[] mb eb],
           c as [[]|[]| |[] mc ec];
    try reflexivity; try discriminate.
  all: fold (Pos.compare ma mb); fold (Pos.compare mb mc);
    fold (Pos.compare ma mc).
  all: destruct (Z.compare_spec ea eb), (Z.compare_spec eb ec),
         (Z.compare_spec ea ec);
    try reflexivity; try discriminate; try lia.
  all: subst.
  all: destruct (Pos.compare_spec ma mb), (Pos.compare_spec mb mc),
         (Pos.compare_spec ma mc);
    cbn; try reflexivity; try discriminate; try lia.
Qed.

Lemma leb_trans x y z :
  PrimFloat.leb x y = true -> PrimFloat.leb y z = true ->
  PrimFloat.leb x z = true.
Proof. rewrite !FloatAxioms.leb_spec. apply SFleb_trans. Qed.

Lemma SFcompare_flip a b :
  SFcompare b a = option_map CompOpp (SFcompare a b).
Proof.
  unfold SFcompare.
  destruct a as [[]|[]| |[] ma ea], b as [[]|[]| |[] mb eb];
    try reflexivity.
  all: cbn [option_map]; f_equal.
  all: rewrite (Z.compare_antisym ea eb).
  all: destruct (Z.compare ea eb); cbn [CompOpp]; try reflexivity.
  all: fold (Pos.compare ma mb); fold (Pos.compare mb ma).
  all: rewrite (Pos.compare_antisym ma mb).
  all: now destruct (Pos.compare ma mb).
Qed.

Lemma ltb_flip x y : PrimFloat.ltb x y = true -> PrimFloat.ltb y x = false.
Proof.
  rewrite !FloatAxioms.ltb_spec. unfold SFltb.
  rewrite (SFcompare_flip (Prim2SF x)).
  now destruct (SFcompare _ _) as [[]|].
Qed.

Import SustainabilityScoring.

(** ** The score of a carbon footprint *)

(** Settles a goal about numbers that are all known. *)
Ltac by_computation :=
  vm_compute;
  first [reflexivity | lia | repeat split; first [lia | solve [auto 12]]].

(** Goes through the comparisons of [x] that a chain of [if]s still has to
    make. *)
Ltac through_the_chain x :=
  repeat match goal with
         | |- context [if PrimFloat.leb x ?c then _ else _] =>
             destruct (PrimFloat.leb x c); cbv iota
         | |- context [if PrimFloat.leb ?c x then _ else _] =>
             destruct (PrimFloat.leb c x); cbv iota
         end.

(** X15: [scoreCarbonFootprint] is on the scale it promises: whatever it is
    given, the score is one of the half points 1, 1.5, ..., 5, so it lies
    between 1 and 5.  A footprint that is missing or not a number scores 1,
    and so does every footprint that JavaScript takes as false: [NaN], and a
    footprint of exactly zero, which therefore gets the lowest score and
    not the highest. *)
Theorem scoreCarbonFootprint_is_on_the_scale :
  (forall carbonFootprint,
     In (scoreCarbonFootprint carbonFootprint) halfPoints
     /\ PrimFloat.leb 1 (scoreCarbonFootprint carbonFootprint) = true
     /\ PrimFloat.leb (scoreCarbonFootprint carbonFootprint) 5 = true)
  /\ scoreCarbonFootprint None = 1%float
  /\ (forall x, truthy x = false -> scoreCarbonFootprint (Some x) = 1%float)
  /\ scoreCarbonFootprint (Some 0%float) = 1%float
  /\ scoreCarbonFootprint (Some PrimFloat.nan) = 1%float.
Proof.
  split; [|split; [reflexivity|split; [|split; reflexivity]]].
  - intros [x|]; [|by_computation]. unfold scoreCarbonFootprint.
    destruct (truthy x); cbn [negb]; [|by_computation].
    through_the_chain x; by_computation.
  - intros x Hx. unfold scoreCarbonFootprint. now rewrite Hx.
Qed.

(** X16: a lower carbon footprint never gets a lower score.  For two
    footprints that are numbers other than zero and [NaN], if the first is
    at most the second then the score of the second is at most the score of
    the first.  (Zero is the exception: it scores 1.) *)
Theorem lower_footprint_scores_no_lower x y :
  truthy x = true ->
  truthy y = true ->
  PrimFloat.leb x y = true ->
  PrimFloat.leb (scoreCarbonFootprint (Some y)) (scoreCarbonFootprint (Some x))
  = true.
Proof.
  intros Hx Hy Hxy. unfold scoreCarbonFootprint. rewrite Hx, Hy. cbn [negb].
  repeat match goal with
         | |- context [if PrimFloat.leb y ?c then _ else _] =>
             destruct (PrimFloat.leb y c) eqn:?; cbv iota;
             [ rewrite (leb_trans x y c Hxy) by assumption;
               through_the_chain x; by_computation | ]
         end.
  through_the_chain x; by_computation.
Qed.

Lemma lower_footprint_scores_no_lower_witness :
  truthy 4%float = true
  /\ truthy 40%float = true
  /\ PrimFloat.leb 4 40 = true
  /\ scoreCarbonFootprint (Some 4%float) = 4.5%float
  /\ scoreCarbonFootprint (Some 40%float) = 3%float
  /\ PrimFloat.leb (scoreCarbonFootprint (Some 40%float))
                   (scoreCarbonFootprint (Some 4%float)) = true.
Proof.
  split; [reflexivity|]. split; [reflexivity|]. split; [reflexivity|].
  split; [reflexivity|]. split; [reflexivity|].
  apply lower_footprint_scores_no_lower; reflexivity.
Defined.

(** ** The label of a score *)

(** X17: a higher score never gets a lower label.  [getEcoLabel] always
    answers with one of its seven labels, and when one score is at most
    another, the label of the first comes no later than the label of the
    second in the list 'Minimal', 'Basic', 'Fair', 'Good', 'Very Good',
    'Excellent', 'Exceptional'. *)
Theorem higher_score_gets_no_lower_label a b :
  PrimFloat.leb a b = true ->
  In (getEcoLabel a) ecoLabels
  /\ In (getEcoLabel b) ecoLabels
  /\ (placeIn ecoLabels (getEcoLabel a) <= placeIn ecoLabels (getEcoLabel b))%nat.
Proof.
  intros Hab. unfold getEcoLabel.
  repeat match goal with
         | |- context [if PrimFloat.leb ?c a then _ else _] =>
             destruct (PrimFloat.leb c a) eqn:?; cbv iota;
             [ rewrite (leb_trans c a b) by assumption;
               through_the_chain b; by_computation | ]
         end.
  through_the_chain b; by_computation.
Qed.

Lemma higher_score_gets_no_lower_label_witness :
  PrimFloat.leb 2.5 4 = true
  /\ getEcoLabel 2.5 = "Fair"
  /\ getEcoLabel 4 = "Excellent"
  /\ (placeIn ecoLabels (getEcoLabel 2.5) <= placeIn ecoLabels (getEcoLabel 4))%nat.
Proof.
  split; [reflexivity|]. split; [reflexivity|]. split; [reflexivity|].
  apply (higher_score_gets_no_lower_label 2.5 4). reflexivity.
Defined.

(** ** Packaging and production: the best type mentioned *)

(** Takes a number known to be a half point through its nine values. *)
Ltac each_half_point H :=
  unfold halfPoints in H; cbn [In] in H;
  repeat (destruct H as [<-|H]); [..|contradiction H].

Lemma mathMax_halfPoints a v :
  In a halfPoints -> In v halfPoints ->
  In (mathMax a v) halfPoints
  /\ PrimFloat.leb a (mathMax a v) = true
  /\ PrimFloat.leb v (mathMax a v) = true
  /\ (mathMax a v = a \/ mathMax a v = v).
Proof.
  intros Ha Hv. each_half_point Ha; each_half_point Hv; by_computation.
Qed.

Lemma halfPoints_bounds x :
  In x halfPoints ->
  PrimFloat.leb 1 x = true /\ PrimFloat.leb x 5 = true
  /\ PrimFloat.leb x x = true.
Proof. intros Hx. each_half_point Hx; by_computation. Qed.

Lemma halfPoints_top x :
  In x halfPoints -> PrimFloat.leb 5 x = true -> x = 5%float.
Proof.
  intros Hx. each_half_point Hx; intros H; first [reflexivity|discriminate H].
Qed.

Lemma bestMatch_from (scores : Scores) text acc :
  Forall (fun entry => In (snd entry) halfPoints) scores ->
  In acc halfPoints ->
  let best :=
    fold_left
      (fun bestScore entry =>
         if includes (toLowerCase text) (fst entry)
         then mathMax bestScore (snd entry) else bestScore)
      scores acc in
  In best halfPoints
  /\ PrimFloat.leb acc best = true
  /\ (forall entry, In entry scores ->
        includes (toLowerCase text) (fst entry) = true ->
        PrimFloat.leb (snd entry) best = true)
  /\ (best = acc
      \/ exists entry, In entry scores
           /\ includes (toLowerCase text) (fst entry) = true
           /\ best = snd entry).
Proof.
  intros Hscores. revert acc.
  induction Hscores as [|entry scores Hentry _ IH]; intros acc Hacc best.
  - repeat split; [exact Hacc|now apply halfPoints_bounds| |now left].
    intros entry [].
  - cbn [fold_left] in best.
    destruct (mathMax_halfPoints acc (snd entry) Hacc Hentry)
      as (Hin & Hle1 & Hle2 & Hor).
    destruct (includes (toLowerCase text) (fst entry)) eqn:Hhit.
    + destruct (IH (mathMax acc (snd entry)) Hin) as (B1 & B2 & B3 & B4).
      fold best in B1, B2, B3, B4.
      split; [exact B1|]. split; [now apply leb_trans with (mathMax acc (snd entry))|].
      split.
      * intros e [<-|He] Hm; [|now apply B3].
        now apply leb_trans with (mathMax acc (snd entry)).
      * destruct B4 as [B4|(e & He & Hm & B4)].
        -- destruct Hor as [Hor|Hor]; [left; congruence|].
           right. exists entry. split; [now left|]. split; [exact Hhit|congruence].
        -- right. exists e. split; [now right|]. now split.
    + destruct (IH acc Hacc) as (B1 & B2 & B3 & B4).
      fold best in B1, B2, B3, B4.
      split; [exact B1|]. split; [exact B2|]. split.
      * intros e [<-|He] Hm; [congruence|now apply B3].
      * destruct B4 as [B4|(e & He & Hm & B4)]; [now left|].
        right. exists e. split; [now right|]. now split.
Qed.

Lemma bestMatch_spec (scores : Scores) text :
  Forall (fun entry => In (snd entry) halfPoints) scores ->
  In (bestMatch scores text) halfPoints
  /\ (forall entry, In entry scores ->
        includes (toLowerCase text) (fst entry) = true ->
        PrimFloat.leb (snd entry) (bestMatch scores text) = true)
  /\ (bestMatch scores text = 1%float
      \/ exists entry, In entry scores
           /\ includes (toLowerCase text) (fst entry) = true
           /\ bestMatch scores text = snd entry).
Proof.
  intros Hscores.
  destruct (bestMatch_from scores text 1 Hscores) as (B1 & _ & B3 & B4);
    [by_computation|].
  now repeat split.
Qed.

(** *** Texts that include a type *)

Lemma prefix_shorter t t' s :
  String.prefix (t +:+ t') s = true -> String.prefix t s = true.
Proof.
  revert s. induction t as [|a t IH]; intros s; [now destruct s|].
  change (String a t +:+ t') with (String a (t +:+ t')).
  destruct s as [|b s]; [discriminate|]. cbn [String.prefix].
  destruct (Ascii.ascii_dec a b); [apply IH|discriminate].
Qed.

Lemma prefix_longer t s x :
  String.prefix t s = true -> String.prefix t (s +:+ x) = true.
Proof.
  revert s. induction t as [|a t IH]; intros s; [now destruct (s +:+ x)|].
  destruct s as [|b s]; [discriminate|].
  change (String b s +:+ x) with (String b (s +:+ x)). cbn [String.prefix].
  destruct (Ascii.ascii_dec a b); [apply IH|discriminate].
Qed.

Lemma includes_shorter s t t' :
  includes s (t +:+ t') = true -> includes s t = true.
Proof.
  induction s as [|c s IH]; cbn [includes]; rewrite !orb_true_iff.
  - intros [H|H]; [|discriminate H]. left. now apply prefix_shorter with t'.
  - intros [H|H]; [left; now apply prefix_shorter with t'|right; now apply IH].
Qed.

Lemma includes_before s t x :
  includes s t = true -> includes (x +:+ s) t = true.
Proof.
  intros H. induction x as [|c x IH]; [exact H|].
  change (String c x +:+ s) with (String c (x +:+ s)).
  cbn [includes]. rewrite IH. apply orb_true_r.
Qed.

Lemma includes_after s t x :
  includes s t = true -> includes (s +:+ x) t = true.
Proof.
  induction s as [|c s IH]; cbn [includes]; rewrite !orb_true_iff.
  - intros [H|H]; [|discriminate H]. destruct t; [|discriminate H].
    change ("" +:+ x) with x. now destruct x.
  - change (String c s +:+ x) with (String c (s +:+ x)). intros [H|H].
    + cbn [includes]. apply orb_true_iff. left.
      now apply (prefix_longer t (String c s) x).
    + cbn [includes]. apply orb_true_iff. right. now apply IH.
Qed.

Lemma toLowerCase_app s x :
  toLowerCase (s +:+ x) = toLowerCase s +:+ toLowerCase x.
Proof.
  induction s as [|c s IH]; [reflexivity|].
  change (String c s +:+ x) with (String c (s +:+ x)).
  cbn [toLowerCase]. now rewrite IH.
Qed.

(** *** The best score of a text *)

Lemma best_score (scores : Scores) (score : option string -> float) :
  (forall description,
     score description
     = match description with
       | None | Some EmptyString => 1%float
       | Some text => bestMatch scores text
       end) ->
  Forall (fun entry => In (snd entry) halfPoints
                       /\ includes "" (fst entry) = false) scores ->
  (forall description,
     In (score description) halfPoints
     /\ PrimFloat.leb 1 (score description) = true
     /\ PrimFloat.leb (score description) 5 = true)
  /\ score None = 1%float
  /\ score (Some "") = 1%float
  /\ (forall text type points,
        In (type, points) scores ->
        includes (toLowerCase text) type = true ->
        PrimFloat.leb points (score (Some text)) = true)
  /\ (forall text,
        score (Some text) = 1%float
        \/ exists type,
             includes (toLowerCase text) type = true
             /\ In (type, score (Some text)) scores).
Proof.
  intros Hscore Hscores.
  assert (Hhalf : Forall (fun entry => In (snd entry) halfPoints) scores).
  { eapply List.Forall_impl; [|exact Hscores]. now intros entry [H _]. }
  assert (Hin : forall description, In (score description) halfPoints).
  { intros description. rewrite Hscore.
    destruct description as [[|c s]|]; [by_computation| |by_computation].
    now apply bestMatch_spec. }
  split; [|split; [|split; [|split]]].
  - intros description. split; [apply Hin|]. split; now apply halfPoints_bounds.
  - now rewrite Hscore.
  - now rewrite Hscore.
  - intros text type points Hentry Hhit. rewrite Hscore.
    destruct text as [|c s].
    + apply (proj1 (List.Forall_forall _ _) Hscores) in Hentry as [_ Hno].
      cbn in Hno, Hhit. congruence.
    + now apply (proj1 (proj2 (bestMatch_spec scores (String c s) Hhalf))
                   (type, points)).
  - intros text. rewrite Hscore. destruct text as [|c s]; [now left|].
    destruct (proj2 (proj2 (bestMatch_spec scores (String c s) Hhalf)))
      as [H1|([type points] & He & Hm & Hb)]; [now left|].
    right. exists type. split; [exact Hm|]. cbn [snd] in Hb. now rewrite Hb.
Qed.

Lemma packagingScores_fit :
  Forall (fun entry => In (snd entry) halfPoints
                       /\ includes "" (fst entry) = false) packagingScores.
Proof.
  unfold packagingScores.
  repeat (apply List.Forall_cons; [split; by_computation|]).
  apply List.Forall_nil.
Qed.

Lemma productionScores_fit :
  Forall (fun entry => In (snd entry) halfPoints
                       /\ includes "" (fst entry) = false) productionScores.
Proof.
  unfold productionScores.
  repeat (apply List.Forall_cons; [split; by_computation|]).
  apply List.Forall_nil.
Qed.

(** X18: [scorePackaging] gives the best score among the packaging types
    that the description mentions, in whatever case it is written.  The
    score is one of the half points from 1 to 5; a description that is
    missing or empty scores 1; the score is at least that of every type of
    the table that the lower-cased description includes, and it is 1 or the
    score of such a type.  So a description that mentions 'plastic-free'
    scores 5, although it thereby also includes 'plastic', the type with
    score 1. *)
Theorem scorePackaging_takes_the_best :
  (forall packaging,
     In (scorePackaging packaging) halfPoints
     /\ PrimFloat.leb 1 (scorePackaging packaging) = true
     /\ PrimFloat.leb (scorePackaging packaging) 5 = true)
  /\ scorePackaging None = 1%float
  /\ scorePackaging (Some "") = 1%float
  /\ (forall text type points,
        In (type, points) packagingScores ->
        includes (toLowerCase text) type = true ->
        PrimFloat.leb points (scorePackaging (Some text)) = true)
  /\ (forall text,
        scorePackaging (Some text) = 1%float
        \/ exists type,
             includes (toLowerCase text) type = true
             /\ In (type, scorePackaging (Some text)) packagingScores)
  /\ (forall text,
        includes (toLowerCase text) "plastic-free" = true ->
        includes (toLowerCase text) "plastic" = true
        /\ scorePackaging (Some text) = 5%float).
Proof.
  destruct (best_score packagingScores scorePackaging) as (H1 & H2 & H3 & H4 & H5);
    [now intros [[|c s]|]|apply packagingScores_fit|].
  repeat (split; [assumption|]).
  intros text Hhit. split.
  - now apply (includes_shorter _ "plastic" "-free").
  - apply halfPoints_top; [apply H1|].
    apply (H4 text "plastic-free" 5%float); [now left|exact Hhit].
Qed.

(** X19: [scoreProduction] gives the best score among the production
    methods that the description mentions, in whatever case it is written.
    The score is one of the half points from 1 to 5; a description that is
    missing or empty scores 1; the score is at least that of every method
    of the table that the lower-cased description includes, and it is 1 or
    the score of such a method.  So a description that mentions
    'carbon-neutral' scores 5 whatever else it says. *)
Theorem scoreProduction_takes_the_best :
  (forall production,
     In (scoreProduction production) halfPoints
     /\ PrimFloat.leb 1 (scoreProduction production) = true
     /\ PrimFloat.leb (scoreProduction production) 5 = true)
  /\ scoreProduction None = 1%float
  /\ scoreProduction (Some "") = 1%float
  /\ (forall text type points,
        In (type, points) productionScores ->
        includes (toLowerCase text) type = true ->
        PrimFloat.leb points (scoreProduction (Some text)) = true)
  /\ (forall text,
        scoreProduction (Some text) = 1%float
        \/ exists type,
             includes (toLowerCase text) type = true
             /\ In (type, scoreProduction (Some text)) productionScores)
  /\ (forall text,
        includes (toLowerCase text) "carbon-neutral" = true ->
        scoreProduction (Some text) = 5%float).
Proof.
  destruct (best_score productionScores scoreProduction) as (H1 & H2 & H3 & H4 & H5);
    [now intros [[|c s]|]|apply productionScores_fit|].
  repeat (split; [assumption|]).
  intros text Hhit. apply halfPoints_top; [apply H1|].
  apply (H4 text "carbon-neutral" 5%float); [now left|exact Hhit].
Qed.

Lemma more_text_scores_no_lower (scores : Scores) (score : option string -> float)
    before text after :
  (forall description,
     score description
     = match description with
       | None | Some EmptyString => 1%float
       | Some text => bestMatch scores text
       end) ->
  Forall (fun entry => In (snd entry) halfPoints
                       /\ includes "" (fst entry) = false) scores ->
  PrimFloat.leb (score (Some text)) (score (Some (before +:+ text +:+ after)))
  = true.
Proof.
  intros Hscore Hscores.
  destruct (best_score scores score Hscore Hscores) as (H1 & _ & _ & H4 & H5).
  destruct (H5 text) as [Hone|(type & Hhit & Hentry)].
  - rewrite Hone. apply H1.
  - apply (H4 _ type); [exact Hentry|].
    rewrite !toLowerCase_app. now apply includes_before, includes_after.
Qed.

(** X20: saying more never lowers these two scores.  When any text is put
    before and after a packaging description, or a production description,
    the score of the longer description is at least the score of the
    shorter one. *)
Theorem longer_description_scores_no_lower before text after :
  PrimFloat.leb (scorePackaging (Some text))
                (scorePackaging (Some (before +:+ text +:+ after))) = true
  /\ PrimFloat.leb (scoreProduction (Some text))
                   (scoreProduction (Some (before +:+ text +:+ after))) = true.
Proof.
  split.
  - apply (more_text_scores_no_lower packagingScores scorePackaging);
      [now intros [[|c s]|]|apply packagingScores_fit].
  - apply (more_text_scores_no_lower productionScores scoreProduction);
      [now intros [[|c s]|]|apply productionScores_fit].
Qed.

(** ** Materials and certifications: the first type of each *)

Lemma tally_unrecognised (scores : Scores) totals text :
  recognised scores text = false -> tally scores totals text = totals.
Proof.
  unfold recognised, tally. now destruct (firstMatch scores text).
Qed.

Lemma tally_recognised_only (scores : Scores) texts totals :
  fold_left (tally scores) texts totals
  = fold_left (tally scores) (List.filter (recognised scores) texts) totals.
Proof.
  revert totals. induction texts as [|text texts IH]; intros totals;
    [reflexivity|].
  cbn [fold_left List.filter]. destruct (recognised scores text) eqn:E.
  - cbn [fold_left]. apply IH.
  - rewrite (tally_unrecognised scores totals text E). apply IH.
Qed.

Lemma firstMatch_In (scores : Scores) text points :
  firstMatch scores text = Some points ->
  exists type, In (type, points) scores
               /\ includes (toLowerCase text) type = true.
Proof.
  unfold firstMatch. destruct (List.find _ scores) as [[type p]|] eqn:E;
    [|discriminate].
  intros [= <-]. apply find_some in E as [Hin Hhit]. now exists type.
Qed.

(** X21: [scoreMaterials] ignores the materials it does not recognise.
    Without a list of materials the score is 1.  The
    materials that include no type of the table do not count: the score of
    a list is the score of the list without them, and it is 1 when the list
    has no other material.  A single material scores what the first type of
    the table that it includes scores, one of the half points from 1 to 5:
    a material that mentions 'organic' scores 5 whatever else it
    mentions. *)
Theorem scoreMaterials_counts_what_it_recognises :
  scoreMaterials None = 1%float
  /\ (forall materials,
        scoreMaterials (Some materials)
        = scoreMaterials
            (Some (List.filter (recognised materialScores) materials)))
  /\ (forall materials,
        Forall (fun material => recognised materialScores material = false)
               materials ->
        scoreMaterials (Some materials) = 1%float)
  /\ (forall material points,
        firstMatch materialScores material = Some points ->
        scoreMaterials (Some [material]) = points /\ In points halfPoints)
  /\ (forall material,
        includes (toLowerCase material) "organic" = true ->
        scoreMaterials (Some [material]) = 5%float).
Proof.
  assert (Hone : forall material points,
            firstMatch materialScores material = Some points ->
            scoreMaterials (Some [material]) = points /\ In points halfPoints).
  { intros material points Hfirst.
    unfold scoreMaterials. cbn [fold_left]. unfold tally. rewrite Hfirst.
    cbn [fst snd].
    apply firstMatch_In in Hfirst as (type & Hin & _).
    unfold materialScores in Hin. cbn [In] in Hin.
    repeat (destruct Hin as [[= <- <-]|Hin]); [..|contradiction Hin];
      by_computation. }
  split; [reflexivity|]. split; [|split; [|split]].
  - intros materials. unfold scoreMaterials.
    now rewrite tally_recognised_only.
  - intros materials Hnone. unfold scoreMaterials.
    rewrite tally_recognised_only.
    replace (List.filter _ materials) with (@nil string); [reflexivity|].
    symmetry. induction Hnone as [|m ms Hm _ IH]; [reflexivity|].
    cbn [List.filter]. now rewrite Hm.
  - exact Hone.
  - intros material Hhit. apply Hone. unfold firstMatch, materialScores.
    cbn [List.find fst]. now rewrite Hhit.
Qed.

Lemma ltb_nan_left y : PrimFloat.ltb PrimFloat.nan y = false.
Proof. rewrite FloatAxioms.ltb_spec. reflexivity. Qed.

Lemma mathMin_at_most_5 x : PrimFloat.ltb 5 (mathMin x 5) = false.
Proof.
  unfold mathMin. destruct (PrimFloat.is_nan x || PrimFloat.is_nan 5);
    [reflexivity|].
  destruct (PrimFloat.ltb 5 x) eqn:E; [reflexivity|].
  change (PrimFloat.get_sign 5) with false. now rewrite andb_false_r.
Qed.

(** X22: [scoreCertifications] never gives more than 5.  Without
    certifications (no list, or an empty one) the score is 1.  A single
    certification scores what the first type of the table that it includes
    scores, plus the bonus of 0.2 for one certification, and 5 if that is
    more than 5; a single certification that includes no type of the table
    still gets the bonus and scores 1.2. *)
Theorem scoreCertifications_is_capped :
  (forall certifications,
     PrimFloat.ltb 5 (scoreCertifications certifications) = false)
  /\ scoreCertifications None = 1%float
  /\ scoreCertifications (Some []) = 1%float
  /\ (forall certification points,
        firstMatch certScores certification = Some points ->
        scoreCertifications (Some [certification])
        = mathMin (points + bonusPerCertification) 5
        /\ PrimFloat.ltb 1 (scoreCertifications (Some [certification])) = true)
  /\ (forall certification,
        recognised certScores certification = false ->
        scoreCertifications (Some [certification])
        = (1 + bonusPerCertification)%float).
Proof.
  split; [|split; [reflexivity|split; [reflexivity|split]]].
  - intros [[|c cs]|]; [reflexivity| |reflexivity].
    unfold scoreCertifications. apply mathMin_at_most_5.
  - intros certification points Hfirst.
    unfold scoreCertifications. cbn [fold_left length]. unfold tally.
    rewrite Hfirst. cbn [fst snd].
    apply firstMatch_In in Hfirst as (type & Hin & _).
    unfold certScores in Hin. cbn [In] in Hin.
    repeat (destruct Hin as [[= <- <-]|Hin]); [..|contradiction Hin];
      by_computation.
  - intros certification Hnone.
    unfold scoreCertifications. cbn [fold_left length].
    now rewrite (tally_unrecognised _ _ _ Hnone).
Qed.

(** ** The carbon saved against a conventional product *)

Lemma mathMax_0_not_negative y : PrimFloat.ltb (mathMax 0 y) 0 = false.
Proof.
  unfold mathMax. destruct (PrimFloat.is_nan 0 || PrimFloat.is_nan y);
    [apply ltb_nan_left|].
  destruct (PrimFloat.ltb 0 y) eqn:E; [now apply ltb_flip|].
  change (PrimFloat.get_sign 0) with false. now rewrite andb_false_r.
Qed.

(** X23: [calculateCarbonSavings] never gives a negative number.  It gives 0
    for a product whose footprint is missing, zero or [NaN].  For any other
    footprint, a conventional footprint that is passed in (and is not zero
    or [NaN]) decides, whatever the category; without one, the baseline of
    the category does, and a category that is not in the table (and is not
    the name of a property that every object has) counts as 'default',
    with baseline 30. *)
Theorem calculateCarbonSavings_is_not_negative :
  (forall carbonFootprint category conventionalFootprint,
     PrimFloat.ltb
       (calculateCarbonSavings carbonFootprint category conventionalFootprint) 0
     = false)
  /\ (forall category conventionalFootprint,
        calculateCarbonSavings None category conventionalFootprint = 0%float)
  /\ (forall x category conventionalFootprint,
        truthy x = false ->
        calculateCarbonSavings (Some x) category conventionalFootprint = 0%float)
  /\ (forall x c category,
        truthy x = true -> truthy c = true ->
        calculateCarbonSavings (Some x) category (Some c) = mathMax 0 (c - x))
  /\ (forall x category,
        truthy x = true ->
        Forall (fun entry => fst entry <> category) categoryBaselines ->
        ~ In category inherited ->
        calculateCarbonSavings (Some x) category None
        = calculateCarbonSavings (Some x) "default" None
        /\ calculateCarbonSavings (Some x) category None = mathMax 0 (30 - x)).
Proof.
  split; [|split; [reflexivity|split; [|split]]].
  - intros [x|] category conventionalFootprint; [|reflexivity].
    unfold calculateCarbonSavings.
    destruct (truthy x); cbn [negb]; [|reflexivity].
    apply mathMax_0_not_negative.
  - intros x category conventionalFootprint Hx.
    unfold calculateCarbonSavings. now rewrite Hx.
  - intros x c category Hx Hc. unfold calculateCarbonSavings.
    now rewrite Hx, Hc.
  - intros x category Hx Hkeys Hown.
    assert (Hbase : baselineOf category = 30%float).
    { unfold baselineOf.
      replace (List.find _ categoryBaselines) with (@None (string * float)).
      - replace (existsb _ inherited) with false; [reflexivity|].
        symmetry. apply not_true_is_false. intros H.
        apply existsb_exists in H as (name & Hin & Heq).
        apply String.eqb_eq in Heq. now subst.
      - symmetry. clear Hown. induction Hkeys as [|entry l Hentry _ IH];
          [reflexivity|].
        cbn [List.find]. now rewrite (proj2 (String.eqb_neq _ _) Hentry). }
    unfold calculateCarbonSavings. rewrite Hx. cbn [negb].
    rewrite Hbase. split; reflexivity.
Qed.

(** * The carbon impact of a user *)

Lemma existsb_awarded {A} (f : A -> bool) l (c1 c2 c3 : bool) x1 x2 x3 :
  existsb f (l ++ (if c1 then [x1] else []) ++ (if c2 then [x2] else [])
               ++ (if c3 then [x3] else []))
  = existsb f l || (c1 && f x1) || (c2 && f x2) || (c3 && f x3).
Proof.
  rewrite existsb_app.
  destruct c1, c2, c3; cbn; destruct (existsb f l), (f x1), (f x2), (f x3);
    reflexivity.
Qed.

(** What [checkAndAwardBadges] leaves: the badges held, followed by those
    of the three whose threshold is reached and that were not held. *)
Lemma checkAndAwardBadges_badges now this :
  CarbonImpact.checkAndAwardBadges now this
  = CarbonImpact.mk (CarbonImpact.totalSaved this)
      (CarbonImpact.badges this
       ++ (if PrimFloat.leb 10 (CarbonImpact.totalSaved this)
              && negb (CarbonImpact.hasBadge "First Steps" this)
           then [Badge.mk "First Steps" "Saved your first 10kg of CO2e" now]
           else [])
       ++ (if PrimFloat.leb 100 (CarbonImpact.totalSaved this)
              && negb (CarbonImpact.hasBadge "Carbon Cutter" this)
           then [Badge.mk "Carbon Cutter"
                          "Saved 100kg of CO2e through eco-purchases" now]
           else [])
       ++ (if PrimFloat.leb 500 (CarbonImpact.totalSaved this)
              && negb (CarbonImpact.hasBadge "Climate Guardian" this)
           then [Badge.mk "Climate Guardian"
                          "Saved 500kg of CO2e - you're making a difference!" now]
           else []))
      (CarbonImpact.treesEquivalent this) (CarbonImpact.impact this).
Proof.
  destruct this as [saved held trees label].
  unfold CarbonImpact.checkAndAwardBadges, CarbonImpact.award.
  cbn [CarbonImpact.totalSaved CarbonImpact.badges
       CarbonImpact.treesEquivalent CarbonImpact.impact].
  destruct (PrimFloat.leb 10 saved && _), (PrimFloat.leb 100 saved && _),
           (PrimFloat.leb 500 saved && _);
    cbn [app length Nat.ltb Nat.leb]; rewrite ?app_nil_r; reflexivity.
Qed.

(** Whether a badge is held after [checkAndAwardBadges]. *)
Lemma hasBadge_checkAndAwardBadges name now this :
  CarbonImpact.hasBadge name (CarbonImpact.checkAndAwardBadges now this)
  = CarbonImpact.hasBadge name this
    || (PrimFloat.leb 10 (CarbonImpact.totalSaved this)
        && negb (CarbonImpact.hasBadge "First Steps" this)
        && String.eqb "First Steps" name)
    || (PrimFloat.leb 100 (CarbonImpact.totalSaved this)
        && negb (CarbonImpact.hasBadge "Carbon Cutter" this)
        && String.eqb "Carbon Cutter" name)
    || (PrimFloat.leb 500 (CarbonImpact.totalSaved this)
        && negb (CarbonImpact.hasBadge "Climate Guardian" this)
        && String.eqb "Climate Guardian" name).
Proof.
  rewrite checkAndAwardBadges_badges. unfold CarbonImpact.hasBadge at 1.
  cbn [CarbonImpact.badges]. now rewrite existsb_awarded.
Qed.

(** X24: [checkAndAwardBadges] has nothing left to do when it is called
    again: with the total unchanged, a second call, at whatever time, leaves
    the carbon impact exactly as the first call left it, and awards no badge
    a second time. *)
Theorem checkAndAwardBadges_again_awards_nothing now now' this :
  CarbonImpact.checkAndAwardBadges now'
    (CarbonImpact.checkAndAwardBadges now this)
  = CarbonImpact.checkAndAwardBadges now this.
Proof.
  rewrite (checkAndAwardBadges_badges now').
  rewrite !hasBadge_checkAndAwardBadges.
  rewrite (checkAndAwardBadges_badges now this).
  cbn [CarbonImpact.totalSaved CarbonImpact.badges
       CarbonImpact.treesEquivalent CarbonImpact.impact].
  change (String.eqb "First Steps" "First Steps") with true.
  change (String.eqb "Carbon Cutter" "Carbon Cutter") with true.
  change (String.eqb "Climate Guardian" "Climate Guardian") with true.
  change (String.eqb "First Steps" "Carbon Cutter") with false.
  change (String.eqb "First Steps" "Climate Guardian") with false.
  change (String.eqb "Carbon Cutter" "First Steps") with false.
  change (String.eqb "Carbon Cutter" "Climate Guardian") with false.
  change (String.eqb "Climate Guardian" "First Steps") with false.
  change (String.eqb "Climate Guardian" "Carbon Cutter") with false.
  destruct (PrimFloat.leb 10 _), (PrimFloat.leb 100 _), (PrimFloat.leb 500 _),
           (CarbonImpact.hasBadge "First Steps" this),
           (CarbonImpact.hasBadge "Carbon Cutter" this),
           (CarbonImpact.hasBadge "Climate Guardian" this);
    cbn [andb orb negb app]; rewrite ?app_nil_r; reflexivity.
Qed.

Lemma hasBadge_of_name name this :
  In name (List.map Badge.name (CarbonImpact.badges this)) ->
  CarbonImpact.hasBadge name this = true.
Proof.
  intros Hin. apply in_map_iff in Hin as (badge & Hname & Hin).
  unfold CarbonImpact.hasBadge. apply existsb_exists. exists badge.
  split; [exact Hin|]. now apply String.eqb_eq.
Qed.

(** X25: [checkAndAwardBadges] keeps every badge and never awards one that
    is held.  It leaves the total, the trees and the label as they are and
    the badges held in place, and adds behind them badges dated at the time
    of the call, each with one of the names 'First Steps', 'Carbon Cutter'
    and 'Climate Guardian', none with a name that a badge held already has
    and no two with the same name.  So when no two badges have the same
    name before the call, no two have afterwards. *)
Theorem checkAndAwardBadges_never_repeats_a_badge now this :
  let after := CarbonImpact.checkAndAwardBadges now this in
  CarbonImpact.totalSaved after = CarbonImpact.totalSaved this
  /\ CarbonImpact.treesEquivalent after = CarbonImpact.treesEquivalent this
  /\ CarbonImpact.impact after = CarbonImpact.impact this
  /\ (exists awarded,
        CarbonImpact.badges after = CarbonImpact.badges this ++ awarded
        /\ Forall (fun badge =>
                     CarbonImpact.hasBadge (Badge.name badge) this = false
                     /\ Badge.earnedAt badge = now
                     /\ In (Badge.name badge)
                           ["First Steps"; "Carbon Cutter"; "Climate Guardian"])
                  awarded
        /\ NoDup (List.map Badge.name awarded)
        /\ (NoDup (List.map Badge.name (CarbonImpact.badges this)) ->
            NoDup (List.map Badge.name (CarbonImpact.badges after)))).
Proof.
  intros after. unfold after. rewrite checkAndAwardBadges_badges.
  cbn [CarbonImpact.totalSaved CarbonImpact.badges
       CarbonImpact.treesEquivalent CarbonImpact.impact].
  split; [reflexivity|]. split; [reflexivity|]. split; [reflexivity|].
  eexists. split; [reflexivity|].
  assert (Hnew : forall c name (x : Badge.t),
            PrimFloat.leb c (CarbonImpact.totalSaved this)
            && negb (CarbonImpact.hasBadge name this) = true ->
            CarbonImpact.hasBadge name this = false).
  { intros c name x H. apply andb_true_iff in H as [_ H].
    now apply negb_true_iff in H. }
  destruct (PrimFloat.leb 10 _ && _) eqn:C1,
           (PrimFloat.leb 100 _ && _) eqn:C2,
           (PrimFloat.leb 500 _ && _) eqn:C3;
    cbn [app].
  all: try apply (Hnew _ _ (Badge.mk "" "" now)) in C1.
  all: try apply (Hnew _ _ (Badge.mk "" "" now)) in C2.
  all: try apply (Hnew _ _ (Badge.mk "" "" now)) in C3.
  all: match goal with
       | |- Forall ?P ?l /\ _ /\ _ =>
           assert (Hall : Forall P l)
             by (repeat (apply List.Forall_cons;
                         [cbn; repeat split; solve [assumption | auto 6]|]);
                 apply List.Forall_nil);
           assert (Hnd : NoDup (List.map Badge.name l))
             by (cbn [List.map Badge.name];
                 repeat (apply NoDup_cons; split;
                         [rewrite ?not_elem_of_cons; repeat split;
                          first [discriminate | apply not_elem_of_nil]|]);
                 apply NoDup_nil_2)
       end.
  all: split; [exact Hall|]. all: split; [exact Hnd|].
  all: intros Hheld; rewrite map_app; apply NoDup_app.
  all: split; [exact Hheld|]. all: split; [|exact Hnd].
  all: intros name Hin Hin'.
  all: apply list_elem_of_In, hasBadge_of_name in Hin.
  all: apply list_elem_of_In, in_map_iff in Hin' as (badge & <- & Hin').
  all: apply (proj1 (List.Forall_forall _ _) Hall) in Hin' as [Hno _].
  all: congruence.
Qed.

Lemma held_after_the_check c name this now :
  PrimFloat.leb c (CarbonImpact.totalSaved this) = true ->
  In (c, name) [(10%float, "First Steps"); (100%float, "Carbon Cutter");
                (500%float, "Climate Guardian")] ->
  CarbonImpact.hasBadge name (CarbonImpact.checkAndAwardBadges now this) = true.
Proof.
  intros Hc Hin. rewrite hasBadge_checkAndAwardBadges. cbn [In] in Hin.
  destruct Hin as [[= <- <-]|[[= <- <-]|[[= <- <-]|[]]]]; rewrite Hc;
    destruct (CarbonImpact.hasBadge _ this); cbn [andb negb orb];
    rewrite ?orb_true_r; reflexivity.
Qed.

(** X26: after [updateCarbonMetrics] the label and the badges agree.  The
    call leaves the total as it is, sets the trees equivalent to a twentieth
    of the total rounded to two decimals and the label to the one that goes
    with the total, one of 'Just Started', 'Sustainability Starter', 'Green
    Advocate', 'Eco Warrior' and 'Climate Champion'.  Whoever is then
    labelled other than 'Just Started' holds the badges 'First Steps' and
    'Carbon Cutter', and whoever is labelled 'Eco Warrior' or 'Climate
    Champion' holds 'Climate Guardian' as well. *)
Theorem updateCarbonMetrics_label_and_badges_agree toFixed2 now this :
  let after := CarbonImpact.updateCarbonMetrics toFixed2 now this in
  CarbonImpact.totalSaved after = CarbonImpact.totalSaved this
  /\ CarbonImpact.treesEquivalent after
     = toFixed2 (CarbonImpact.totalSaved this / 20)%float
  /\ CarbonImpact.impact after
     = CarbonImpact.impactLabel (CarbonImpact.totalSaved this)
  /\ In (CarbonImpact.impact after) CarbonImpact.impactLabels
  /\ (CarbonImpact.impact after <> "Just Started" ->
      CarbonImpact.hasBadge "First Steps" after = true
      /\ CarbonImpact.hasBadge "Carbon Cutter" after = true)
  /\ (CarbonImpact.impact after = "Eco Warrior"
      \/ CarbonImpact.impact after = "Climate Champion" ->
      CarbonImpact.hasBadge "Climate Guardian" after = true).
Proof.
  intros after. unfold after, CarbonImpact.updateCarbonMetrics.
  set (saved := CarbonImpact.totalSaved this).
  set (this' := CarbonImpact.mk _ _ _ _).
  assert (Hsaved : CarbonImpact.totalSaved this' = saved) by reflexivity.
  assert (Hlabel : CarbonImpact.impact (CarbonImpact.checkAndAwardBadges now this')
                   = CarbonImpact.impactLabel saved)
    by now rewrite checkAndAwardBadges_badges.
  split; [now rewrite checkAndAwardBadges_badges|].
  split; [now rewrite checkAndAwardBadges_badges|].
  split; [exact Hlabel|]. rewrite Hlabel.
  assert (H100 : CarbonImpact.impactLabel saved <> "Just Started" ->
                 PrimFloat.leb 100 saved = true).
  { unfold CarbonImpact.impactLabel.
    destruct (PrimFloat.leb 1000 saved) eqn:E1;
      [intros _; now apply (leb_trans 100 1000)|].
    destruct (PrimFloat.leb 500 saved) eqn:E2;
      [intros _; now apply (leb_trans 100 500)|].
    destruct (PrimFloat.leb 250 saved) eqn:E3;
      [intros _; now apply (leb_trans 100 250)|].
    destruct (PrimFloat.leb 100 saved); [reflexivity|congruence]. }
  assert (H500 : CarbonImpact.impactLabel saved = "Eco Warrior"
                 \/ CarbonImpact.impactLabel saved = "Climate Champion" ->
                 PrimFloat.leb 500 saved = true).
  { unfold CarbonImpact.impactLabel.
    destruct (PrimFloat.leb 1000 saved) eqn:E1;
      [intros _; now apply (leb_trans 500 1000)|].
    destruct (PrimFloat.leb 500 saved) eqn:E2; [reflexivity|].
    destruct (PrimFloat.leb 250 saved), (PrimFloat.leb 100 saved);
      intros [H|H]; discriminate H. }
  split; [|split].
  - unfold CarbonImpact.impactLabel, CarbonImpact.impactLabels.
    through_the_chain saved; cbn; auto 8.
  - intros Hnot. apply H100 in Hnot. split.
    + apply held_after_the_check with 10%float; [|now left].
      rewrite Hsaved. now apply (leb_trans 10 100).
    + apply held_after_the_check with 100%float; [|right; now left].
      now rewrite Hsaved.
  - intros Hhigh. apply H500 in Hhigh.
    apply held_after_the_check with 500%float; [|right; right; now left].
    now rewrite Hsaved.
Qed.

(** X27: saving more never lowers the label.  When one total is at most
    another, the label that [updateCarbonMetrics] gives for the first comes
    no later than the label for the second in the list 'Just Started',
    'Sustainability Starter', 'Green Advocate', 'Eco Warrior', 'Climate
    Champion'; and a total that is [NaN] is labelled 'Just Started'. *)
Theorem more_saved_gets_no_lower_label a b :
  PrimFloat.leb a b = true ->
  (placeIn CarbonImpact.impactLabels (CarbonImpact.impactLabel a)
   <= placeIn CarbonImpact.impactLabels (CarbonImpact.impactLabel b))%nat
  /\ CarbonImpact.impactLabel PrimFloat.nan = "Just Started".
Proof.
  intros Hab. split; [|reflexivity]. unfold CarbonImpact.impactLabel.
  repeat match goal with
         | |- context [if PrimFloat.leb ?c a then _ else _] =>
             destruct (PrimFloat.leb c a) eqn:?; cbv iota;
             [ rewrite (leb_trans c a b) by assumption;
               through_the_chain b; by_computation | ]
         end.
  through_the_chain b; by_computation.
Qed.

Lemma more_saved_gets_no_lower_label_witness :
  PrimFloat.leb 120 600 = true
  /\ CarbonImpact.impactLabel 120 = "Sustainability Starter"
  /\ CarbonImpact.impactLabel 600 = "Eco Warrior"
  /\ (placeIn CarbonImpact.impactLabels (CarbonImpact.impactLabel 120)
      <= placeIn CarbonImpact.impactLabels (CarbonImpact.impactLabel 600))%nat.
Proof.
  split; [reflexivity|]. split; [reflexivity|]. split; [reflexivity|].
  apply (more_saved_gets_no_lower_label 120 600). reflexivity.
Defined.

(** * The tags of a purchase history *)

Lemma add_spec tags tag :
  NoDup tags ->
  NoDup (RecommendationEngine.add tags tag)
  /\ (forall t, In t (RecommendationEngine.add tags tag) <-> In t tags \/ t = tag)
  /\ exists more, RecommendationEngine.add tags tag = tags ++ more.
Proof.
  intros Hnd. unfold RecommendationEngine.add.
  destruct (existsb (String.eqb tag) tags) eqn:E.
  - split; [exact Hnd|]. split; [|exists []; now rewrite app_nil_r].
    intros t. split; [now left|]. intros [H| ->]; [exact H|].
    apply existsb_exists in E as (t' & Hin & Heq).
    apply String.eqb_eq in Heq. now subst.
  - split; [|split; [|now exists [tag]]].
    + apply NoDup_app. split; [exact Hnd|]. split; [|apply NoDup_singleton].
      intros t Hin Hin'. apply list_elem_of_singleton in Hin'. subst t.
      apply not_true_iff_false in E. apply E, existsb_exists.
      exists tag. split; [now apply list_elem_of_In|apply String.eqb_refl].
    + intros t. rewrite in_app_iff. cbn. intuition.
Qed.

Lemma add_all_spec purchaseTags tags :
  NoDup tags ->
  NoDup (fold_left RecommendationEngine.add purchaseTags tags)
  /\ (forall t, In t (fold_left RecommendationEngine.add purchaseTags tags)
                <-> In t tags \/ In t purchaseTags)
  /\ exists more,
       fold_left RecommendationEngine.add purchaseTags tags = tags ++ more.
Proof.
  revert tags. induction purchaseTags as [|tag l IH]; intros tags Hnd.
  - split; [exact Hnd|]. split; [|exists []; now rewrite app_nil_r].
    intros t. cbn. intuition.
  - cbn [fold_left]. destruct (add_spec tags tag Hnd) as (H1 & H2 & [m1 H3]).
    destruct (IH _ H1) as (I1 & I2 & [m2 I3]).
    split; [exact I1|]. split.
    + intros t. rewrite I2, H2. cbn. intuition.
    + exists (m1 ++ m2). now rewrite I3, H3, app_assoc.
Qed.

Lemma extractTags_from purchaseHistory tags :
  NoDup tags ->
  let result :=
    fold_left
      (fun tags purchase =>
         match RecommendationEngine.tags purchase with
         | Some purchaseTags => fold_left RecommendationEngine.add purchaseTags tags
         | None => tags
         end)
      purchaseHistory tags in
  NoDup result
  /\ (forall t, In t result <->
                In t tags
                \/ exists purchase purchaseTags,
                     In purchase purchaseHistory
                     /\ RecommendationEngine.tags purchase = Some purchaseTags
                     /\ In t purchaseTags)
  /\ exists more, result = tags ++ more.
Proof.
  revert tags. induction purchaseHistory as [|p ph IH]; intros tags Hnd result.
  - split; [exact Hnd|]. split; [|exists []; now rewrite app_nil_r].
    intros t. split; [now left|]. intros [H|(? & ? & [] & _)]. exact H.
  - cbn [fold_left] in result.
    destruct (RecommendationEngine.tags p) as [ts|] eqn:Hp.
    + destruct (add_all_spec ts tags Hnd) as (H1 & H2 & [m1 H3]).
      destruct (IH _ H1) as (I1 & I2 & [m2 I3]). fold result in I1, I2, I3.
      split; [exact I1|]. split.
      * intros t. rewrite I2, H2. split.
        -- intros [[H|H]|(q & qs & Hq & Hqs & Ht)]; [now left| |].
           ++ right. exists p, ts. split; [now left|]. now split.
           ++ right. exists q, qs. split; [now right|]. now split.
        -- intros [H|(q & qs & [<-|Hq] & Hqs & Ht)]; [left; now left| |].
           ++ left. right. congruence.
           ++ right. exists q, qs. now repeat split.
      * exists (m1 ++ m2). now rewrite I3, H3, app_assoc.
    + destruct (IH _ Hnd) as (I1 & I2 & [m2 I3]). fold result in I1, I2, I3.
      split; [exact I1|]. split; [|now exists m2].
      intros t. rewrite I2. split.
      * intros [H|(q & qs & Hq & Hqs & Ht)]; [now left|].
        right. exists q, qs. split; [now right|]. now split.
      * intros [H|(q & qs & [<-|Hq] & Hqs & Ht)]; [now left|congruence|].
        right. exists q, qs. now repeat split.
Qed.

(** X28: [extractTagsFromPurchaseHistory] gives every tag of the purchases
    once.  The result has no tag twice; a tag is in it exactly when it is
    among the tags of some purchase of the history (a purchase without tags
    adds nothing); and the tags come in the order in which they first occur:
    the result for a history that goes on begins with the result for the
    history so far. *)
Theorem extractTagsFromPurchaseHistory_has_each_tag_once purchaseHistory :
  NoDup (RecommendationEngine.extractTagsFromPurchaseHistory purchaseHistory)
  /\ (forall tag,
        In tag (RecommendationEngine.extractTagsFromPurchaseHistory purchaseHistory)
        <-> exists purchase purchaseTags,
              In purchase purchaseHistory
              /\ RecommendationEngine.tags purchase = Some purchaseTags
              /\ In tag purchaseTags)
  /\ (forall later,
        exists more,
          RecommendationEngine.extractTagsFromPurchaseHistory
            (purchaseHistory ++ later)
          = RecommendationEngine.extractTagsFromPurchaseHistory purchaseHistory
            ++ more).
Proof.
  unfold RecommendationEngine.extractTagsFromPurchaseHistory.
  destruct (extractTags_from purchaseHistory [] (NoDup_nil_2 (A:=string))) as (H1 & H2 & _).
  split; [exact H1|]. split.
  - intros tag. rewrite H2. split; [intros [[]|H]; exact H|now right].
  - intros later. rewrite fold_left_app.
    destruct (extractTags_from later _ H1) as (_ & _ & Hmore). exact Hmore.
Qed.
